(** * FAS Calendar: the calendar grid core of [CalendarView.tsx]

    A shallow embedding of the pure parts of
    [frontend/src/components/CalendarView.tsx],
    [frontend/src/components/EventDetailModal.tsx] and
    [frontend/src/data/holidays.ts], with the properties the specification
    states about them.

    Conventions.
    - A JavaScript string is a [string]; every [ascii] stands for one UTF-16
      code unit in the range 0..255.  The Chinese titles of the source are
      carried as their UTF-8 bytes; no function inspects them.
    - A JavaScript number that the code only uses as an integer is a [Z];
      [NaN] is [None] in an [option Z].  The colour arithmetic and the
      placement of the popovers run on binary64 values and are modelled with
      [PrimFloat]; the measures of the month view and of the wheel, which
      the code only compares, divides by a row count and rounds, are exact
      rationals [Q].
    - A plain object is the finite map of its own properties; a read with
      [[]] of a key it does not own reaches [Object.prototype].  An
      exception is the outcome [TypeError] of a [Completion].
    - A [Date] is an [option Z]: the time value in milliseconds since the
      epoch, [None] for an Invalid Date. *)

From Stdlib Require Import ZArith QArith Qround Floats Uint63 List Bool String Ascii Lia Lqa.
From stdpp Require Import base option list strings gmap.

Set Warnings "-inexact-float".
Local Open Scope Z_scope.

(* ===================================================================== *)
(** * Definitions *)
(* ===================================================================== *)

(** ** JavaScript built-ins used by the source *)
Module JS.

(** [String.prototype.replace('#', '')]: a string pattern replaces the first
    occurrence only. *)
Fixpoint replace_hash (s : string) : string :=
  match s with
  | EmptyString => EmptyString
  | String c s' => if Ascii.eqb c "#" then s' else String c (replace_hash s')
  end.

(** [s.slice(i, j)] for [0 <= i <= j]. *)
Definition slice (i j : nat) (s : string) : string := substring i (j - i) s.

(** [s.split('@')[0]]: the part before the first at-sign. *)
Fixpoint before_at (s : string) : string :=
  match s with
  | EmptyString => EmptyString
  | String c s' => if Ascii.eqb c "@" then EmptyString else String c (before_at s')
  end.

(** [a || b] on strings: the empty string is falsy. *)
Definition or_string (a b : string) : string :=
  if String.eqb a "" then b else a.

(** [a || b] where [a] may be [undefined]. *)
Definition or_undefined (a : option string) (b : string) : string :=
  match a with
  | Some v => or_string v b
  | None => b
  end.

(** *** [Number.parseInt(s, 16)] *)

(** White space that [parseInt] skips, among the code units 0..255. *)
Definition isStrWhiteSpaceChar (c : ascii) : bool :=
  let n := N_of_ascii c in
  (N.eqb n 9 || N.eqb n 10 || N.eqb n 11 || N.eqb n 12 || N.eqb n 13
   || N.eqb n 32 || N.eqb n 160)%bool.

Fixpoint trimStart (s : string) : string :=
  match s with
  | String c s' => if isStrWhiteSpaceChar c then trimStart s' else s
  | EmptyString => EmptyString
  end.

Definition hexDigitValue (c : ascii) : option Z :=
  let n := Z.of_N (N_of_ascii c) in
  if (48 <=? n) && (n <=? 57) then Some (n - 48)
  else if (97 <=? n) && (n <=? 102) then Some (n - 87)
  else if (65 <=? n) && (n <=? 70) then Some (n - 55)
  else None.

(** The longest prefix of radix-16 digits, read as a number; [acc] is [None]
    until the first digit has been seen. *)
Fixpoint hexPrefix (s : string) (acc : option Z) : option Z :=
  match s with
  | String c s' =>
      match hexDigitValue c with
      | Some d => hexPrefix s' (Some (16 * default 0 acc + d))
      | None => acc
      end
  | EmptyString => acc
  end.

Definition stripSign (s : string) : Z * string :=
  match s with
  | String c s' =>
      if Ascii.eqb c "-" then (-1, s')
      else if Ascii.eqb c "+" then (1, s')
      else (1, s)
  | EmptyString => (1, s)
  end.

Definition strip0x (s : string) : string :=
  match s with
  | String c0 (String c1 s') =>
      if Ascii.eqb c0 "0" && (Ascii.eqb c1 "x" || Ascii.eqb c1 "X") then s' else s
  | _ => s
  end.

(** [parseInt(s, 16)]; [None] is [NaN].  A result of minus zero is [Some 0]:
    the callers only compare, shift and mask the value. *)
Definition parseInt16 (s : string) : option Z :=
  let '(sign, s2) := stripSign (trimStart s) in
  option_map (Z.mul sign) (hexPrefix (strip0x s2) None).

(** *** Integral numbers and [toString(16)] *)

(** What [Math.round] can return. *)
Inductive integral : Type :=
| Int (z : Z)
| NaN
| PosInfinity
| NegInfinity.

(** [Math.round(x)] is [floor(x + 1/2)] computed exactly; a finite binary64
    value is [m * 2^e]. *)
Definition Math_round (x : float) : integral :=
  match Prim2SF x with
  | S754_zero _ => Int 0
  | S754_infinity s => if s then NegInfinity else PosInfinity
  | S754_nan => NaN
  | S754_finite s m e =>
      let v := if s then Z.neg m else Z.pos m in
      if 0 <=? e then Int (v * 2 ^ e)
      else Int ((2 * v + 2 ^ (- e)) / 2 ^ (- e + 1))
  end.

(** [Math.min(255, n)]. *)
Definition Math_min_255 (n : integral) : integral :=
  match n with
  | Int z => Int (Z.min 255 z)
  | NaN => NaN
  | PosInfinity => Int 255
  | NegInfinity => NegInfinity
  end.

Definition hexChar (d : Z) : ascii :=
  if d <? 10 then ascii_of_N (Z.to_N (48 + d)) else ascii_of_N (Z.to_N (87 + d)).

Fixpoint hexOfPos (fuel : nat) (n : Z) (acc : string) : string :=
  match fuel with
  | O => acc
  | S fuel' =>
      let acc' := String (hexChar (n mod 16)) acc in
      if n / 16 =? 0 then acc' else hexOfPos fuel' (n / 16) acc'
  end.

(** Radix-16 digits of [n >= 0]; the fuel is the bit length of [n], which
    exceeds the number of its radix-16 digits. *)
Definition hexOfNat (n : Z) : string :=
  hexOfPos (S (Z.to_nat (Z.log2 n))) n EmptyString.

(** [n.toString(16)]. *)
Definition toString16 (n : integral) : string :=
  match n with
  | Int z => if z <? 0 then String "-" (hexOfNat (- z)) else hexOfNat z
  | NaN => "NaN"
  | PosInfinity => "Infinity"
  | NegInfinity => "-Infinity"
  end.

(** [s.padStart(2, '0')]. *)
Definition padStart2 (s : string) : string :=
  match String.length s with
  | O => "00"
  | S O => String "0" s
  | _ => s
  end.

(** A small integer as a binary64 value; [None] is [NaN]. *)
Definition float_of_Z (z : Z) : float :=
  match z with
  | Z0 => 0%float
  | Zpos _ => PrimFloat.of_uint63 (Uint63.of_Z z)
  | Zneg _ => PrimFloat.opp (PrimFloat.of_uint63 (Uint63.of_Z (- z)))
  end.

Definition float_of_number (n : option Z) : float :=
  match n with
  | Some z => float_of_Z z
  | None => PrimFloat.nan
  end.

(** *** [new Date(string)]

    The date-time string format of ECMA-262 with a four-digit year:
    [YYYY], [YYYY-MM] or [YYYY-MM-DD], optionally followed by [THH:mm],
    [THH:mm:ss] or [THH:mm:ss.sss] and then by [Z] or a [+HH:mm] / [-HH:mm]
    offset.  Without an offset a date-only form is a UTC time and a
    date-time form is a local time.  Any other string is an Invalid Date
    here; an engine may accept more through fallbacks of its own.

    [tz] is the viewer's local offset from UTC in minutes. *)

Definition msPerDay : Z := 86400000.

Definition decDigit (c : ascii) : option Z :=
  let n := Z.of_N (N_of_ascii c) in
  if (48 <=? n) && (n <=? 57) then Some (n - 48) else None.

Definition dec2 (c1 c2 : ascii) : option Z :=
  a ← decDigit c1; b ← decDigit c2; Some (10 * a + b).

Definition dec3 (c1 c2 c3 : ascii) : option Z :=
  a ← decDigit c1; b ← dec2 c2 c3; Some (100 * a + b).

Definition dec4 (c1 c2 c3 c4 : ascii) : option Z :=
  a ← dec2 c1 c2; b ← dec2 c3 c4; Some (100 * a + b).

Definition inLeapYear (y : Z) : bool :=
  (y mod 4 =? 0) && (negb (y mod 100 =? 0) || (y mod 400 =? 0)).

(** [DayFromYear] of ECMA-262. *)
Definition dayFromYear (y : Z) : Z :=
  365 * (y - 1970) + (y - 1969) / 4 - (y - 1901) / 100 + (y - 1601) / 400.

Definition daysInMonth (y m : Z) : Z :=
  if m =? 2 then (if inLeapYear y then 29 else 28)
  else if (m =? 4) || (m =? 6) || (m =? 9) || (m =? 11) then 30
  else 31.

(** Days of the year before the first of month [m] (1..12). *)
Definition daysBeforeMonth (y m : Z) : Z :=
  let leap := if inLeapYear y then 1 else 0 in
  if m =? 1 then 0
  else if m =? 2 then 31
  else if m =? 3 then 59 + leap
  else if m =? 4 then 90 + leap
  else if m =? 5 then 120 + leap
  else if m =? 6 then 151 + leap
  else if m =? 7 then 181 + leap
  else if m =? 8 then 212 + leap
  else if m =? 9 then 243 + leap
  else if m =? 10 then 273 + leap
  else if m =? 11 then 304 + leap
  else 334 + leap.

(** Day number (days since 1970-01-01) of a civil date, when it exists. *)
Definition makeDay (y m d : Z) : option Z :=
  if (1 <=? m) && (m <=? 12) && (1 <=? d) && (d <=? daysInMonth y m)
  then Some (dayFromYear y + daysBeforeMonth y m + (d - 1))
  else None.

(** The date part: the day number and the rest of the string. *)
Definition parseYMD (s : string) : option (Z * string) :=
  match s with
  | String y1 (String y2 (String y3 (String y4 r))) =>
      y ← dec4 y1 y2 y3 y4;
      match r with
      | String c4 r1 =>
          if Ascii.eqb c4 "-" then
            match r1 with
            | String m1 (String m2 r2) =>
                m ← dec2 m1 m2;
                match r2 with
                | String c7 r3 =>
                    if Ascii.eqb c7 "-" then
                      match r3 with
                      | String d1 (String d2 r4) =>
                          d ← dec2 d1 d2;
                          day ← makeDay y m d;
                          Some (day, r4)
                      | _ => None
                      end
                    else day ← makeDay y m 1; Some (day, r2)
                | EmptyString => day ← makeDay y m 1; Some (day, r2)
                end
            | _ => None
            end
          else day ← makeDay y 1 1; Some (day, r)
      | EmptyString => day ← makeDay y 1 1; Some (day, r)
      end
  | _ => None
  end.

(** Milliseconds of [.sss] when present. *)
Definition parseMillis (s : string) : option (Z * string) :=
  match s with
  | String c r =>
      if Ascii.eqb c "." then
        match r with
        | String f1 (String f2 (String f3 r')) =>
            f ← dec3 f1 f2 f3; Some (f, r')
        | _ => None
        end
      else Some (0, s)
  | EmptyString => Some (0, s)
  end.

(** Seconds and milliseconds of [:ss] / [:ss.sss] when present. *)
Definition parseSeconds (s : string) : option (Z * string) :=
  match s with
  | String c r =>
      if Ascii.eqb c ":" then
        match r with
        | String s1 (String s2 r') =>
            sec ← dec2 s1 s2;
            '(ms, r'') ← parseMillis r';
            if sec <=? 59 then Some (sec * 1000 + ms, r'') else None
        | _ => None
        end
      else Some (0, s)
  | EmptyString => Some (0, s)
  end.

(** The time part after [T]: milliseconds into the day and the rest. *)
Definition parseHMS (s : string) : option (Z * string) :=
  match s with
  | String h1 (String h2 (String c (String m1 (String m2 r)))) =>
      if Ascii.eqb c ":" then
        h ← dec2 h1 h2;
        m ← dec2 m1 m2;
        '(sms, r') ← parseSeconds r;
        if (h <=? 23) && (m <=? 59) then Some (h * 3600000 + m * 60000 + sms, r')
        else if (h =? 24) && (m =? 0) && (sms =? 0) then Some (h * 3600000, r')
        else None
      else None
  | _ => None
  end.

(** The offset from UTC in minutes; [None] inside [Some] when it is absent. *)
Definition parseOffset (s : string) : option (option Z) :=
  match s with
  | EmptyString => Some None
  | String c r =>
      if Ascii.eqb c "Z" then
        (if String.eqb r "" then Some (Some 0) else None)
      else if Ascii.eqb c "+" || Ascii.eqb c "-" then
        match r with
        | String h1 (String h2 (String c' (String m1 (String m2 EmptyString)))) =>
            if Ascii.eqb c' ":" then
              h ← dec2 h1 h2;
              m ← dec2 m1 m2;
              if (h <=? 23) && (m <=? 59)
              then Some (Some ((if Ascii.eqb c "-" then -1 else 1) * (h * 60 + m)))
              else None
            else None
        | _ => None
        end
      else None
  end.

(** The time value of [new Date(s)]; [None] is an Invalid Date. *)
Definition Date_parse (tz : Z) (s : string) : option Z :=
  '(day, r) ← parseYMD s;
  match r with
  | EmptyString => Some (day * msPerDay)
  | String c r1 =>
      if Ascii.eqb c "T" then
        '(ms, r2) ← parseHMS r1;
        off ← parseOffset r2;
        Some (day * msPerDay + ms - default tz off * 60000)
      else None
  end.

(** [a < b] on time values; a comparison with [NaN] is false. *)
Definition time_lt (a : option Z) (b : Z) : bool :=
  match a with
  | Some t => t <? b
  | None => false
  end.

(** *** Reading a plain object

    An object made by a literal or by [JSON.parse] inherits from
    [Object.prototype].  A read [o[key]] of a key that [o] does not own
    finds the member of the prototype of that name, if there is one: a
    function, or for [__proto__] the prototype itself.  None of them is
    nullish or falsy, and none has the methods of a string or of an
    array. *)
Definition objectPrototypeKeys : list string :=
  [ "constructor"; "__defineGetter__"; "__defineSetter__"; "hasOwnProperty";
    "__lookupGetter__"; "__lookupSetter__"; "isPrototypeOf";
    "propertyIsEnumerable"; "toString"; "valueOf"; "__proto__";
    "toLocaleString" ]%string.

Definition inherited (key : string) : bool :=
  existsb (String.eqb key) objectPrototypeKeys.

(** What [o[key]] finds. *)
Inductive Property (A : Type) : Type :=
| Own (a : A)
| Inherited
| Undefined.
Arguments Own {A} a.
Arguments Inherited {A}.
Arguments Undefined {A}.

(** [o[key]] for the object with the own properties [own]. *)
Definition get {A} (own : gmap string A) (key : string) : Property A :=
  match own !! key with
  | Some a => Own a
  | None => if inherited key then Inherited else Undefined
  end.

(** *** Exceptions

    The one exception of the modelled code is the [TypeError] of a call of
    a method that the receiver does not have. *)
Inductive Completion (A : Type) : Type :=
| Normal (a : A)
| TypeError.
Arguments Normal {A} a.
Arguments TypeError {A}.

#[global] Instance Completion_ret : MRet Completion := fun A a => Normal a.
#[global] Instance Completion_fmap : FMap Completion :=
  fun A B f m => match m with Normal a => Normal (f a) | TypeError => TypeError end.
#[global] Instance Completion_bind : MBind Completion :=
  fun A B f m => match m with Normal a => f a | TypeError => TypeError end.

(** [l.forEach(x => ...)] on a state [s] that the body updates. *)
Fixpoint forEach {A S : Type} (body : S -> A -> Completion S) (l : list A) (s : S)
  : Completion S :=
  match l with
  | [] => Normal s
  | x :: l' => s' ← body s x; forEach body l' s'
  end.

End JS.

(** ** binary64 numbers of the geometry code *)
Module Binary64.

(** [a || b]: zero and [NaN] are falsy. *)
Definition or_number (a b : float) : float :=
  if (PrimFloat.is_zero a || PrimFloat.is_nan a)%bool then b else a.

(** [Math.max(a, b)]: [NaN] when an argument is, and [+0] above [-0]. *)
Definition Math_max (a b : float) : float :=
  if (PrimFloat.is_nan a || PrimFloat.is_nan b)%bool then PrimFloat.nan
  else if PrimFloat.ltb a b then b
  else if PrimFloat.ltb b a then a
  else if PrimFloat.get_sign a then b else a.

(** The scale of the least bit of a binary64 value: every finite value is
    a multiple of [2^-1074]. *)
Definition scale : positive := 2 ^ 1074.

(** The value of a binary64 number in units of [2^-1074]; 0 for an
    infinity and for [NaN]. *)
Definition units (x : spec_float) : Z :=
  match x with
  | S754_finite s m e =>
      let n := Z.pos m * 2 ^ (e + 1074) in if s then - n else n
  | _ => 0
  end.

(** The number a finite binary64 value stands for. *)
Definition toQ (x : float) : Q := Qmake (units (Prim2SF x)) scale.

(** A zero or a number with a mantissa. *)
Definition finiteSF (x : spec_float) : bool :=
  match x with
  | S754_zero _ | S754_finite _ _ _ => true
  | _ => false
  end.

(** A zero of either sign, a positive number or [+Infinity]. *)
Definition notBelowZero (x : spec_float) : Prop :=
  match x with
  | S754_zero _ | S754_finite false _ _ | S754_infinity false => True
  | _ => False
  end.

(** [+Infinity], or a positive number [m * 2^e] that is at least the
    integer [c]. *)
Definition atLeast (c : Z) (x : spec_float) : Prop :=
  match x with
  | S754_infinity false => True
  | S754_finite false m e =>
      if 0 <=? e then c <= Z.pos m * 2 ^ e else c * 2 ^ (- e) <= Z.pos m
  | _ => False
  end.

End Binary64.

(** ** Colour derivation ([CalendarView.tsx], lines 36-79) *)
Module Color.
Import JS.

(** The weighted sum of line 48, evaluated left to right in binary64. *)
Definition relativeLuminance (r g b : float) : float :=
  (0.2126 * r + 0.7152 * g + 0.0722 * b)%float.

(** The two returns of lines 50-53. *)
Definition chooseByLuminance (preferLight : bool) (luminance : float) : string :=
  if preferLight then
    if PrimFloat.ltb luminance 0.75%float then "#ffffff" else "#1f2937"
  else
    if PrimFloat.ltb 0.5%float luminance then "#1f2937" else "#ffffff".

Definition safeDefault (preferLight : bool) : string :=
  if preferLight then "#ffffff" else "#111827".

Definition channel01 (normalized : string) (i j : nat) : float :=
  (float_of_number (parseInt16 (slice i j normalized)) / 255)%float.

Definition getAdaptiveTextColor (hex : string) (preferLight : bool) : string :=
  if String.eqb hex "" then safeDefault preferLight
  else
    let normalized := replace_hash hex in
    if negb (Nat.eqb (String.length normalized) 6) then safeDefault preferLight
    else
      let r := channel01 normalized 0 2 in
      let g := channel01 normalized 2 4 in
      let b := channel01 normalized 4 6 in
      chooseByLuminance preferLight (relativeLuminance r g b).

(** [mixChannel] of lines 71-72, for the [ratio] in scope. *)
Definition mixChannel (ratio : float) (channel : Z) : integral :=
  Math_min_255
    (Math_round (float_of_Z channel + (255 - float_of_Z channel) * ratio)%float).

Definition channelHex (v : integral) : string := padStart2 (toString16 v).

Definition lightenColor (hex : string) (ratio : float) : string :=
  if String.eqb hex "" then hex
  else
    let normalized := replace_hash hex in
    if negb (Nat.eqb (String.length normalized) 6) then hex
    else
      match parseInt16 normalized with
      | None => hex
      | Some num =>
          let r := Z.land (Z.shiftr num 16) 255 in
          let g := Z.land (Z.shiftr num 8) 255 in
          let b := Z.land num 255 in
          String "#" (channelHex (mixChannel ratio r)
                      +:+ channelHex (mixChannel ratio g)
                      +:+ channelHex (mixChannel ratio b))
      end.

End Color.

(** ** The data model ([types/calendar.ts]) *)
Module Model.

Inductive ShowAs : Type :=
| free | tentative | busy | oof | workingElsewhere | unknown.

Record DateTimeInfo : Type := {
  dateTime : string;
  timeZone : string;
}.

Record Location : Type := {
  displayName : option string;
}.

Record CalendarEvent : Type := {
  id : string;
  subject : string;
  start : DateTimeInfo;
  end_ : DateTimeInfo;
  location : option Location;
  showAs : ShowAs;
  isAllDay : bool;
  userEmail : string;
  userName : string;
}.

Record UserInfo : Type := {
  email : string;
  user_displayName : string;
  color : string;
}.

(** A [Date]: its time value, [None] for an Invalid Date. *)
Definition Date : Type := option Z.

Record ExtendedProps : Type := {
  ep_userEmail : string;
  ep_userName : string;
  ep_showAs : ShowAs;
  ep_location : option string;
  ep_originalSubject : string;
  ep_isHoliday : option bool;
  ep_isPast : option bool;
  ep_isOncall : option bool;
}.

Record FullCalendarEvent : Type := {
  fc_id : string;
  fc_title : string;
  fc_start : Date;
  fc_end : Date;
  fc_allDay : bool;
  fc_backgroundColor : string;
  fc_borderColor : string;
  fc_textColor : string;
  fc_classNames : list string;
  fc_extendedProps : ExtendedProps;
}.

(** The fields of a [DOMRect] are binary64 values. *)
Record EventAnchorRect : Type := {
  top : float;
  left : float;
  right : float;
  bottom : float;
  width : float;
  height : float;
}.

Inductive ViewType : Type :=
| dayGridMonth | timeGridWeek | timeGridDay | listWeek.

End Model.

(** ** Holiday records ([data/holidays.ts]) *)
Module Holidays.
Import Model.
Local Open Scope string_scope.

Record HolidayDefinition : Type := {
  hd_subject : string;
  hd_date : string;
}.

Definition createHoliday (subject date : string) : CalendarEvent :=
  {| id := "holiday-" +:+ date;
     subject := subject;
     start := {| dateTime := date +:+ "T00:00:00+08:00"; timeZone := "Asia/Taipei" |};
     end_ := {| dateTime := date +:+ "T23:59:59+08:00"; timeZone := "Asia/Taipei" |};
     location := Some {| displayName := Some "台灣" |};
     showAs := free;
     isAllDay := true;
     userEmail := "holiday@taiwan";
     userName := "台灣節日" |}.

(** The table of the source. *)
Definition HOLIDAY_DEFINITIONS : list HolidayDefinition :=
  [ {| hd_subject := "元旦"; hd_date := "2024-01-01" |};
    {| hd_subject := "除夕"; hd_date := "2024-02-08" |};
    {| hd_subject := "春節假期"; hd_date := "2024-02-09" |};
    {| hd_subject := "春節"; hd_date := "2024-02-10" |};
    {| hd_subject := "春節假期"; hd_date := "2024-02-12" |};
    {| hd_subject := "春節假期"; hd_date := "2024-02-13" |};
    {| hd_subject := "春節補假"; hd_date := "2024-02-14" |};
    {| hd_subject := "和平紀念日"; hd_date := "2024-02-28" |};
    {| hd_subject := "兒童節"; hd_date := "2024-04-04" |};
    {| hd_subject := "清明節"; hd_date := "2024-04-05" |};
    {| hd_subject := "端午節"; hd_date := "2024-06-10" |};
    {| hd_subject := "中秋節"; hd_date := "2024-09-17" |};
    {| hd_subject := "國慶日"; hd_date := "2024-10-10" |};
    {| hd_subject := "元旦"; hd_date := "2025-01-01" |};
    {| hd_subject := "除夕"; hd_date := "2025-01-29" |};
    {| hd_subject := "春節假期"; hd_date := "2025-01-30" |};
    {| hd_subject := "春節"; hd_date := "2025-01-31" |};
    {| hd_subject := "春節假期"; hd_date := "2025-02-01" |};
    {| hd_subject := "春節補假"; hd_date := "2025-02-03" |};
    {| hd_subject := "和平紀念日"; hd_date := "2025-02-28" |};
    {| hd_subject := "兒童節"; hd_date := "2025-04-04" |};
    {| hd_subject := "清明節"; hd_date := "2025-04-05" |};
    {| hd_subject := "端午節"; hd_date := "2025-06-02" |};
    {| hd_subject := "中秋節"; hd_date := "2025-09-18" |};
    {| hd_subject := "國慶日"; hd_date := "2025-10-10" |};
    {| hd_subject := "元旦"; hd_date := "2026-01-01" |};
    {| hd_subject := "除夕"; hd_date := "2026-02-16" |};
    {| hd_subject := "春節假期"; hd_date := "2026-02-17" |};
    {| hd_subject := "春節"; hd_date := "2026-02-18" |};
    {| hd_subject := "春節假期"; hd_date := "2026-02-19" |};
    {| hd_subject := "春節補假"; hd_date := "2026-02-20" |};
    {| hd_subject := "和平紀念日"; hd_date := "2026-02-28" |};
    {| hd_subject := "兒童節"; hd_date := "2026-04-04" |};
    {| hd_subject := "清明節"; hd_date := "2026-04-05" |};
    {| hd_subject := "端午節"; hd_date := "2026-06-19" |};
    {| hd_subject := "中秋節"; hd_date := "2026-09-25" |};
    {| hd_subject := "國慶日"; hd_date := "2026-10-10" |};
    {| hd_subject := "元旦"; hd_date := "2027-01-01" |};
    {| hd_subject := "除夕"; hd_date := "2027-02-05" |};
    {| hd_subject := "春節假期"; hd_date := "2027-02-06" |};
    {| hd_subject := "春節"; hd_date := "2027-02-07" |};
    {| hd_subject := "春節假期"; hd_date := "2027-02-08" |};
    {| hd_subject := "春節補假"; hd_date := "2027-02-09" |};
    {| hd_subject := "和平紀念日"; hd_date := "2027-02-28" |};
    {| hd_subject := "兒童節"; hd_date := "2027-04-04" |};
    {| hd_subject := "清明節"; hd_date := "2027-04-05" |};
    {| hd_subject := "端午節"; hd_date := "2027-06-09" |};
    {| hd_subject := "中秋節"; hd_date := "2027-09-15" |};
    {| hd_subject := "國慶日"; hd_date := "2027-10-10" |} ].

Definition FALLBACK_TAIWAN_HOLIDAYS : list CalendarEvent :=
  map (fun item => createHoliday (hd_subject item) (hd_date item)) HOLIDAY_DEFINITIONS.

Definition TAIWAN_HOLIDAYS : list CalendarEvent := FALLBACK_TAIWAN_HOLIDAYS.

End Holidays.

(** ** Event conversion ([CalendarView.tsx], lines 132-294) *)
Module Normalizer.
Import JS Color Model.
Local Open Scope string_scope.

(** The props and state the [events] memo reads.  [calendars] lists the
    own entries of the [calendars] object in the order of [Object.entries];
    [colorOverrides] holds the own properties of that object.  Both objects
    inherit from [Object.prototype]. *)
Record Props : Type := {
  calendars : list (string * list CalendarEvent);
  users : list UserInfo;
  selectedUsers : list string;
  holidays : list CalendarEvent;
  showHolidays : bool;
  oncallEvents : list CalendarEvent;
  showOncall : bool;
  colorOverrides : gmap string string;
  selectedEventId : option string;
}.

(** A value read from a colour map: a string, or a member of
    [Object.prototype]. *)
Inductive ColorValue : Type :=
| Str (s : string)
| NotString.

(** [map[key] = value] on an object made by a literal.  The key
    [__proto__] is the accessor of the prototype: its setter ignores a
    string and, handed [Object.prototype], leaves the prototype as it is; no
    own property is made. *)
Definition assign (map : gmap string ColorValue) (key : string) (value : ColorValue)
  : gmap string ColorValue :=
  if String.eqb key "__proto__" then map else <[key := value]> map.

(** Lines 133-139: a later user with the same email overwrites an earlier
    one; [??] keeps an override that is the empty string, and keeps a member
    of [Object.prototype] that the read of the overrides finds. *)
Definition userColorMap (us : list UserInfo) (overrides : gmap string string)
  : gmap string ColorValue :=
  foldl (fun map u =>
           assign map (email u)
             match get overrides (email u) with
             | Own c => Str c
             | Inherited => NotString
             | Undefined => Str (color u)
             end) ∅ us.

(** [userColorMap[key] || fallback]. *)
Definition colorOr (map : gmap string ColorValue) (key fallback : string) : ColorValue :=
  match get map key with
  | Own (Str c) => Str (or_string c fallback)
  | Own NotString => NotString
  | Inherited => NotString
  | Undefined => Str fallback
  end.

(** The colour derivation of a display event starts from the base colour:
    [lightenColor(baseColor, ...)] for a past event and
    [getAdaptiveTextColor(backgroundColor, true)] for any other both call
    [hex.replace], which a value that is not a string does not have. *)
Definition withColor {A} (baseColor : ColorValue) (build : string -> A) : Completion A :=
  match baseColor with
  | Str c => Normal (build c)
  | NotString => TypeError
  end.

Definition personalEventId (email eid : string) : string := email +:+ "-" +:+ eid.
Definition holidayEventId (hid : string) : string := "holiday-" +:+ hid.
Definition oncallEventId (userEmail eid : string) : string := userEmail +:+ "-" +:+ eid.

(** [selectedEventId && selectedEventId === eventId]. *)
Definition isSelected (sel : option string) (eventId : string) : bool :=
  match sel with
  | Some s => negb (String.eqb s "") && String.eqb s eventId
  | None => false
  end.

Definition pushIf (b : bool) (name : string) (classNames : list string) : list string :=
  if b then (classNames ++ [name])%list else classNames.

Definition locationName (e : CalendarEvent) : option string :=
  l ← location e; displayName l.

Section Conversion.
(** The viewer's local offset (for date strings without one), the value of
    [Date.now()] and the props of the render. *)
Variable tz : Z.
Variable now : Z.
Variable p : Props.

Definition newDate (s : string) : Date := Date_parse tz s.

Definition colorMap : gmap string ColorValue := userColorMap (users p) (colorOverrides p).

(** Lines 156-193, the body of the inner [forEach], for a base colour that
    is a string. *)
Definition personalEvent (email userName baseColor : string) (event : CalendarEvent)
  : FullCalendarEvent :=
  let eventId := personalEventId email (id event) in
  let eventEnd := newDate (dateTime (end_ event)) in
  let isPast := time_lt eventEnd now in
  let backgroundColor := if isPast then lightenColor baseColor 0.88 else baseColor in
  let borderColor := if isPast then lightenColor baseColor 0.92 else baseColor in
  let textColor :=
    if isPast then "rgba(71, 85, 105, 0.65)"
    else getAdaptiveTextColor backgroundColor true in
  let classNames :=
    pushIf (isSelected (selectedEventId p) eventId) "fc-event-selected"
      (pushIf isPast "fc-event-past" ["fc-event-rounded"]) in
  {| fc_id := eventId;
     fc_title := subject event;
     fc_start := newDate (dateTime (start event));
     fc_end := newDate (dateTime (end_ event));
     fc_allDay := isAllDay event;
     fc_backgroundColor := backgroundColor;
     fc_borderColor := borderColor;
     fc_textColor := textColor;
     fc_classNames := classNames;
     fc_extendedProps :=
       {| ep_userEmail := email;
          ep_userName := userName;
          ep_showAs := showAs event;
          ep_location := locationName event;
          ep_originalSubject := subject event;
          ep_isHoliday := Some false;
          ep_isPast := Some isPast;
          ep_isOncall := None |} |}.

(** Lines 151-194, one entry of [filteredCalendars]: every event of the
    owner is pushed onto [allEvents]. *)
Definition pushCalendar (allEvents : list FullCalendarEvent)
    (entry : string * list CalendarEvent) : Completion (list FullCalendarEvent) :=
  let '(email, userEvents) := entry in
  let user := List.find (fun u => String.eqb (Model.email u) email) (users p) in
  let userName := or_undefined (user_displayName <$> user) (before_at email) in
  let baseColor := colorOr colorMap email "#3174ad" in
  forEach
    (fun acc event =>
       out ← withColor baseColor (fun c => personalEvent email userName c event);
       Normal (acc ++ [out])%list)
    userEvents allEvents.

(** Lines 198-236. *)
Definition holidayEvent (holiday : CalendarEvent) : FullCalendarEvent :=
  let holidayEnd := newDate (dateTime (end_ holiday)) in
  let isPastHoliday := time_lt holidayEnd now in
  let eventId := holidayEventId (id holiday) in
  let baseBg := "#C8E6C9" in
  let baseBorder := "#81C784" in
  let backgroundColor := if isPastHoliday then lightenColor baseBg 0.9 else baseBg in
  let borderColor := if isPastHoliday then lightenColor baseBorder 0.95 else baseBorder in
  let textColor :=
    if isPastHoliday then "rgba(30, 64, 45, 0.65)"
    else getAdaptiveTextColor backgroundColor false in
  let classNames :=
    pushIf (isSelected (selectedEventId p) eventId) "fc-event-selected"
      (pushIf isPastHoliday "fc-event-past" ["fc-event-holiday"; "fc-event-rounded"]) in
  {| fc_id := eventId;
     fc_title := subject holiday;
     fc_start := newDate (dateTime (start holiday));
     fc_end := newDate (dateTime (end_ holiday));
     fc_allDay := true;
     fc_backgroundColor := backgroundColor;
     fc_borderColor := borderColor;
     fc_textColor := textColor;
     fc_classNames := classNames;
     fc_extendedProps :=
       {| ep_userEmail := "holiday@taiwan";
          ep_userName := "台灣節日";
          ep_showAs := free;
          ep_location := None;
          ep_originalSubject := subject holiday;
          ep_isHoliday := Some true;
          ep_isPast := Some isPastHoliday;
          ep_isOncall := None |} |}.

(** Lines 242-279, the body of the third [forEach], for a base colour that
    is a string. *)
Definition oncallEvent (baseColor : string) (event : CalendarEvent) : FullCalendarEvent :=
  let eventEnd := newDate (dateTime (end_ event)) in
  let isPast := time_lt eventEnd now in
  let backgroundColor := if isPast then lightenColor baseColor 0.88 else baseColor in
  let borderColor := if isPast then lightenColor baseColor 0.92 else baseColor in
  let textColor :=
    if isPast then "rgba(71, 85, 105, 0.75)"
    else getAdaptiveTextColor backgroundColor true in
  let eventId := oncallEventId (userEmail event) (id event) in
  let classNames :=
    pushIf (isSelected (selectedEventId p) eventId) "fc-event-selected"
      (pushIf isPast "fc-event-past" ["fc-event-rounded"; "fc-event-oncall"]) in
  {| fc_id := eventId;
     fc_title := subject event;
     fc_start := newDate (dateTime (start event));
     fc_end := newDate (dateTime (end_ event));
     fc_allDay := true;
     fc_backgroundColor := backgroundColor;
     fc_borderColor := borderColor;
     fc_textColor := textColor;
     fc_classNames := classNames;
     fc_extendedProps :=
       {| ep_userEmail := userEmail event;
          ep_userName := Model.userName event;
          ep_showAs := showAs event;
          ep_location := locationName event;
          ep_originalSubject := subject event;
          ep_isHoliday := Some false;
          ep_isPast := Some isPast;
          ep_isOncall := Some true |} |}.

(** Lines 241-280, one on-call record. *)
Definition pushOncall (allEvents : list FullCalendarEvent) (event : CalendarEvent)
  : Completion (list FullCalendarEvent) :=
  let baseColor := colorOr colorMap (userEmail event) "#4f46e5" in
  out ← withColor baseColor (fun c => oncallEvent c event);
  Normal (allEvents ++ [out])%list.

Definition push {A} (f : A -> FullCalendarEvent) (allEvents : list FullCalendarEvent)
    (l : list A) : list FullCalendarEvent :=
  foldl (fun acc x => (acc ++ [f x])%list) allEvents l.

(** The [events] memo, lines 142-294: [allEvents] grows through the three
    passes and is returned, unless a pass throws. *)
Definition events : Completion (list FullCalendarEvent) :=
  let allEvents0 := [] in
  let filteredCalendars :=
    List.filter (fun entry => existsb (String.eqb (fst entry)) (selectedUsers p))
      (calendars p) in
  allEvents1 ← forEach pushCalendar filteredCalendars allEvents0;
  let allEvents2 :=
    if showHolidays p then push holidayEvent allEvents1 (holidays p) else allEvents1 in
  allEvents3 ←
    (if showOncall p && (0 <? length (oncallEvents p))%nat
     then forEach pushOncall (oncallEvents p) allEvents2 else Normal allEvents2);
  Normal allEvents3.

End Conversion.

(** *** Activation of an event (lines 313-365, 664)

    The call of [onEventClick] that an activation makes, if any. *)

(** [calendars[key]]. *)
Definition lookupCalendar (cals : list (string * list CalendarEvent)) (key : string)
  : Property (list CalendarEvent) :=
  match List.find (fun entry => String.eqb (fst entry) key) cals with
  | Some entry => Own (snd entry)
  | None => if inherited key then Inherited else Undefined
  end.

Definition truthy (b : option bool) : bool := default false b.

(** [calendars[userEmail]?.find(...)]: the optional chain stops at
    [undefined] only; a member of [Object.prototype] has no [find]. *)
Definition findInCalendar (cals : list (string * list CalendarEvent)) (userEmail : string)
    (eventId : string) : Completion (option CalendarEvent) :=
  match lookupCalendar cals userEmail with
  | Own userEvents =>
      Normal (List.find (fun e => String.eqb (userEmail +:+ "-" +:+ id e) eventId)
                userEvents)
  | Inherited => TypeError
  | Undefined => Normal None
  end.

Definition openEventDetail (hasOnEventClick : bool)
    (cals : list (string * list CalendarEvent)) (oncalls : list CalendarEvent)
    (eventApi : FullCalendarEvent) (anchor : option EventAnchorRect)
  : Completion (option (CalendarEvent * option EventAnchorRect)) :=
  if negb hasOnEventClick then Normal None
  else
    let userEmail := ep_userEmail (fc_extendedProps eventApi) in
    originalEvent1 ←
      (if negb (String.eqb userEmail "")
       then findInCalendar cals userEmail (fc_id eventApi)
       else Normal None);
    let originalEvent2 :=
      match originalEvent1 with
      | Some _ => originalEvent1
      | None =>
          if truthy (ep_isOncall (fc_extendedProps eventApi)) then
            List.find
              (fun event =>
                 String.eqb (Model.userEmail event +:+ "-" +:+ id event) (fc_id eventApi))
              oncalls
          else None
      end in
    match originalEvent2 with
    | Some originalEvent => Normal (Some (originalEvent, anchor))
    | None => Normal None
    end.

(** A click on an inline chip; [el] is the bounding rectangle of the chip
    when it has an element. *)
Definition handleEventClick (hasOnEventClick : bool)
    (cals : list (string * list CalendarEvent)) (oncalls : list CalendarEvent)
    (event : FullCalendarEvent) (el : option EventAnchorRect)
  : Completion (option (CalendarEvent * option EventAnchorRect)) :=
  if truthy (ep_isHoliday (fc_extendedProps event)) then Normal None
  else openEventDetail hasOnEventClick cals oncalls event el.

(** A click on an entry of the overflow popover (line 664). *)
Definition onEventSelect (hasOnEventClick : bool)
    (cals : list (string * list CalendarEvent)) (oncalls : list CalendarEvent)
    (eventApi : FullCalendarEvent) (anchor : EventAnchorRect)
  : Completion (option (CalendarEvent * option EventAnchorRect)) :=
  openEventDetail hasOnEventClick cals oncalls eventApi (Some anchor).

End Normalizer.

(** ** Numbers of the metrics and wheel code

    Measures are exact rationals.  [Math.round] is [floor(x + 1/2)],
    [a || b] falls back on zero. *)
Module Num.

Definition ltb (a b : Q) : bool := negb (Qle_bool b a).
Definition Math_max (a b : Q) : Q := if Qle_bool a b then b else a.
Definition Math_min (a b : Q) : Q := if Qle_bool a b then a else b.
Definition Math_round (x : Q) : Z := Qfloor (x + (1 # 2)).
Definition or_number (a b : Q) : Q := if Qeq_bool a 0 then b else a.

(** [Math.round(a / b)] for integers [a] and [b > 0]. *)
Definition round_div (a b : Z) : Z := (2 * a + b) / (2 * b).

End Num.

(** ** Popover placement ([CalendarView.tsx] 709-746,
       [EventDetailModal.tsx] 82-129)

    Every measure is a binary64 value and every sum and difference is
    rounded as the source rounds it. *)
Module Popover.
Import JS Model Binary64.
Local Open Scope float_scope.

Record Size : Type := {
  sz_width : float;
  sz_height : float;
}.

(** The two results of [Math.round]. *)
Record Position : Type := {
  pos_left : integral;
  pos_top : integral;
}.

Definition viewportPadding : float := 16.
Definition offset : float := 12.

(** [computePosition] of [CustomMorePopover]; [popRect] is the bounding
    rectangle of the popover element when the ref is set. *)
Definition computePosition (anchorRect : EventAnchorRect) (popRect : option Size)
    (innerWidth innerHeight : float) : Position :=
  match popRect with
  | None =>
      {| pos_left := Math_round (left anchorRect);
         pos_top := Math_round (top anchorRect) |}
  | Some popRect =>
      let left0 := right anchorRect + offset in
      let left1 :=
        if innerWidth <? left0 + sz_width popRect + viewportPadding
        then left anchorRect - sz_width popRect - offset else left0 in
      let left2 := if left1 <? viewportPadding then viewportPadding else left1 in
      let top0 := top anchorRect in
      let top1 :=
        if innerHeight <? top0 + sz_height popRect + viewportPadding
        then Math_max viewportPadding (bottom anchorRect - sz_height popRect - offset)
        else top0 in
      let top2 := if top1 <? viewportPadding then viewportPadding else top1 in
      {| pos_left := Math_round left2; pos_top := Math_round top2 |}
  end.

(** The style object of [EventDetailModal]. *)
Inductive Style : Type :=
| NoStyle
| Centered
| At (top left : float).

Definition gap : float := 12.

Definition positionStyle (hasEvent : bool) (anchorRect : option EventAnchorRect)
    (cardSize : Size) (viewportWidth viewportHeight : float) : Style :=
  if negb hasEvent then NoStyle
  else
    match anchorRect with
    | None => Centered
    | Some anchorRect =>
        let width := or_number (sz_width cardSize) 360 in
        let height := or_number (sz_height cardSize) 320 in
        let roomRight := viewportWidth - right anchorRect - viewportPadding in
        let roomLeft := left anchorRect - viewportPadding in
        let canFitRight := width + gap <=? roomRight in
        let canFitLeft := width + gap <=? roomLeft in
        let left0 :=
          if (canFitRight || (negb canFitLeft && (roomLeft <=? roomRight)))%bool
          then right anchorRect + gap
          else left anchorRect - width - gap in
        let left1 :=
          if left0 <? viewportPadding then viewportPadding
          else if viewportWidth <? left0 + width + viewportPadding
               then viewportWidth - width - viewportPadding
               else left0 in
        let top0 := top anchorRect in
        let top1 :=
          if viewportHeight <? top0 + height + viewportPadding
          then viewportHeight - height - viewportPadding else top0 in
        let top2 := if top1 <? viewportPadding then viewportPadding else top1 in
        At top2 left1
    end.

(** The box a popover of the given size occupies lies inside the viewport
    shrunk by [padding] on every side. *)
Definition inside (padding left top width height viewportWidth viewportHeight : Q) : Prop :=
  (padding <= left /\ left + width <= viewportWidth - padding /\
   padding <= top /\ top + height <= viewportHeight - padding)%Q.

(** The binary64 sum, or difference, is a number and carries no rounding. *)
Definition exactSum (a b : float) : Prop :=
  is_finite (a + b) = true /\ (toQ (a + b) == toQ a + toQ b)%Q.

Definition exactDifference (a b : float) : Prop :=
  is_finite (a - b) = true /\ (toQ (a - b) == toQ a - toQ b)%Q.

(** The measures [positionStyle] reads are numbers, and the sums and
    differences it forms on the way to [left] and [top] carry no rounding:
    for either side of the anchor the candidate [left] is a number and the
    right edge with its padding is exact, and so are the clamped [left], the
    bottom edge with its padding and the clamped [top]. *)
Definition cardArithmeticExact (anchorRect : EventAnchorRect) (cardSize : Size)
    (viewportWidth viewportHeight : float) : Prop :=
  let width := or_number (sz_width cardSize) 360 in
  let height := or_number (sz_height cardSize) 320 in
  is_finite width = true /\ is_finite height = true
  /\ is_finite viewportWidth = true /\ is_finite viewportHeight = true
  /\ is_finite (top anchorRect) = true
  /\ (forall x, x = right anchorRect + gap \/ x = left anchorRect - width - gap ->
       is_finite x = true /\ exactSum x width /\ exactSum (x + width) viewportPadding)
  /\ exactDifference viewportWidth width
  /\ exactDifference (viewportWidth - width) viewportPadding
  /\ exactSum (top anchorRect) height
  /\ exactSum (top anchorRect + height) viewportPadding
  /\ exactDifference viewportHeight height
  /\ exactDifference (viewportHeight - height) viewportPadding.

(** The sums and differences by which [positionStyle] chooses the side of
    the anchor carry no rounding: the room on either side, the width with
    the gap, and the candidate [left] on either side. *)
Definition sideArithmeticExact (anchorRect : EventAnchorRect) (cardSize : Size)
    (viewportWidth : float) : Prop :=
  let width := or_number (sz_width cardSize) 360 in
  is_finite (left anchorRect) = true /\ is_finite (right anchorRect) = true
  /\ exactSum width gap
  /\ exactDifference viewportWidth (right anchorRect)
  /\ exactDifference (viewportWidth - right anchorRect) viewportPadding
  /\ exactDifference (left anchorRect) viewportPadding
  /\ exactSum (right anchorRect) gap
  /\ exactDifference (left anchorRect) width
  /\ exactDifference (left anchorRect - width) gap.

(** The same for [computePosition] with a measured popover. *)
Definition popoverArithmeticExact (anchorRect : EventAnchorRect) (popRect : Size)
    (innerWidth innerHeight : float) : Prop :=
  let width := sz_width popRect in
  let height := sz_height popRect in
  is_finite width = true /\ is_finite height = true
  /\ is_finite innerWidth = true /\ is_finite innerHeight = true
  /\ is_finite (top anchorRect) = true /\ is_finite (left anchorRect) = true
  /\ is_finite (bottom anchorRect) = true
  /\ is_finite (right anchorRect + offset) = true
  /\ exactSum (right anchorRect + offset) width
  /\ exactSum (right anchorRect + offset + width) viewportPadding
  /\ exactDifference (left anchorRect) width
  /\ exactDifference (left anchorRect - width) offset
  /\ exactSum (top anchorRect) height
  /\ exactSum (top anchorRect + height) viewportPadding
  /\ exactDifference (bottom anchorRect) height
  /\ exactDifference (bottom anchorRect - height) offset.

End Popover.

(** ** Month-view metrics ([CalendarView.tsx] 129-130, 296-311, 486-541, 604) *)
Module Metrics.
Import Model Num.

Definition MS_PER_DAY : Z := 24 * 60 * 60 * 1000.

(** Lines 306-308: the row count [handleDatesSet] stores for a month view
    whose active range is [start, end) in milliseconds. *)
Definition rowsOfRange (start end_ : Z) : Z :=
  let activeDays := Z.max 1 (round_div (end_ - start) MS_PER_DAY) in
  Z.max 1 (round_div activeDays 7).

Definition clampHeight (value : Q) : Q := Math_max 48 (Math_min value 120).

Definition chromeOffset : Q := 64.

(** The component state the metrics code touches, and the custom property
    [--calendar-day-frame-min-height] of the container (in px). *)
Record State : Type := {
  monthWeekRowCount : Z;
  calendarViewportHeight : option Q;
  dayFrameMinHeight : option Z;
}.

(** The value [updateMetrics] publishes for a row count and a height. *)
Definition dayFrameHeight (rowCount : Z) (measuredHeight : Q) : Z :=
  let rowCount := if rowCount =? 0 then 6 else rowCount in
  let rawHeight := ((measuredHeight - chromeOffset) / inject_Z rowCount)%Q in
  Math_round (clampHeight rawHeight).

(** [updateMetrics] of lines 494-505; [closureRowCount] is the value of
    [monthWeekRowCount] that the closure holds. *)
Definition updateMetrics (closureRowCount : Z) (measuredHeight : Q) (st : State) : State :=
  if Qeq_bool measuredHeight 0 then st
  else
    {| monthWeekRowCount := monthWeekRowCount st;
       calendarViewportHeight := Some measuredHeight;
       dayFrameMinHeight := Some (dayFrameHeight closureRowCount measuredHeight) |}.

(** Line 604. [None] is [false]: no limit. *)
Definition dayMaxEvents (view : ViewType) : option Z :=
  match view with
  | dayGridMonth => Some 2
  | _ => None
  end.

(** The mounted component: its state and the row count captured by the
    effect of lines 486-541.  The effect has an empty dependency list, so
    it runs once and its [updateMetrics] keeps the row count of the first
    render. *)
Record Mounted : Type := {
  state : State;
  effectRowCount : Z;
}.

Definition initialState : State :=
  {| monthWeekRowCount := 6; calendarViewportHeight := None; dayFrameMinHeight := None |}.

(** First render, then the effect: [updateMetrics()] with the measured
    height of the host. *)
Definition mount (hostHeight : Q) : Mounted :=
  let captured := monthWeekRowCount initialState in
  {| state := updateMetrics captured hostHeight initialState;
     effectRowCount := captured |}.

Inductive Trigger : Type :=
| DatesSet (view : ViewType) (start end_ : Z)
| Resize (height : Q).

Definition step (m : Mounted) (t : Trigger) : Mounted :=
  match t with
  | DatesSet view start end_ =>
      match view with
      | dayGridMonth =>
          {| state :=
               {| monthWeekRowCount := rowsOfRange start end_;
                  calendarViewportHeight := calendarViewportHeight (state m);
                  dayFrameMinHeight := dayFrameMinHeight (state m) |};
             effectRowCount := effectRowCount m |}
      | _ => m
      end
  | Resize height =>
      {| state := updateMetrics (effectRowCount m) height (state m);
         effectRowCount := effectRowCount m |}
  end.

Definition run (hostHeight : Q) (ts : list Trigger) : Mounted :=
  foldl step (mount hostHeight) ts.

End Metrics.

(** ** The day grid

    The grid itself is the FullCalendar component, which is not part of the
    repository.  [CalendarView] mounts it (lines 564-658) without a
    [timeZone] option, so it reads every [Date] in the viewer's local time;
    an all-day event covers the local days from the day of its start up to,
    not including, the day of its end, and one day when the end is not
    later than the start or is invalid.  An event with an invalid start is
    not drawn. *)
Module Grid.
Import JS Model.

(** The local day number of a time value for a viewer [tz] minutes east of
    UTC. *)
Definition localDay (tz : Z) (t : Z) : Z := (t + tz * 60000) / msPerDay.

Fixpoint daysFrom (first : Z) (n : nat) : list Z :=
  match n with
  | O => []
  | S n' => first :: daysFrom (first + 1) n'
  end.

Definition allDayCells (tz : Z) (e : FullCalendarEvent) : list Z :=
  match fc_start e with
  | None => []
  | Some s =>
      let first := localDay tz s in
      let last :=
        match fc_end e with
        | Some t => if localDay tz t <=? first then first + 1 else localDay tz t
        | None => first + 1
        end in
      daysFrom first (Z.to_nat (last - first))
  end.

End Grid.

(** ** Holidays of the sidebar ([App.tsx], lines 221-229) *)
Module Sidebar.
Import JS Model.

(** [new Date(year, monthIndex, date)] for a year of four digits: local
    midnight of that day, for a viewer [tz] minutes east of UTC.  A month
    index of 12 is January of the next year and a date of 0 is the last day
    of the month before. *)
Definition newDateLocal (tz year monthIndex date : Z) : Z :=
  let ym := year + monthIndex / 12 in
  let mn := monthIndex mod 12 in
  (dayFromYear ym + daysBeforeMonth ym (mn + 1) + (date - 1)) * msPerDay - tz * 60000.

(** [anchorYear] and [anchorMonth] are [viewAnchorDate.getFullYear()] and
    [viewAnchorDate.getMonth()]. *)
Definition sidebarHolidays (tz anchorYear anchorMonth : Z)
    (holidays : list CalendarEvent) : list CalendarEvent :=
  let monthStart := newDateLocal tz anchorYear anchorMonth 1 in
  let monthEnd := newDateLocal tz anchorYear (anchorMonth + 1) 0 in
  List.filter
    (fun holiday =>
       match Date_parse tz (dateTime (start holiday)) with
       | Some date => (monthStart <=? date) && (date <=? monthEnd)
       | None => false
       end)
    holidays.

End Sidebar.

(** ** Reference notions used in the statements *)
Module Ref.
Import JS.
Local Open Scope string_scope.

(** Two radix-16 digits read as a number. *)
Definition hexPair (c1 c2 : ascii) : option Z :=
  d1 ← hexDigitValue c1; d2 ← hexDigitValue c2; Some (16 * d1 + d2).

(** The channels of a string of exactly six radix-16 digits. *)
Definition rgbOfHex6 (s : string) : option (Z * Z * Z) :=
  match s with
  | String c1 (String c2 (String c3 (String c4 (String c5 (String c6 EmptyString))))) =>
      r ← hexPair c1 c2; g ← hexPair c3 c4; b ← hexPair c5 c6; Some (r, g, b)
  | _ => None
  end.

(** [c.toLowerCase()] on the letters A..Z. *)
Definition lowerChar (c : ascii) : ascii :=
  let n := N_of_ascii c in
  if (N.leb 65 n && N.leb n 90)%bool then ascii_of_N (n + 32) else c.

Fixpoint toLowerCase (s : string) : string :=
  match s with
  | EmptyString => EmptyString
  | String c s' => String (lowerChar c) (toLowerCase s')
  end.

(** The first character that [parseInt] would read as a digit: after white
    space, a sign and a [0x] prefix. *)
Definition leadingDigit (s : string) : option Z :=
  match strip0x (snd (stripSign (trimStart s))) with
  | String c _ => hexDigitValue c
  | EmptyString => None
  end.

(** *** Exact thresholds

    The colours whose exact weighted sum is 0.75 while the binary64 sum is
    below it. *)
Definition boundaryColors : list (Z * Z * Z) :=
  [(35, 246, 109); (69, 226, 207); (117, 219, 135); (182, 202, 112);
   (199, 192, 161); (230, 195, 40); (247, 185, 89)]%Z.

Definition isBoundaryColor (R G B : Z) : bool :=
  existsb (fun '(x, y, z) => (R =? x)%Z && (G =? y)%Z && (B =? z)%Z) boundaryColors.

(** [f i && f (i+1) && ... && f (i+n-1)] on machine integers. *)
Fixpoint upto (n : nat) (i : int) (f : int -> bool) : bool :=
  match n with
  | O => true
  | S n' => f i && upto n' (i + 1)%uint63 f
  end.

(** The two comparisons of the binary64 luminance agree with the
    comparisons of the exact sum 2126 R + 7152 G + 722 B with
    0.5 * 2550000 and 0.75 * 2550000, up to the boundary colours. *)
Definition thresholdsAgree (r g b : int) : bool :=
  let luminance :=
    Color.relativeLuminance (PrimFloat.of_uint63 r / 255) (PrimFloat.of_uint63 g / 255)
      (PrimFloat.of_uint63 b / 255) in
  let weighted := (2126 * r + 7152 * g + 722 * b)%uint63 in
  Bool.eqb (PrimFloat.ltb 0.5 luminance) (1275000 <? weighted)%uint63
  && Bool.eqb (PrimFloat.ltb luminance 0.75)
       (if (weighted <? 1912500)%uint63 then true
        else if (weighted =? 1912500)%uint63
             then isBoundaryColor (Uint63.to_Z r) (Uint63.to_Z g) (Uint63.to_Z b)
             else false).

(** The binary64 values [mixChannel] starts from: the channel [c] is the
    number [m * 2^e] with [e < 0], or [+0], and [255 - c] is [+0] or a
    positive number. *)
Definition channelNumbers (c : Z) : bool :=
  match Prim2SF (float_of_Z c) with
  | S754_zero false => (c =? 0)%Z
  | S754_finite false m e => ((e <? 0) && (Z.pos m =? c * 2 ^ (- e)))%Z
  | _ => false
  end
  && match Prim2SF (255 - float_of_Z c) with
     | S754_zero false | S754_finite false _ _ => true
     | _ => false
     end.

(** A number that is an integer between [lo] and [hi]. *)
Definition isInt (n : integral) (lo hi : Z) : bool :=
  match n with
  | Int v => (lo <=? v)%Z && (v <=? hi)%Z
  | _ => false
  end.

(** The ratios that occur in the source: the default of [lightenColor] and
    the arguments at its call sites. *)
Definition sourceRatios : list float := [0.8; 0.88; 0.92; 0.9; 0.95]%float.

Section Passes.
Import Model Normalizer.
Variable tz : Z.
Variable now : Z.
Variable p : Props.

(** The owner name and base colour of lines 152-154, and the base colour
    of line 244. *)
Definition ownerName (email : string) : string :=
  or_undefined
    (user_displayName <$> List.find (fun u => String.eqb (Model.email u) email) (users p))
    (before_at email).

Definition ownerColor (email : string) : ColorValue :=
  colorOr (colorMap p) email "#3174ad".

Definition oncallColor (event : CalendarEvent) : ColorValue :=
  colorOr (colorMap p) (userEmail event) "#4f46e5".

Definition isSelectedOwner (entry : string * list CalendarEvent) : bool :=
  existsb (String.eqb (fst entry)) (selectedUsers p).

(** The results of a list of steps, one after the other. *)
Fixpoint collect {A B : Type} (f : A -> Completion (list B)) (l : list A)
  : Completion (list B) :=
  match l with
  | [] => Normal []
  | x :: l' => r ← f x; rs ← collect f l'; Normal (r ++ rs)%list
  end.

(** The display events of one owner, of the holidays and of the on-call
    records, written as maps over the source records. *)
Definition ownerEvents (entry : string * list CalendarEvent)
  : Completion (list FullCalendarEvent) :=
  match snd entry with
  | [] => Normal []
  | _ :: _ =>
      withColor (ownerColor (fst entry))
        (fun c => map (personalEvent tz now p (fst entry) (ownerName (fst entry)) c)
                    (snd entry))
  end.

Definition holidayPass : list FullCalendarEvent :=
  if showHolidays p then map (holidayEvent tz now p) (holidays p) else [].

Definition oncallDisplay (event : CalendarEvent) : Completion (list FullCalendarEvent) :=
  withColor (oncallColor event) (fun c => [oncallEvent tz now p c event]).

Definition oncallPass : Completion (list FullCalendarEvent) :=
  if showOncall p then collect oncallDisplay (oncallEvents p) else Normal [].

(** The source records that are to be displayed, each with the identifier
    of its display event, in the order of the three passes. *)
Definition sourceRecords : list (string * CalendarEvent) :=
  (concat (map (fun entry => map (fun e => (personalEventId (fst entry) (id e), e))
                               (snd entry))
             (List.filter isSelectedOwner (calendars p)))
   ++ (if showHolidays p
       then map (fun h => (holidayEventId (id h), h)) (holidays p) else [])
   ++ (if showOncall p
       then map (fun e => (oncallEventId (userEmail e) (id e), e)) (oncallEvents p)
       else []))%list.

(** The colour lookup under [key] finds a member of [Object.prototype]:
    [key] is a property name of [Object.prototype] and the colour map owns
    no string under it, as [key] is [__proto__], or no user has that email,
    or the overrides own nothing under it. *)
Definition findsPrototypeMember (key : string) : Prop :=
  inherited key = true
  /\ (key = "__proto__" \/ ~ In key (map Model.email (users p))
      \/ colorOverrides p !! key = None).

(** The colour lookup of a pass finds a member of [Object.prototype]: for
    a selected owner that has records, or for an on-call record while
    on-call is shown. *)
Definition colorLookupFails : Prop :=
  (exists entry, In entry (calendars p) /\ In (fst entry) (selectedUsers p)
                 /\ snd entry <> [] /\ findsPrototypeMember (fst entry))
  \/ (showOncall p = true
      /\ exists event, In event (oncallEvents p)
                       /\ findsPrototypeMember (userEmail event)).

End Passes.

(** The display event [out] stands for the record [source]: it has the
    given identifier and the parsed start and end of the record, and it is
    not marked as past when its end is an Invalid Date. *)
Definition carries (tz : Z) (out : Model.FullCalendarEvent) (eventId : string)
    (source : Model.CalendarEvent) : Prop :=
  Model.fc_id out = eventId
  /\ Model.fc_start out = Date_parse tz (Model.dateTime (Model.start source))
  /\ Model.fc_end out = Date_parse tz (Model.dateTime (Model.end_ source)).

End Ref.

(** ** Sample inputs *)
Module Samples.
Import Model Holidays Normalizer Popover Metrics.
Local Open Scope string_scope.

Definition sampleEvent (i d : string) : CalendarEvent :=
  {| id := i; subject := "standup";
     start := {| dateTime := d; timeZone := "UTC" |};
     end_ := {| dateTime := d; timeZone := "UTC" |};
     location := None; showAs := busy; isAllDay := false;
     userEmail := "a@x.tw"; userName := "A" |}.

Definition validEvent : CalendarEvent := sampleEvent "1" "2024-01-01T10:00:00Z".
Definition brokenEvent : CalendarEvent := sampleEvent "2" "not-a-date".
Definition newYear2024 : CalendarEvent := createHoliday "元旦" "2024-01-01".

(** A batch with one well-formed record and one whose dates do not parse. *)
Definition sampleProps : Props :=
  {| calendars := [("a@x.tw", [validEvent; brokenEvent])];
     users := []; selectedUsers := ["a@x.tw"];
     holidays := [newYear2024]; showHolidays := true;
     oncallEvents := []; showOncall := true;
     colorOverrides := ∅; selectedEventId := None |}.

(** A batch whose one owner has the key [constructor], and no user list. *)
Definition prototypeKeyProps : Props :=
  {| calendars := [("constructor", [validEvent])];
     users := []; selectedUsers := ["constructor"];
     holidays := []; showHolidays := false;
     oncallEvents := []; showOncall := false;
     colorOverrides := ∅; selectedEventId := None |}.

Definition validDisplayEvent : FullCalendarEvent :=
  personalEvent 480 0 sampleProps "a@x.tw" "a" "#3174ad" validEvent.

Definition newYearDisplayEvent (tz : Z) : FullCalendarEvent :=
  holidayEvent tz 0 sampleProps newYear2024.

(** A day cell flush against the bottom edge of a 1000 x 800 viewport. *)
Definition bottomCell : EventAnchorRect :=
  {| top := 700; left := 100; right := 200; bottom := 800; width := 100; height := 100 |}.

(** A chip whose right edge is at 611.5. *)
Definition fractionalChip : EventAnchorRect :=
  {| top := 100; left := 511.5; right := 611.5; bottom := 120;
     width := 100; height := 20 |}.

(** A chip whose right edge is at 672 + 2^-43. *)
Definition roundedChip : EventAnchorRect :=
  {| top := 100; left := 100; right := 0x1.5000000000001p+9; bottom := 120;
     width := 0x1.1e00000000001p+9; height := 20 |}.

(** A chip whose right edge is at 500.5 - 2^-44. *)
Definition halfPixelChip : EventAnchorRect :=
  {| top := 100; left := 300; right := 0x1.f47ffffffffffp+8; bottom := 120;
     width := 0x1.90ffffffffffep+7; height := 20 |}.

Definition popoverButton : EventAnchorRect :=
  {| top := 0; left := 0; right := 0; bottom := 0; width := 0; height := 0 |}.

(** The month changes to five rows, then the host is resized to 664. *)
Definition fiveRowsThenResize : Mounted :=
  run 800 [DatesSet dayGridMonth 0 (35 * MS_PER_DAY); Resize 664].

End Samples.

(* ===================================================================== *)
(** * Further definitions: controls, application state, service worker *)
(* ===================================================================== *)

(** ** String methods used by the search and the shortcuts *)
Module Text.
Import JS.

(** [c.toLowerCase()] on the code units 0..255: the letters A..Z and the
    Latin-1 capitals U+00C0..U+00DE other than the multiplication sign. *)
Definition toLowerCaseChar (c : ascii) : ascii :=
  let n := N_of_ascii c in
  if ((N.leb 65 n && N.leb n 90)
      || (N.leb 192 n && N.leb n 222 && negb (N.eqb n 215)))%bool
  then ascii_of_N (n + 32) else c.

Fixpoint toLowerCase (s : string) : string :=
  match s with
  | EmptyString => EmptyString
  | String c s' => String (toLowerCaseChar c) (toLowerCase s')
  end.

Fixpoint trimEnd (s : string) : string :=
  match s with
  | EmptyString => EmptyString
  | String c s' =>
      let t := trimEnd s' in
      if String.eqb t "" && isStrWhiteSpaceChar c then EmptyString else String c t
  end.

(** [s.trim()]. *)
Definition trim (s : string) : string := trimEnd (trimStart s).

(** [s.includes(t)]. *)
Fixpoint includes (s t : string) : bool :=
  String.prefix t s
  || match s with
     | String _ s' => includes s' t
     | EmptyString => false
     end.

End Text.

(** ** Wheel navigation and weekday labels ([CalendarView.tsx] 402-484) *)
Module Controls.
Import Model Num.

Inductive Navigation : Type := NavNext | NavPrev.

Record WheelEvent : Type := {
  wheel_ctrlKey : bool;
  deltaX : Q;
  deltaY : Q;
}.

Definition Math_abs (x : Q) : Q := if ltb x 0 then (- x)%Q else x.

(** [handleWheel] of lines 467-480: the call made on the calendar API, if
    any; [view] is the view type of the API when there is one. *)
Definition handleWheel (view : option ViewType) (event : WheelEvent) : option Navigation :=
  match view with
  | Some dayGridMonth =>
      if wheel_ctrlKey event then None
      else
        let primaryAxis := Qle_bool (Math_abs (deltaX event)) (Math_abs (deltaY event)) in
        if negb primaryAxis || ltb (Math_abs (deltaY event)) 30 then None
        else if ltb 0 (deltaY event) then Some NavNext else Some NavPrev
  | _ => None
  end.

Definition millisecondsInDay : Z := 24 * 60 * 60 * 1000.

(** Lines 419-424 of [renderDayCell]: whether a month-view cell carries
    the weekday label; [date] and [viewStart] are time values. *)
Definition showWeekday (date viewStart : Z) : bool :=
  let daysFromViewStart := (date - viewStart) / millisecondsInDay in
  (0 <=? daysFromViewStart) && (daysFromViewStart <? 7).

End Controls.

(** ** Search ([App.tsx] 242-267) *)
Module Search.
Import JS Model Text.
Local Open Scope string_scope.

Definition ownerNameLower (users : list UserInfo) (email : string) : string :=
  match List.find (fun u => String.eqb (Model.email u) email) users with
  | Some user => or_string (toLowerCase (user_displayName user)) ""
  | None => ""
  end.

Definition matchesTerm (userName term : string) (event : CalendarEvent) : bool :=
  let matchSubject := includes (toLowerCase (subject event)) term in
  let matchUser := includes userName term in
  let matchLocation :=
    match location event with
    | Some l =>
        match displayName l with
        | Some d => includes (toLowerCase d) term
        | None => false
        end
    | None => false
    end in
  matchSubject || matchUser || matchLocation.

(** One step of the [forEach]: an owner is entered only if one of the
    owner's events matches.  [filtered[email] = matchedEvents] with the key
    [__proto__] calls the accessor of the prototype and makes no own
    property, so that entry is not among the entries of the result. *)
Definition addMatches (users : list UserInfo) (term : string)
    (filtered : list (string * list CalendarEvent)) (entry : string * list CalendarEvent)
  : list (string * list CalendarEvent) :=
  let '(email, events) := entry in
  let userName := ownerNameLower users email in
  let matchedEvents := List.filter (matchesTerm userName term) events in
  if (0 <? length matchedEvents)%nat then
    if String.eqb email "__proto__" then filtered
    else (filtered ++ [(email, matchedEvents)])%list
  else filtered.

(** [calendars] is [calendarData?.calendars]: its entries in the order of
    [Object.entries], with distinct keys. *)
Definition filteredCalendars (calendars : option (list (string * list CalendarEvent)))
    (users : list UserInfo) (searchTerm : string) : list (string * list CalendarEvent) :=
  match calendars with
  | None => []
  | Some cals =>
      if String.eqb (trim searchTerm) "" then cals
      else
        let term := trim (toLowerCase searchTerm) in
        foldl (addMatches users term) [] cals
  end.

End Search.

(** ** Selection of owners ([App.tsx] 131-146, [UserSelector.tsx] 50-71,
       [AvailabilityFinder.tsx] 62-75) *)
Module Selection.
Import Model.

(** The effect of lines 132-141: the next value of [selectedUsers]. *)
Definition syncSelection (users : list UserInfo) (hasUserSelectionInitialized : bool)
    (prev : list string) : list string :=
  if (length users =? 0)%nat then prev
  else if negb hasUserSelectionInitialized then map email users
  else List.filter (fun e => existsb (fun u => String.eqb (email u) e) users) prev.

(** [toggleUser]: the list handed to [onSelectionChange]. *)
Definition toggleUser (selectedUsers : list string) (e : string) : list string :=
  if existsb (String.eqb e) selectedUsers
  then List.filter (fun x => negb (String.eqb x e)) selectedUsers
  else (selectedUsers ++ [e])%list.

(** [toggleAll]; [isAllSelected] compares the two lengths. *)
Definition toggleAll (users : list UserInfo) (selectedUsers : list string) : list string :=
  if (length selectedUsers =? length users)%nat then [] else map email users.

(** [handleEventClick] of [App.tsx] 161-166: the key kept as
    [selectedEventKey], which [CalendarView] receives as [selectedEventId]. *)
Definition selectedEventKey (event : CalendarEvent) : string :=
  userEmail event +:+ "-" +:+ id event.

End Selection.

(** ** Stored display preferences ([App.tsx] 44-57, 86-92, 193-205) *)
Module Preferences.
Import JS.
Local Open Scope string_scope.

Record Prefs : Type := {
  pref_showLunar : bool;
  pref_showOncall : bool;
  pref_themeMode : string;
}.

(** [String(b)]. *)
Definition String_of_bool (b : bool) : string := if b then "true" else "false".

(** [localStorage.getItem(key) !== 'false']; a missing key is [null]. *)
Definition loadFlag (storage : gmap string string) (key : string) : bool :=
  match storage !! key with
  | Some saved => negb (String.eqb saved "false")
  | None => true
  end.

(** The three initial states read from the storage. *)
Definition loadPrefs (storage : gmap string string) : Prefs :=
  {| pref_showLunar := loadFlag storage "fas-calendar:show-lunar";
     pref_showOncall := loadFlag storage "fas-calendar:show-oncall";
     pref_themeMode := or_undefined (storage !! "fas-calendar:theme") "system" |}.

(** The three effects that write the state back. *)
Definition savePrefs (p : Prefs) (storage : gmap string string) : gmap string string :=
  <["fas-calendar:theme" := pref_themeMode p]>
    (<["fas-calendar:show-oncall" := String_of_bool (pref_showOncall p)]>
       (<["fas-calendar:show-lunar" := String_of_bool (pref_showLunar p)]> storage)).

(** [applyTheme]: whether the root element carries the class [dark]. *)
Definition darkClass (mode : string) (prefersDark : bool) : bool :=
  if String.eqb mode "system" then prefersDark else String.eqb mode "dark".

End Preferences.

(** ** Keyboard shortcuts ([hooks/useKeyboardShortcuts.ts]) *)
Module Shortcuts.
Import Model Text.
Local Open Scope string_scope.

Record KeyEvent : Type := {
  targetTag : string;
  isContentEditable : bool;
  key : string;
  ctrlKey : bool;
  metaKey : bool;
  altKey : bool;
}.

(** Which of the optional collaborators exist. *)
Record Options : Type := {
  hasCalendarApi : bool;
  hasToggleSidebar : bool;
  hasOpenAvailabilityFinder : bool;
  hasSearchInput : bool;
}.

Inductive Effect : Type :=
| Blur
| Today
| ChangeView (view : ViewType)
| Prev
| Next
| ToggleSidebar
| OpenAvailabilityFinder
| FocusSearch.

(** What one key press does: whether [preventDefault] is called and the
    call that is made. *)
Record Handled : Type := {
  prevented : bool;
  effect : option Effect;
}.

Definition ignored : Handled := {| prevented := false; effect := None |}.

Definition act (available : bool) (e : Effect) : Handled :=
  {| prevented := true; effect := if available then Some e else None |}.

Definition handleKeyDown (o : Options) (event : KeyEvent) : Handled :=
  if String.eqb (targetTag event) "INPUT" || String.eqb (targetTag event) "TEXTAREA"
     || isContentEditable event
  then {| prevented := false;
          effect := if String.eqb (key event) "Escape" then Some Blur else None |}
  else if ctrlKey event || metaKey event || altKey event then ignored
  else
    let k := toLowerCase (key event) in
    if String.eqb k "t" then act (hasCalendarApi o) Today
    else if String.eqb k "m" then act true (ChangeView dayGridMonth)
    else if String.eqb k "w" then act true (ChangeView timeGridWeek)
    else if String.eqb k "d" then act true (ChangeView timeGridDay)
    else if String.eqb k "a" then act true (ChangeView listWeek)
    else if String.eqb k "arrowleft" then act (hasCalendarApi o) Prev
    else if String.eqb k "arrowright" then act (hasCalendarApi o) Next
    else if String.eqb k "[" then act (hasToggleSidebar o) ToggleSidebar
    else if String.eqb k "f" then act (hasOpenAvailabilityFinder o) OpenAvailabilityFinder
    else if String.eqb k "/" then act (hasSearchInput o) FocusSearch
    else ignored.

End Shortcuts.

(** ** Service worker ([public/sw.js])

    The cache storage is the list of its caches in the order of their
    creation, each a map from URL to response; [caches.match] answers from
    the first cache that has the URL.  A write to the cache is taken to be
    complete before the next event is handled. *)
Module ServiceWorker.
Import Text.
Local Open Scope string_scope.

Record Request : Type := {
  method : string;
  url : string;
  mode : string;
}.

Record Response : Type := {
  status : Z;
  statusText : string;
  body : string;
}.

Definition CACHE_NAME : string := "fas-calendar-v1".

(** [caches.open(name)] followed by [cache.put(url, response)]: a missing
    cache is created last. *)
Fixpoint put (storage : list (string * gmap string Response)) (name u : string)
    (r : Response) : list (string * gmap string Response) :=
  match storage with
  | [] => [(name, {[ u := r ]})]
  | (n, c) :: rest =>
      if String.eqb n name then (n, <[u := r]> c) :: rest
      else (n, c) :: put rest name u r
  end.

(** [caches.match(url)]. *)
Fixpoint cachesMatch (storage : list (string * gmap string Response)) (u : string)
  : option Response :=
  match storage with
  | [] => None
  | (_, c) :: rest =>
      match c !! u with
      | Some r => Some r
      | None => cachesMatch rest u
      end
  end.

(** The [activate] handler: every cache but the current one is deleted. *)
Definition activate (storage : list (string * gmap string Response))
  : list (string * gmap string Response) :=
  List.filter (fun entry => String.eqb (fst entry) CACHE_NAME) storage.

Inductive Outcome : Type :=
| NotIntercepted
| RespondWith (response : option Response).

Definition offlineResponse : Response :=
  {| status := 503; statusText := "Service Unavailable";
     body := "離線狀態，無法取得資源" |}.

(** The [fetch] handler.  [network] is the result of [fetch(request)],
    [None] when it fails; [root] is the URL that ['/'] resolves to.  The
    answer is paired with the storage after the event. *)
Definition handleFetch (root : string) (storage : list (string * gmap string Response))
    (request : Request) (network : option Response)
  : Outcome * list (string * gmap string Response) :=
  if negb (String.eqb (method request) "GET") then (NotIntercepted, storage)
  else if includes (url request) "/api/" then (NotIntercepted, storage)
  else
    match network with
    | Some response =>
        (RespondWith (Some response),
         if (status response =? 200)%Z then put storage CACHE_NAME (url request) response
         else storage)
    | None =>
        match cachesMatch storage (url request) with
        | Some cachedResponse => (RespondWith (Some cachedResponse), storage)
        | None =>
            if String.eqb (mode request) "navigate"
            then (RespondWith (cachesMatch storage root), storage)
            else (RespondWith (Some offlineResponse), storage)
        end
    end.

End ServiceWorker.

(** ** Further reference notions *)
Module Ref2.
Import JS Model Metrics.
Local Open Scope string_scope.
Local Open Scope Z_scope.

(** The first and the last day number of the month with index
    [monthIndex] (0..11, or beyond, as [new Date(year, monthIndex, 1)]
    takes it). *)
Definition monthFirstDay (year monthIndex : Z) : Z :=
  let ym := year + monthIndex / 12 in
  let mn := monthIndex mod 12 in
  dayFromYear ym + daysBeforeMonth ym (mn + 1).

Definition monthLastDay (year monthIndex : Z) : Z :=
  monthFirstDay year (monthIndex + 1) - 1.

(** The same wheel movement in the opposite vertical direction. *)
Definition mirrored (event : Controls.WheelEvent) : Controls.WheelEvent :=
  {| Controls.wheel_ctrlKey := Controls.wheel_ctrlKey event;
     Controls.deltaX := Controls.deltaX event;
     Controls.deltaY := (- Controls.deltaY event)%Q |}.

Definition opposite (n : Controls.Navigation) : Controls.Navigation :=
  match n with
  | Controls.NavNext => Controls.NavPrev
  | Controls.NavPrev => Controls.NavNext
  end.

(** The height of the last resize notification that was not zero. *)
Definition lastMeasured (init : option Q) (ts : list Trigger) : option Q :=
  foldl (fun acc t =>
           match t with
           | Resize h => if Qeq_bool h 0 then acc else Some h
           | DatesSet _ _ _ => acc
           end) init ts.

(** A string of the form [#rrggbb] or [rrggbb] whose channels are the given
    ones. *)
Definition hasChannels (color : string) (R G B : Z) : Prop :=
  Ref.rgbOfHex6 (replace_hash color) = Some (R, G, B).

(** Whether the two digits written for a channel read back as it. *)
Definition readsBack (z : Z) : bool :=
  match Color.channelHex (Int z) with
  | String a (String b EmptyString) =>
      match Ref.hexPair a b with
      | Some v => v =? z
      | None => false
      end
  | _ => false
  end.

(** The props of the next render, after [App] has stored the key of the
    clicked record as [selectedEventId]. *)
Definition withSelection (p : Normalizer.Props) (key : string) : Normalizer.Props :=
  {| Normalizer.calendars := Normalizer.calendars p;
     Normalizer.users := Normalizer.users p;
     Normalizer.selectedUsers := Normalizer.selectedUsers p;
     Normalizer.holidays := Normalizer.holidays p;
     Normalizer.showHolidays := Normalizer.showHolidays p;
     Normalizer.oncallEvents := Normalizer.oncallEvents p;
     Normalizer.showOncall := Normalizer.showOncall p;
     Normalizer.colorOverrides := Normalizer.colorOverrides p;
     Normalizer.selectedEventId := Some key |}.

(** The props of the render in which [App] passes the searched calendars. *)
Definition withCalendars (p : Normalizer.Props)
    (cals : list (string * list CalendarEvent)) : Normalizer.Props :=
  {| Normalizer.calendars := cals;
     Normalizer.users := Normalizer.users p;
     Normalizer.selectedUsers := Normalizer.selectedUsers p;
     Normalizer.holidays := Normalizer.holidays p;
     Normalizer.showHolidays := Normalizer.showHolidays p;
     Normalizer.oncallEvents := Normalizer.oncallEvents p;
     Normalizer.showOncall := Normalizer.showOncall p;
     Normalizer.colorOverrides := Normalizer.colorOverrides p;
     Normalizer.selectedEventId := Normalizer.selectedEventId p |}.

(** The key press reaches the handler from a text field. *)
Definition inTextField (event : Shortcuts.KeyEvent) : bool :=
  String.eqb (Shortcuts.targetTag event) "INPUT"
  || String.eqb (Shortcuts.targetTag event) "TEXTAREA"
  || Shortcuts.isContentEditable event.

Definition withModifier (event : Shortcuts.KeyEvent) : bool :=
  Shortcuts.ctrlKey event || Shortcuts.metaKey event || Shortcuts.altKey event.

(** The same key press with another value of [key]. *)
Definition withKey (event : Shortcuts.KeyEvent) (k : string) : Shortcuts.KeyEvent :=
  {| Shortcuts.targetTag := Shortcuts.targetTag event;
     Shortcuts.isContentEditable := Shortcuts.isContentEditable event;
     Shortcuts.key := k;
     Shortcuts.ctrlKey := Shortcuts.ctrlKey event;
     Shortcuts.metaKey := Shortcuts.metaKey event;
     Shortcuts.altKey := Shortcuts.altKey event |}.

(** Some cache of the storage holds the response under the URL. *)
Definition cached (storage : list (string * gmap string ServiceWorker.Response))
    (u : string) (r : ServiceWorker.Response) : Prop :=
  exists name cache, In (name, cache) storage /\ cache !! u = Some r.

(** The storage after a sequence of fetch events, each a request with the
    result of the network. *)
Definition fetches (root : string)
    (storage : list (string * gmap string ServiceWorker.Response))
    (events : list (ServiceWorker.Request * option ServiceWorker.Response))
  : list (string * gmap string ServiceWorker.Response) :=
  foldl (fun s ev => snd (ServiceWorker.handleFetch root s (fst ev) (snd ev)))
    storage events.

(** An owner's entry of a batch of calendars holds the record. *)
Definition holds (cals : list (string * list CalendarEvent)) (email : string)
    (event : CalendarEvent) : Prop :=
  exists events, In (email, events) cals /\ In event events.

(** Where a display event comes from. *)
Inductive Origin (tz now : Z) (p : Normalizer.Props) (out : FullCalendarEvent) : Prop :=
| FromOwner (email : string) (userEvents : list CalendarEvent) (event : CalendarEvent) :
    In (email, userEvents) (Normalizer.calendars p) ->
    In email (Normalizer.selectedUsers p) ->
    In event userEvents ->
    forall baseColor : string,
    Ref.ownerColor p email = Normalizer.Str baseColor ->
    out = Normalizer.personalEvent tz now p email (Ref.ownerName p email) baseColor event ->
    Origin tz now p out
| FromHoliday (holiday : CalendarEvent) :
    Normalizer.showHolidays p = true ->
    In holiday (Normalizer.holidays p) ->
    out = Normalizer.holidayEvent tz now p holiday ->
    Origin tz now p out
| FromOncall (event : CalendarEvent) :
    Normalizer.showOncall p = true ->
    In event (Normalizer.oncallEvents p) ->
    forall baseColor : string,
    Ref.oncallColor p event = Normalizer.Str baseColor ->
    out = Normalizer.oncallEvent tz now p baseColor event ->
    Origin tz now p out.

End Ref2.

(** ** Further sample inputs *)
Module Samples2.
Import Model Normalizer Samples.
Local Open Scope string_scope.

Definition oncallShift : CalendarEvent :=
  {| id := "w07"; subject := "on call";
     start := {| dateTime := "2024-02-12T00:00:00+08:00"; timeZone := "Asia/Taipei" |};
     end_ := {| dateTime := "2024-02-18T23:59:59+08:00"; timeZone := "Asia/Taipei" |};
     location := None; showAs := busy; isAllDay := true;
     userEmail := "a@x.tw"; userName := "A" |}.

Definition oncallProps : Props :=
  {| calendars := [("a@x.tw", [validEvent; brokenEvent])];
     users := []; selectedUsers := ["a@x.tw"];
     holidays := []; showHolidays := false;
     oncallEvents := [oncallShift]; showOncall := true;
     colorOverrides := ∅; selectedEventId := None |}.

Definition sampleUsers : list UserInfo :=
  [ {| email := "a@x.tw"; user_displayName := "Amy"; color := "#188038" |};
    {| email := "b@x.tw"; user_displayName := "Bo"; color := "#d93025" |} ].

End Samples2.

(* ===================================================================== *)
(** * Properties *)
(* ===================================================================== *)

Import JS Color Model Holidays Normalizer Popover Metrics Grid Sidebar Ref Samples.

(** ** Reading radix-16 digits *)
Section HexDigits.
Local Open Scope string_scope.

Lemma hexDigitValue_range c d : hexDigitValue c = Some d -> 0 <= d <= 15.
Proof.
  intros H. destruct c as [[] [] [] [] [] [] [] []]; vm_compute in H;
    try discriminate; inversion H; clear; lia.
Qed.

Lemma hexDigit_not_space c d : hexDigitValue c = Some d -> isStrWhiteSpaceChar c = false.
Proof.
  destruct c as [[] [] [] [] [] [] [] []]; vm_compute; congruence.
Qed.

Lemma hexDigit_not_sign c d :
  hexDigitValue c = Some d -> Ascii.eqb c "-" = false /\ Ascii.eqb c "+" = false.
Proof.
  destruct c as [[] [] [] [] [] [] [] []]; vm_compute; intuition congruence.
Qed.

Lemma hexDigit_not_x c d :
  hexDigitValue c = Some d -> Ascii.eqb c "x" = false /\ Ascii.eqb c "X" = false.
Proof.
  destruct c as [[] [] [] [] [] [] [] []]; vm_compute; intuition congruence.
Qed.

Lemma hexChar_lower c d : hexDigitValue c = Some d -> hexChar d = lowerChar c.
Proof.
  destruct c as [[] [] [] [] [] [] [] []]; vm_compute; intros H;
    try discriminate; inversion H; reflexivity.
Qed.

(** [parseInt] accepts a string that starts with two digits as it stands:
    nothing is trimmed and no sign or prefix is removed. *)
Lemma parseInt16_digits c1 c2 s d1 d2 :
  hexDigitValue c1 = Some d1 -> hexDigitValue c2 = Some d2 ->
  parseInt16 (String c1 (String c2 s)) = hexPrefix s (Some (16 * d1 + d2)).
Proof.
  intros H1 H2. unfold parseInt16. cbn [trimStart].
  rewrite (hexDigit_not_space _ _ H1).
  destruct (hexDigit_not_sign _ _ H1) as [Hm Hp].
  destruct (hexDigit_not_x _ _ H2) as [Hx HX].
  cbn [stripSign]. rewrite Hm, Hp. cbn [strip0x]. rewrite Hx, HX.
  rewrite andb_false_r. cbn [hexPrefix]. rewrite H1. cbn [hexPrefix default].
  rewrite H2. cbv [from_option Datatypes.id].
  replace (16 * (16 * 0 + d1) + d2) with (16 * d1 + d2) by lia.
  destruct (hexPrefix s (Some (16 * d1 + d2))) as [z|]; unfold option_map;
    [rewrite Z.mul_1_l|]; reflexivity.
Qed.

Lemma parseInt16_pair c1 c2 v :
  hexPair c1 c2 = Some v -> parseInt16 (String c1 (String c2 "")) = Some v.
Proof.
  unfold hexPair. intros H.
  destruct (hexDigitValue c1) as [d1|] eqn:H1; [|discriminate].
  destruct (hexDigitValue c2) as [d2|] eqn:H2; [|discriminate].
  cbn in H. inversion H; subst.
  rewrite (parseInt16_digits _ _ _ _ _ H1 H2). reflexivity.
Qed.

Lemma hexPair_range c1 c2 v : hexPair c1 c2 = Some v -> 0 <= v <= 255.
Proof.
  unfold hexPair. intros H.
  destruct (hexDigitValue c1) as [d1|] eqn:H1; [|discriminate].
  destruct (hexDigitValue c2) as [d2|] eqn:H2; [|discriminate].
  cbn in H. inversion H; subst.
  apply hexDigitValue_range in H1, H2. lia.
Qed.

End HexDigits.

(** ** Text colour *)
Section TextColor.
Local Open Scope string_scope.

Lemma replace_hash_nonempty hex : replace_hash hex <> "" -> String.eqb hex "" = false.
Proof. destruct hex; [intros H; now elim H | reflexivity]. Qed.

Lemma channel01_pair c1 c2 v :
  hexPair c1 c2 = Some v ->
  (float_of_number (parseInt16 (String c1 (String c2 ""))) / 255)%float
  = (float_of_Z v / 255)%float.
Proof. intros H. rewrite (parseInt16_pair _ _ _ H). reflexivity. Qed.

(** The two guards of lines 37-43: an empty string, or a string that does
    not have six characters once its first [#] is removed, gets the default
    of the requested preference. *)
Lemma text_color_default_on_bad_length hex preferLight :
  hex = "" \/ String.length (replace_hash hex) <> 6%nat ->
  getAdaptiveTextColor hex preferLight = safeDefault preferLight.
Proof.
  intros [-> | H]; [reflexivity|].
  unfold getAdaptiveTextColor. destruct (String.eqb hex ""); [reflexivity|].
  destruct (Nat.eqb_spec (String.length (replace_hash hex)) 6); [contradiction|].
  reflexivity.
Qed.

(** The text colour of a colour of six digits is chosen by the binary64
    value of the weighted sum of its channels. *)
Lemma text_color_binary64 (hex : string) (preferLight : bool) (R G B : Z) :
  rgbOfHex6 (replace_hash hex) = Some (R, G, B) ->
  getAdaptiveTextColor hex preferLight
  = chooseByLuminance preferLight
      (relativeLuminance (float_of_Z R / 255) (float_of_Z G / 255) (float_of_Z B / 255)).
Proof.
  intros H.
  assert (Hne : String.eqb hex "" = false).
  { apply replace_hash_nonempty. intros E. rewrite E in H. discriminate. }
  unfold getAdaptiveTextColor. rewrite Hne.
  destruct (replace_hash hex) as [|c1 [|c2 [|c3 [|c4 [|c5 [|c6 [|c7 s]]]]]]];
    try discriminate.
  cbn [rgbOfHex6] in H.
  destruct (hexPair c1 c2) as [r|] eqn:Hr; [|discriminate].
  destruct (hexPair c3 c4) as [g|] eqn:Hg; [|discriminate].
  destruct (hexPair c5 c6) as [b|] eqn:Hb; [|discriminate].
  cbn in H. inversion H; subst r g b; clear H.
  cbn [String.length Nat.eqb negb].
  unfold channel01, slice. cbn [Nat.sub substring].
  rewrite (channel01_pair _ _ _ Hr), (channel01_pair _ _ _ Hg), (channel01_pair _ _ _ Hb).
  reflexivity.
Qed.

Lemma rgbOfHex6_range s R G B :
  rgbOfHex6 s = Some (R, G, B) ->
  (0 <= R <= 255)%Z /\ (0 <= G <= 255)%Z /\ (0 <= B <= 255)%Z.
Proof.
  intros H.
  destruct s as [|c1 [|c2 [|c3 [|c4 [|c5 [|c6 [|c7 s]]]]]]]; try discriminate.
  cbn [rgbOfHex6] in H.
  destruct (hexPair c1 c2) as [r|] eqn:Hr; [|discriminate].
  destruct (hexPair c3 c4) as [g|] eqn:Hg; [|discriminate].
  destruct (hexPair c5 c6) as [b|] eqn:Hb; [|discriminate].
  cbn in H. inversion H; subst r g b.
  repeat split; eapply hexPair_range; eassumption.
Qed.

(** C5, as stated, fails.  The comparison is made on the binary64 value of
    the sum.  For [#23f66d] the luminance 0.2126 R + 0.7152 G + 0.0722 B of
    the channels over 255 is exactly 0.75, so it is not below 0.75; the
    computed sum lies just below 0.75, and the text is white, not dark. *)
Lemma text_color_at_rounded_threshold :
  rgbOfHex6 "23f66d" = Some (35, 246, 109)%Z
  /\ ((2126 # 10000) * (35 # 255) + (7152 # 10000) * (246 # 255)
      + (722 # 10000) * (109 # 255) == 3 # 4)%Q
  /\ (2126 * 35 + 7152 * 246 + 722 * 109 = 1912500)%Z
  /\ PrimFloat.ltb
       (relativeLuminance (float_of_Z 35 / 255) (float_of_Z 246 / 255)
          (float_of_Z 109 / 255)) 0.75 = true
  /\ getAdaptiveTextColor "#23f66d" true = "#ffffff".
Proof. vm_compute. repeat split; reflexivity. Qed.

(** **** The thresholds in exact arithmetic *)

Lemma int_add_of_Z (i : int) (a b : Z) :
  (i + Uint63.of_Z a + Uint63.of_Z b)%uint63 = (i + Uint63.of_Z (a + b))%uint63.
Proof.
  apply Uint63.to_Z_inj. rewrite !Uint63.add_spec, !Uint63.of_Z_spec.
  rewrite Zplus_mod_idemp_l, !Zplus_mod_idemp_r.
  replace (Uint63.to_Z i + a mod Uint63.wB + b)%Z
    with (a mod Uint63.wB + (Uint63.to_Z i + b))%Z by lia.
  rewrite Zplus_mod_idemp_l. f_equal. lia.
Qed.

Lemma upto_spec n : forall i f,
  upto n i f = true ->
  forall k, (0 <= k < Z.of_nat n)%Z -> f (i + Uint63.of_Z k)%uint63 = true.
Proof.
  induction n as [|n IH]; intros i f H k Hk; [lia|].
  cbn [upto] in H. apply andb_true_iff in H as [H0 H1].
  destruct (Z.eq_dec k 0) as [-> | Hne].
  - replace (i + Uint63.of_Z 0)%uint63 with i; [exact H0|].
    apply Uint63.to_Z_inj. rewrite Uint63.add_spec, Uint63.of_Z_spec.
    rewrite Zmod_0_l, Z.add_0_r, Z.mod_small; [reflexivity | apply Uint63.to_Z_bounded].
  - specialize (IH _ _ H1 (k - 1)%Z ltac:(lia)).
    change 1%uint63 with (Uint63.of_Z 1) in IH.
    rewrite int_add_of_Z in IH. replace (1 + (k - 1))%Z with k in IH by lia.
    exact IH.
Qed.

Lemma thresholds_checked :
  upto 256 0 (fun r => upto 256 0 (fun g => upto 256 0 (thresholdsAgree r g))) = true.
Proof. vm_compute. reflexivity. Qed.

Lemma to_Z_of_Z_small z : (0 <= z <= 255)%Z -> Uint63.to_Z (Uint63.of_Z z) = z.
Proof.
  intros H. rewrite Uint63.of_Z_spec. apply Z.mod_small.
  change Uint63.wB with 9223372036854775808%Z. lia.
Qed.

Lemma float_of_Z_small z : (0 <= z <= 255)%Z -> float_of_Z z = PrimFloat.of_uint63 (Uint63.of_Z z).
Proof. intros H. destruct z; [reflexivity | reflexivity | lia]. Qed.

Lemma weighted_sum_small R G B :
  (0 <= R <= 255)%Z -> (0 <= G <= 255)%Z -> (0 <= B <= 255)%Z ->
  Uint63.to_Z (2126 * Uint63.of_Z R + 7152 * Uint63.of_Z G + 722 * Uint63.of_Z B)%uint63
  = (2126 * R + 7152 * G + 722 * B)%Z.
Proof.
  intros HR HG HB.
  rewrite !Uint63.add_spec, !Uint63.mul_spec, !to_Z_of_Z_small by assumption.
  change (Uint63.to_Z 2126) with 2126%Z. change (Uint63.to_Z 7152) with 7152%Z.
  change (Uint63.to_Z 722) with 722%Z.
  change Uint63.wB with 9223372036854775808%Z.
  rewrite !(Z.mod_small (_ * _)) by lia.
  rewrite (Z.mod_small (2126 * R + 7152 * G)) by lia.
  apply Z.mod_small. lia.
Qed.

(** For all channels, the binary64 luminance exceeds 0.5 exactly when the
    exact weighted sum does, and is below 0.75 exactly when the exact sum
    is, or the colour is one of the seven boundary colours, whose exact sum
    is 0.75. *)
Lemma luminance_thresholds_exact (R G B : Z) :
  (0 <= R <= 255)%Z -> (0 <= G <= 255)%Z -> (0 <= B <= 255)%Z ->
  let luminance :=
    relativeLuminance (float_of_Z R / 255) (float_of_Z G / 255) (float_of_Z B / 255) in
  let weighted := (2126 * R + 7152 * G + 722 * B)%Z in
  PrimFloat.ltb 0.5 luminance = (1275000 <? weighted)%Z
  /\ PrimFloat.ltb luminance 0.75
     = ((weighted <? 1912500)%Z || isBoundaryColor R G B)
  /\ (isBoundaryColor R G B = true -> weighted = 1912500%Z).
Proof.
  intros HR HG HB luminance weighted.
  pose proof thresholds_checked as H.
  apply (fun H => upto_spec _ _ _ H R) in H; [|lia].
  apply (fun H => upto_spec _ _ _ H G) in H; [|lia].
  apply (fun H => upto_spec _ _ _ H B) in H; [|lia].
  replace (0 + Uint63.of_Z R)%uint63 with (Uint63.of_Z R) in H
    by (apply Uint63.to_Z_inj; rewrite Uint63.add_spec;
        change (Uint63.to_Z 0) with 0%Z; rewrite Z.add_0_l, Z.mod_small;
        [reflexivity | apply Uint63.to_Z_bounded]).
  replace (0 + Uint63.of_Z G)%uint63 with (Uint63.of_Z G) in H
    by (apply Uint63.to_Z_inj; rewrite Uint63.add_spec;
        change (Uint63.to_Z 0) with 0%Z; rewrite Z.add_0_l, Z.mod_small;
        [reflexivity | apply Uint63.to_Z_bounded]).
  replace (0 + Uint63.of_Z B)%uint63 with (Uint63.of_Z B) in H
    by (apply Uint63.to_Z_inj; rewrite Uint63.add_spec;
        change (Uint63.to_Z 0) with 0%Z; rewrite Z.add_0_l, Z.mod_small;
        [reflexivity | apply Uint63.to_Z_bounded]).
  unfold thresholdsAgree in H. rewrite !to_Z_of_Z_small in H by assumption.
  rewrite <- !float_of_Z_small in H by assumption. fold luminance in H.
  set (w := (2126 * Uint63.of_Z R + 7152 * Uint63.of_Z G + 722 * Uint63.of_Z B)%uint63) in H.
  assert (Hw : Uint63.to_Z w = weighted) by (apply weighted_sum_small; assumption).
  assert (H1 : (1275000 <? w)%uint63 = (1275000 <? weighted)%Z).
  { apply eq_true_iff_eq. rewrite Uint63.ltb_spec, Z.ltb_lt, Hw. reflexivity. }
  assert (H2 : (w <? 1912500)%uint63 = (weighted <? 1912500)%Z).
  { apply eq_true_iff_eq. rewrite Uint63.ltb_spec, Z.ltb_lt, Hw. reflexivity. }
  assert (H3 : (w =? 1912500)%uint63 = (weighted =? 1912500)%Z).
  { apply eq_true_iff_eq. rewrite Uint63.eqb_spec, Z.eqb_eq, <- Hw. split.
    - intros ->. reflexivity.
    - intros E. apply Uint63.to_Z_inj. exact E. }
  rewrite H1, H2, H3 in H. apply andb_true_iff in H as [Ha Hb].
  apply eqb_prop in Ha, Hb.
  assert (Hbd : isBoundaryColor R G B = true -> weighted = 1912500%Z).
  { unfold isBoundaryColor, boundaryColors. cbn [existsb]. subst weighted.
    rewrite !orb_true_iff, !andb_true_iff, !Z.eqb_eq. lia. }
  split; [exact Ha|]. split; [|exact Hbd].
  rewrite Hb. destruct (isBoundaryColor R G B) eqn:Eb.
  - rewrite (Hbd eq_refl). reflexivity.
  - destruct (weighted <? 1912500)%Z, (weighted =? 1912500)%Z; reflexivity.
Qed.

Lemma isBoundaryColor_In (R G B : Z) :
  isBoundaryColor R G B = true <-> In (R, G, B) boundaryColors.
Proof.
  unfold isBoundaryColor. rewrite existsb_exists. split.
  - intros ([[x y] z] & Hin & H).
    apply andb_true_iff in H as [H Hz]. apply andb_true_iff in H as [Hx Hy].
    apply Z.eqb_eq in Hx, Hy, Hz. subst. exact Hin.
  - intros H. exists (R, G, B). split; [exact H|]. now rewrite !Z.eqb_refl.
Qed.

(** The luminance of the channels over 255, as one fraction. *)
Lemma luminance_fraction (R G B : Z) :
  ((2126 # 10000) * (R # 255) + (7152 # 10000) * (G # 255) + (722 # 10000) * (B # 255)
   == (2126 * R + 7152 * G + 722 * B) # 2550000)%Q.
Proof. unfold Qeq, Qplus, Qmult. cbn [Qnum Qden]. lia. Qed.

(** C5, amended.  For a colour of six radix-16 digits (after the first [#]
    is removed) with channels [R], [G], [B], let [luminance] be the number
    0.2126 R/255 + 0.7152 G/255 + 0.0722 B/255.  With [preferLight] the text
    is white exactly when [luminance < 0.75] or the colour is one of the
    seven colours #23f66d, #45e2cf, #75db87, #b6ca70, #c7c0a1, #e6c328 and
    #f7b959, whose luminance is 0.75, and it is [#1f2937] otherwise.
    Without [preferLight] the text is [#1f2937] exactly when
    [luminance > 0.5] and white otherwise.  [#1a73e8] with [preferLight]
    gives white.  The result is a function of the two arguments. *)
Theorem text_color_follows_luminance (hex : string) (R G B : Z) :
  rgbOfHex6 (replace_hash hex) = Some (R, G, B) ->
  let luminance :=
    ((2126 # 10000) * (R # 255) + (7152 # 10000) * (G # 255)
     + (722 # 10000) * (B # 255))%Q in
  let boundary :=
    In (R, G, B)
       [(35, 246, 109); (69, 226, 207); (117, 219, 135); (182, 202, 112);
        (199, 192, 161); (230, 195, 40); (247, 185, 89)]%Z in
  (getAdaptiveTextColor hex true = "#ffffff" <-> (luminance < 3 # 4)%Q \/ boundary)
  /\ (getAdaptiveTextColor hex true = "#1f2937"
      <-> ~ ((luminance < 3 # 4)%Q \/ boundary))
  /\ (getAdaptiveTextColor hex false = "#1f2937" <-> (1 # 2 < luminance)%Q)
  /\ (getAdaptiveTextColor hex false = "#ffffff" <-> (luminance <= 1 # 2)%Q)
  /\ (boundary -> (luminance == 3 # 4)%Q)
  /\ getAdaptiveTextColor "#1a73e8" true = "#ffffff".
Proof.
  intros H luminance boundary.
  destruct (rgbOfHex6_range _ _ _ _ H) as (HR & HG & HB).
  destruct (luminance_thresholds_exact R G B HR HG HB) as (H5 & H75 & Hb).
  cbv zeta in H5, H75, Hb.
  set (w := (2126 * R + 7152 * G + 722 * B)%Z) in *.
  assert (El : (luminance == w # 2550000)%Q) by apply luminance_fraction.
  assert (L75 : (luminance < 3 # 4)%Q <-> (w < 1912500)%Z).
  { rewrite El. unfold Qlt. cbn [Qnum Qden]. lia. }
  assert (L5 : (1 # 2 < luminance)%Q <-> (1275000 < w)%Z).
  { rewrite El. unfold Qlt. cbn [Qnum Qden]. lia. }
  assert (L5' : (luminance <= 1 # 2)%Q <-> (w <= 1275000)%Z).
  { rewrite El. unfold Qle. cbn [Qnum Qden]. lia. }
  assert (Bd : boundary <-> isBoundaryColor R G B = true).
  { symmetry. apply isBoundaryColor_In. }
  rewrite !(text_color_binary64 _ _ _ _ _ H). unfold chooseByLuminance.
  rewrite H5, H75, L75, L5, L5', Bd.
  split; [|split; [|split; [|split; [|split]]]].
  - destruct (Z.ltb_spec w 1912500), (isBoundaryColor R G B); cbn [orb];
      split; intros; try discriminate; try reflexivity; intuition (discriminate || lia).
  - destruct (Z.ltb_spec w 1912500), (isBoundaryColor R G B); cbn [orb];
      split; intros; try discriminate; try reflexivity; intuition (discriminate || lia).
  - destruct (Z.ltb_spec 1275000 w); split; intros;
      try discriminate; try reflexivity; lia.
  - destruct (Z.ltb_spec 1275000 w); split; intros;
      try discriminate; try reflexivity; lia.
  - intros Hbd. apply Hb in Hbd. rewrite El. unfold Qeq. cbn [Qnum Qden]. lia.
  - vm_compute. reflexivity.
Qed.

Lemma text_color_follows_luminance_witness :
  rgbOfHex6 (replace_hash "#C8E6C9") = Some (200, 230, 201)%Z
  /\ getAdaptiveTextColor "#C8E6C9" false = "#1f2937".
Proof.
  assert (H : rgbOfHex6 (replace_hash "#C8E6C9") = Some (200, 230, 201)%Z) by reflexivity.
  split; [exact H|].
  destruct (text_color_follows_luminance "#C8E6C9" 200 230 201 H) as (_ & _ & E & _).
  apply E. vm_compute. reflexivity.
Defined.

(** C6.  On the six-character string [zzzzzz] the three channels are [NaN],
    both comparisons with the luminance fail, and the result is the colour
    of the opposite preference, not the default of the requested one. *)
Lemma text_color_on_non_hex_digits :
  getAdaptiveTextColor "zzzzzz" true = "#1f2937"
  /\ safeDefault true = "#ffffff"
  /\ getAdaptiveTextColor "zzzzzz" false = "#ffffff"
  /\ safeDefault false = "#111827".
Proof. vm_compute. repeat split; reflexivity. Qed.

End TextColor.

(** ** binary64 values and their order *)
Section Binary64Order.
Import Binary64.
Local Open Scope Z_scope.

Lemma digits2_size (m : positive) : digits2_pos m = Pos.size m.
Proof. induction m as [m IH | m IH |]; cbn; congruence. Qed.

(** A positive number of [d] binary digits lies in [[2^(d-1), 2^d)]. *)
Lemma digits2_bounds (m : positive) :
  2 ^ (Z.pos (digits2_pos m) - 1) <= Z.pos m < 2 ^ Z.pos (digits2_pos m).
Proof.
  rewrite digits2_size. split.
  - pose proof (Pos.size_le m) as H.
    assert (E : Z.pos (2 ^ Pos.size m) = 2 ^ Z.pos (Pos.size m))
      by (rewrite Pos2Z.inj_pow; reflexivity).
    assert (H' : 2 ^ Z.pos (Pos.size m) <= 2 * Z.pos m).
    { rewrite <- E. change (2 * Z.pos m) with (Z.pos m~0). now apply Pos2Z.pos_le_pos. }
    replace (Z.pos (Pos.size m)) with (Z.pos (Pos.size m) - 1 + 1) in H' by lia.
    rewrite Z.pow_add_r in H' by lia. lia.
  - pose proof (Pos.size_gt m) as H.
    rewrite <- Pos2Z.inj_pow. now apply Pos2Z.pos_lt_pos.
Qed.

(** The number of digits is determined by the bounds. *)
Lemma digits2_unique (m : positive) (d : Z) :
  2 ^ (d - 1) <= Z.pos m < 2 ^ d -> Z.pos (digits2_pos m) = d.
Proof.
  intros [Hlo Hhi]. pose proof (digits2_bounds m) as [Hlo' Hhi'].
  assert (Hd : 0 < d).
  { destruct (Z.ltb_spec 0 d); [assumption|].
    assert (2 ^ d <= 1); [|lia].
    destruct (Z.eq_dec d 0) as [-> | Hne]; [reflexivity|].
    rewrite Z.pow_neg_r by lia. lia. }
  destruct (Z.lt_trichotomy (Z.pos (digits2_pos m)) d) as [Hlt | [E | Hgt]];
    [exfalso | exact E | exfalso].
  - assert (2 ^ Z.pos (digits2_pos m) <= 2 ^ (d - 1)) by (apply Z.pow_le_mono_r; lia). lia.
  - assert (2 ^ d <= 2 ^ (Z.pos (digits2_pos m) - 1)) by (apply Z.pow_le_mono_r; lia). lia.
Qed.

(** What validity says of a finite binary64 value. *)
Lemma valid_finite (s : bool) (m : positive) (e : Z) :
  valid_binary (S754_finite s m e) = true ->
  -1074 <= e <= 971
  /\ Z.pos (digits2_pos m) <= 53
  /\ (Z.pos (digits2_pos m) = 53 \/ e = -1074).
Proof.
  unfold SpecFloat.valid_binary, bounded, canonical_mantissa, fexp, SpecFloat.emin.
  change prec with 53. change emax with 1024.
  rewrite andb_true_iff, Z.eqb_eq, Z.leb_le. lia.
Qed.

Lemma toQ_units (x : float) : toQ x = Qmake (units (Prim2SF x)) scale.
Proof. reflexivity. Qed.

Lemma units_positive (m : positive) (e : Z) :
  -1074 <= e -> 0 < Z.pos m * 2 ^ (e + 1074).
Proof. intros H. apply Z.mul_pos_pos; [lia | apply Z.pow_pos_nonneg; lia]. Qed.

(** Of two valid positive values, the one with the smaller exponent is the
    smaller one. *)
Lemma lower_exponent_smaller (m1 m2 : positive) (e1 e2 : Z) :
  valid_binary (S754_finite false m1 e1) = true ->
  valid_binary (S754_finite false m2 e2) = true ->
  e1 < e2 ->
  Z.pos m1 * 2 ^ (e1 + 1074) < Z.pos m2 * 2 ^ (e2 + 1074).
Proof.
  intros H1 H2 Hlt.
  apply valid_finite in H1 as (He1 & Hd1 & _).
  apply valid_finite in H2 as (He2 & Hd2 & [Hn2 | Hs2]); [|lia].
  pose proof (digits2_bounds m1) as [_ Hhi1].
  pose proof (digits2_bounds m2) as [Hlo2 _]. rewrite Hn2 in Hlo2.
  assert (Hm1 : Z.pos m1 < 2 ^ 53).
  { eapply Z.lt_le_trans; [exact Hhi1|]. apply Z.pow_le_mono_r; lia. }
  assert (Hp : 2 ^ (e2 + 1074) = 2 ^ (e2 - e1 - 1) * 2 * 2 ^ (e1 + 1074)).
  { replace (e2 + 1074) with ((e2 - e1 - 1) + 1 + (e1 + 1074)) by lia.
    rewrite !Z.pow_add_r by lia. reflexivity. }
  assert (Hq : 1 <= 2 ^ (e2 - e1 - 1)) by (apply (Z.pow_le_mono_r 2 0); lia).
  assert (Hu : 0 < 2 ^ (e1 + 1074)) by (apply Z.pow_pos_nonneg; lia).
  rewrite Hp. change (2 ^ (53 - 1)) with 4503599627370496 in Hlo2.
  change (2 ^ 53) with 9007199254740992 in Hm1. nia.
Qed.

Lemma compare_positive (m1 m2 : positive) (e1 e2 : Z) :
  valid_binary (S754_finite false m1 e1) = true ->
  valid_binary (S754_finite false m2 e2) = true ->
  match e1 ?= e2 with
  | Lt => Lt
  | Gt => Gt
  | Eq => Pos.compare_cont Eq m1 m2
  end
  = (Z.pos m1 * 2 ^ (e1 + 1074) ?= Z.pos m2 * 2 ^ (e2 + 1074)).
Proof.
  intros H1 H2. symmetry. destruct (Z.compare_spec e1 e2) as [-> | Hlt | Hgt].
  - change (Pos.compare_cont Eq m1 m2) with (Z.pos m1 ?= Z.pos m2).
    apply valid_finite in H2 as (He2 & _).
    assert (Hu : 0 < 2 ^ (e2 + 1074)) by (apply Z.pow_pos_nonneg; lia).
    destruct (Z.compare_spec (Z.pos m1) (Z.pos m2)) as [E | Hl | Hg].
    + rewrite E. apply Z.compare_refl.
    + apply Z.compare_lt_iff. nia.
    + apply Z.compare_gt_iff. nia.
  - apply Z.compare_lt_iff. now apply lower_exponent_smaller.
  - apply Z.compare_gt_iff. now apply lower_exponent_smaller.
Qed.

(** On valid finite values the comparison of the format is the comparison
    of the numbers. *)
Lemma SFcompare_units (x y : spec_float) :
  valid_binary x = true -> valid_binary y = true ->
  finiteSF x = true -> finiteSF y = true ->
  SFcompare x y = Some (units x ?= units y).
Proof.
  intros Vx Vy Fx Fy.
  destruct x as [sx | sx | | sx mx ex]; try discriminate;
    destruct y as [sy | sy | | sy my ey]; try discriminate; cbn [SFcompare units].
  - reflexivity.
  - pose proof (valid_finite _ _ _ Vy) as (He & _).
    pose proof (units_positive my ey ltac:(lia)) as Hp.
    destruct sy; f_equal; symmetry;
      [apply Z.compare_gt_iff | apply Z.compare_lt_iff]; lia.
  - pose proof (valid_finite _ _ _ Vx) as (He & _).
    pose proof (units_positive mx ex ltac:(lia)) as Hp.
    destruct sx; f_equal; symmetry;
      [apply Z.compare_lt_iff | apply Z.compare_gt_iff]; lia.
  - pose proof (valid_finite _ _ _ Vx) as (Hex & _).
    pose proof (valid_finite _ _ _ Vy) as (Hey & _).
    pose proof (units_positive mx ex ltac:(lia)) as Hpx.
    pose proof (units_positive my ey ltac:(lia)) as Hpy.
    f_equal. destruct sx, sy.
    + change (valid_binary (S754_finite true mx ex))
        with (valid_binary (S754_finite false mx ex)) in Vx.
      change (valid_binary (S754_finite true my ey))
        with (valid_binary (S754_finite false my ey)) in Vy.
      rewrite Z.compare_opp.
      rewrite <- (compare_positive my mx ey ex Vy Vx).
      rewrite (Z.compare_antisym ey ex).
      destruct (ey ?= ex) eqn:E; cbn [CompOpp]; try reflexivity.
      apply Z.compare_eq in E. subst.
      change (Pos.compare_cont Eq mx my) with (mx ?= my)%positive.
      change (Pos.compare_cont Eq my mx) with (my ?= mx)%positive.
      rewrite (Pos.compare_antisym mx my).
      destruct (mx ?= my)%positive; reflexivity.
    + symmetry. apply Z.compare_lt_iff. lia.
    + symmetry. apply Z.compare_gt_iff. lia.
    + apply compare_positive; assumption.
Qed.

Lemma Prim2SF_nan_iff (x : float) : Prim2SF x = S754_nan <-> is_nan x = true.
Proof.
  unfold is_nan. rewrite FloatAxioms.eqb_spec. unfold SFeqb.
  pose proof (Prim2SF_valid x) as V.
  destruct (Prim2SF x) as [s | s | | s m e] eqn:E; cbn [SFcompare negb].
  - split; discriminate.
  - destruct s; split; discriminate.
  - split; reflexivity.
  - rewrite Z.compare_refl.
    assert (Pos.compare_cont Eq m m = Eq) by apply Pos.compare_refl.
    destruct s; rewrite H; split; discriminate.
Qed.

(** A finite value is a zero or a number with a mantissa. *)
Lemma is_finite_SF (x : float) : is_finite x = finiteSF (Prim2SF x).
Proof.
  unfold is_finite, is_infinity. rewrite FloatAxioms.eqb_spec, FloatAxioms.abs_spec.
  change (Prim2SF infinity) with (S754_infinity false).
  destruct (is_nan x) eqn:En.
  - apply Prim2SF_nan_iff in En. rewrite En. reflexivity.
  - assert (Hnn : Prim2SF x <> S754_nan).
    { intros H. apply Prim2SF_nan_iff in H. congruence. }
    destruct (Prim2SF x) as [s | s | | s m e]; cbn; try reflexivity; try contradiction.
Qed.

Lemma Qlt_units (a b : Z) : (Qmake a scale < Qmake b scale)%Q <-> a < b.
Proof.
  unfold Qlt. cbn [Qnum Qden]. split; intros H; nia.
Qed.

Lemma Qle_units (a b : Z) : (Qmake a scale <= Qmake b scale)%Q <-> a <= b.
Proof.
  unfold Qle. cbn [Qnum Qden]. split; intros H; nia.
Qed.

(** The comparisons of finite binary64 values are the comparisons of the
    numbers they stand for. *)
Lemma ltb_toQ (a b : float) :
  is_finite a = true -> is_finite b = true ->
  ((a <? b)%float = true <-> (toQ a < toQ b)%Q).
Proof.
  intros Fa Fb. rewrite is_finite_SF in Fa, Fb.
  rewrite FloatAxioms.ltb_spec, !toQ_units, Qlt_units. unfold SFltb.
  rewrite (SFcompare_units _ _ (Prim2SF_valid a) (Prim2SF_valid b) Fa Fb).
  destruct (Z.compare_spec (units (Prim2SF a)) (units (Prim2SF b)));
    split; intros; try discriminate; try reflexivity; lia.
Qed.

Lemma leb_toQ (a b : float) :
  is_finite a = true -> is_finite b = true ->
  ((a <=? b)%float = true <-> (toQ a <= toQ b)%Q).
Proof.
  intros Fa Fb. rewrite is_finite_SF in Fa, Fb.
  rewrite FloatAxioms.leb_spec, !toQ_units, Qle_units. unfold SFleb.
  rewrite (SFcompare_units _ _ (Prim2SF_valid a) (Prim2SF_valid b) Fa Fb).
  destruct (Z.compare_spec (units (Prim2SF a)) (units (Prim2SF b)));
    split; intros; try discriminate; try reflexivity; lia.
Qed.

Lemma ltb_false_toQ (a b : float) :
  is_finite a = true -> is_finite b = true ->
  (a <? b)%float = false -> (toQ b <= toQ a)%Q.
Proof.
  intros Fa Fb H. apply Qnot_lt_le. intros Hlt.
  apply (ltb_toQ a b Fa Fb) in Hlt. congruence.
Qed.

Lemma leb_false_toQ (a b : float) :
  is_finite a = true -> is_finite b = true ->
  (a <=? b)%float = false -> (toQ b < toQ a)%Q.
Proof.
  intros Fa Fb H. apply Qnot_le_lt. intros Hle.
  apply (leb_toQ a b Fa Fb) in Hle. congruence.
Qed.

End Binary64Order.

(** ** Rounding in binary64 *)
Section Binary64Rounding.
Import Binary64.
Local Open Scope Z_scope.

Lemma iter_xO (m d : positive) : Z.pos (Pos.iter xO m d) = Z.pos m * 2 ^ Z.pos d.
Proof.
  induction d as [|d IH] using Pos.peano_ind.
  - change (Pos.iter xO m 1) with (xO m). change (2 ^ 1) with 2. lia.
  - rewrite Pos.iter_succ, Pos2Z.inj_xO, IH, Pos2Z.inj_succ, Z.pow_succ_r by lia. ring.
Qed.

(** Aligning a mantissa to a lower exponent keeps the value. *)
Lemma shl_align_spec (m : positive) (e e' : Z) :
  Z.pos (fst (shl_align m e e')) = Z.pos m * 2 ^ (e - Z.min e e')
  /\ snd (shl_align m e e') = Z.min e e'.
Proof.
  unfold shl_align. destruct (e' - e) as [|d|d] eqn:E; cbn [fst snd].
  - rewrite Z.min_l by lia. rewrite Z.sub_diag. split; lia.
  - rewrite Z.min_l by lia. rewrite Z.sub_diag. split; lia.
  - rewrite Z.min_r by lia. rewrite iter_xO. split; [|reflexivity].
    f_equal. f_equal. lia.
Qed.

Lemma shr_1_m (mrs : shr_record) : 0 <= shr_m mrs -> shr_m (shr_1 mrs) = shr_m mrs / 2.
Proof.
  destruct mrs as [m r s]. cbn [shr_m]. intros H.
  destruct m as [|[p|p|]|p]; cbn [shr_1 shr_m].
  - reflexivity.
  - apply Z.div_unique with (r := 1); lia.
  - apply Z.div_unique with (r := 0); lia.
  - reflexivity.
  - lia.
Qed.

(** Shifting right by [p] digits divides the mantissa by [2^p]. *)
Lemma shr_iter (p : positive) : forall mrs,
  0 <= shr_m mrs -> shr_m (SpecFloat.iter_pos shr_1 p mrs) = shr_m mrs / 2 ^ Z.pos p.
Proof.
  assert (P : forall q, 0 < 2 ^ Z.pos q) by (intros q; apply Z.pow_pos_nonneg; lia).
  induction p as [p IH | p IH |]; intros mrs H; cbn [SpecFloat.iter_pos].
  - assert (H1 : 0 <= shr_m (shr_1 mrs)) by (rewrite shr_1_m by lia; apply Z.div_pos; lia).
    assert (H2 : 0 <= shr_m (SpecFloat.iter_pos shr_1 p (shr_1 mrs)))
      by (rewrite IH by lia; apply Z.div_pos; [lia | apply P]).
    rewrite IH by lia. rewrite IH by lia. rewrite shr_1_m by lia.
    pose proof (P p).
    assert (E : 2 ^ Z.pos p~1 = 2 * (2 ^ Z.pos p * 2 ^ Z.pos p)).
    { rewrite <- Z.pow_add_r, <- Z.pow_succ_r by lia. f_equal. lia. }
    rewrite E, !Z.div_div by lia. reflexivity.
  - assert (H2 : 0 <= shr_m (SpecFloat.iter_pos shr_1 p mrs))
      by (rewrite IH by lia; apply Z.div_pos; [lia | apply P]).
    rewrite IH by lia. rewrite IH by lia. pose proof (P p).
    assert (E : 2 ^ Z.pos p~0 = 2 ^ Z.pos p * 2 ^ Z.pos p).
    { rewrite <- Z.pow_add_r by lia. f_equal. lia. }
    rewrite E, !Z.div_div by lia. reflexivity.
  - now apply shr_1_m.
Qed.

Lemma shr_spec (mrs : shr_record) (e n : Z) :
  0 <= shr_m mrs ->
  shr_m (fst (shr mrs e n)) = shr_m mrs / 2 ^ Z.max 0 n
  /\ snd (shr mrs e n) = e + Z.max 0 n.
Proof.
  intros H. destruct n as [|p|p]; cbn [shr fst snd].
  - cbn. rewrite Z.div_1_r. split; lia.
  - rewrite shr_iter by lia. rewrite Z.max_r by lia. split; reflexivity.
  - rewrite Z.max_l by lia. cbn. rewrite Z.div_1_r. split; lia.
Qed.

Lemma shr_record_of_loc_m (m : Z) (l : SpecFloat.location) : shr_m (shr_record_of_loc m l) = m.
Proof. destruct l as [|[]]; reflexivity. Qed.

Lemma shr_fexp_spec (m e : Z) (l : SpecFloat.location) :
  0 <= m ->
  let n := Z.max 0 (fexp prec emax (Zdigits2 m + e) - e) in
  shr_m (fst (shr_fexp prec emax m e l)) = m / 2 ^ n
  /\ snd (shr_fexp prec emax m e l) = e + n.
Proof.
  intros H n. unfold shr_fexp.
  pose proof (shr_spec (shr_record_of_loc m l) e
                (fexp prec emax (Zdigits2 m + e) - e)) as S.
  rewrite shr_record_of_loc_m in S. apply S. exact H.
Qed.

Lemma round_nearest_even_cases (m : Z) (l : SpecFloat.location) :
  round_nearest_even m l = m \/ round_nearest_even m l = m + 1.
Proof.
  destruct l as [|[]]; cbn; auto. destruct (Z.even m); auto.
Qed.

(** Rounding a mantissa: the digits beyond the precision are cut off, the
    rest is the quotient or its successor, and one more digit is cut off
    when the successor needs it. *)
Lemma binary_round_aux_spec (sx : bool) (m e : Z) (l : SpecFloat.location) :
  0 <= m ->
  let n := Z.max 0 (fexp prec emax (Zdigits2 m + e) - e) in
  exists m1,
    (m1 = m / 2 ^ n \/ m1 = m / 2 ^ n + 1)
    /\ let n2 := Z.max 0 (fexp prec emax (Zdigits2 m1 + (e + n)) - (e + n)) in
       binary_round_aux prec emax sx m e l
       = match m1 / 2 ^ n2 with
         | Z0 => S754_zero sx
         | Zpos q =>
             if e + n + n2 <=? emax - prec then S754_finite sx q (e + n + n2)
             else S754_infinity sx
         | Zneg _ => S754_nan
         end.
Proof.
  intros H n. unfold binary_round_aux.
  destruct (shr_fexp_spec m e l H) as [Hm He]. fold n in Hm, He.
  destruct (shr_fexp prec emax m e l) as [mrs' e'] eqn:E1. cbn [fst snd] in Hm, He.
  set (m1 := round_nearest_even (shr_m mrs') (loc_of_shr_record mrs')).
  exists m1. split.
  { subst m1. rewrite <- Hm. apply round_nearest_even_cases. }
  assert (H0 : 0 <= shr_m mrs').
  { rewrite Hm. apply Z.div_pos; [lia | apply Z.pow_pos_nonneg; lia]. }
  assert (H1 : 0 <= m1).
  { subst m1. destruct (round_nearest_even_cases (shr_m mrs') (loc_of_shr_record mrs'))
      as [-> | ->]; lia. }
  cbv zeta. subst e'.
  destruct (shr_fexp_spec m1 (e + n) loc_Exact H1) as [Hm2 He2].
  destruct (shr_fexp prec emax m1 (e + n) loc_Exact) as [mrs'' e''] eqn:E2.
  cbn [fst snd] in Hm2, He2. rewrite Hm2, He2. reflexivity.
Qed.

(** A rounded non-negative mantissa keeps its sign and is a number or an
    infinity. *)
Lemma binary_round_aux_sign (m e : Z) (l : SpecFloat.location) :
  0 <= m -> notBelowZero (binary_round_aux prec emax false m e l).
Proof.
  intros H. destruct (binary_round_aux_spec false m e l H) as (m1 & Hm1 & ->).
  assert (H1 : 0 <= m1).
  { assert (0 <= m / 2 ^ Z.max 0 (fexp prec emax (Zdigits2 m + e) - e))
      by (apply Z.div_pos; [lia | apply Z.pow_pos_nonneg; lia]).
    destruct Hm1 as [-> | ->]; lia. }
  match goal with |- notBelowZero (match ?x with _ => _ end) =>
    assert (Hq : 0 <= x) by (apply Z.div_pos; [lia | apply Z.pow_pos_nonneg; lia]);
    destruct x as [|q|q]; [exact I | | lia]
  end.
  destruct (_ <=? _); exact I.
Qed.

Lemma digits_of_bounds (m d : Z) : 2 ^ (d - 1) <= m < 2 ^ d -> 0 < d -> Zdigits2 m = d.
Proof.
  intros H Hd. destruct m as [|p|p].
  - assert (0 < 2 ^ (d - 1)) by (apply Z.pow_pos_nonneg; lia). lia.
  - cbn [Zdigits2]. now apply digits2_unique.
  - assert (0 < 2 ^ (d - 1)) by (apply Z.pow_pos_nonneg; lia). lia.
Qed.

Lemma fexp_normal (d : Z) : -1021 <= d -> fexp prec emax d = d - 53.
Proof. intros H. unfold fexp, emin, prec, emax. lia. Qed.

(** Rounding to nearest does not take a value below an integer of at most
    eight digits that the value is not below. *)
Lemma binary_round_above (c : Z) (M : positive) (ez : Z) :
  1 <= c <= 255 -> ez <= 0 -> c * 2 ^ (- ez) <= Z.pos M ->
  atLeast c (binary_round prec emax false M ez).
Proof.
  intros Hc Hez HM.
  pose proof (digits2_bounds M) as [Dlo Dhi].
  set (dM := Z.pos (digits2_pos M)) in *.
  assert (Hd : 1 <= dM + ez).
  { assert (2 ^ (- ez) < 2 ^ dM).
    { assert (0 < 2 ^ (- ez)) by (apply Z.pow_pos_nonneg; lia). nia. }
    apply Z.pow_lt_mono_r_iff in H; lia. }
  set (d := dM + ez) in *.
  unfold binary_round.
  rewrite (fexp_normal (Z.pos (digits2_pos M) + ez)) by (fold dM; lia).
  fold dM. fold d.
  destruct (shl_align_spec M ez (d - 53)) as [Hmz Hez1].
  destruct (shl_align M ez (d - 53)) as [mz ez1]. cbn [fst snd] in Hmz, Hez1.
  assert (Dmz : 2 ^ (d - ez1 - 1) <= Z.pos mz < 2 ^ (d - ez1)).
  { rewrite Hmz, <- Hez1.
    replace (d - ez1 - 1) with ((dM - 1) + (ez - ez1)) by lia.
    replace (d - ez1) with (dM + (ez - ez1)) by lia.
    rewrite !Z.pow_add_r by lia.
    assert (0 < 2 ^ (ez - ez1)) by (apply Z.pow_pos_nonneg; lia). nia. }
  assert (Hdig : Zdigits2 (Z.pos mz) + ez1 = d).
  { rewrite (digits_of_bounds (Z.pos mz) (d - ez1)); lia. }
  destruct (binary_round_aux_spec false (Z.pos mz) ez1 loc_Exact ltac:(lia))
    as (m1 & Hm1 & ->).
  rewrite Hdig in *. rewrite (fexp_normal d) in * by lia.
  set (n := Z.max 0 (d - 53 - ez1)) in *.
  assert (Hn : n = d - 53 - ez1) by lia.
  assert (He' : ez1 + n = d - 53) by lia. rewrite He' in *.
  assert (Pn : 0 < 2 ^ n) by (apply Z.pow_pos_nonneg; lia).
  set (m' := Z.pos mz / 2 ^ n) in *.
  assert (Hm' : 2 ^ 52 <= m' < 2 ^ 53).
  { subst m'. split.
    - apply Z.div_le_lower_bound; [lia|]. rewrite <- Z.pow_add_r by lia.
      replace (n + 52) with (d - ez1 - 1) by lia. lia.
    - apply Z.div_lt_upper_bound; [lia|]. rewrite <- Z.pow_add_r by lia.
      replace (n + 53) with (d - ez1) by lia. lia. }
  assert (Hcm : d - 53 < 0 -> c * 2 ^ (- (d - 53)) <= m').
  { intros Hneg. subst m'. apply Z.div_le_lower_bound; [lia|].
    rewrite Hmz. rewrite (Z.mul_comm (2 ^ n)), <- Z.mul_assoc, <- Z.pow_add_r by lia.
    replace (- (d - 53) + n) with (- ez + (ez - Z.min ez (d - 53))) by lia.
    rewrite Z.pow_add_r by lia.
    assert (0 < 2 ^ (ez - Z.min ez (d - 53))) by (apply Z.pow_pos_nonneg; lia). nia. }
  assert (P52 : 2 ^ 52 = 4503599627370496) by reflexivity.
  assert (P53 : 2 ^ 53 = 9007199254740992) by reflexivity.
  destruct (Z.eq_dec m1 (2 ^ 53)) as [Etop | Ntop].
  - (* the successor has one digit more *)
    rewrite Etop. change (Zdigits2 (2 ^ 53)) with 54.
    rewrite (fexp_normal (54 + (d - 53))) by lia.
    replace (Z.max 0 (54 + (d - 53) - 53 - (d - 53))) with 1 by lia.
    change (2 ^ 53 / 2 ^ 1) with (Z.pos 4503599627370496).
    destruct (_ <=? _); [|exact I]. cbn [atLeast].
    destruct (Z.leb_spec 0 (d - 53 + 1)) as [Hp | Hp].
    + assert (0 < 2 ^ (d - 53 + 1)) by (apply Z.pow_pos_nonneg; lia). nia.
    + specialize (Hcm ltac:(lia)).
      replace (- (d - 53)) with (- (d - 53 + 1) + 1) in Hcm by lia.
      rewrite Z.pow_add_r in Hcm by lia. change (2 ^ 1) with 2 in Hcm. lia.
  - assert (Hm1' : 2 ^ 52 <= m1 < 2 ^ 53) by (destruct Hm1 as [-> | ->]; lia).
    rewrite (digits_of_bounds m1 53) by (change (53 - 1) with 52; lia).
    rewrite (fexp_normal (53 + (d - 53))) by lia.
    replace (Z.max 0 (53 + (d - 53) - 53 - (d - 53))) with 0 by lia.
    change (2 ^ 0) with 1. rewrite Z.div_1_r, Z.add_0_r.
    destruct m1 as [|q|q]; try lia.
    destruct (_ <=? _); [|exact I]. cbn [atLeast].
    destruct (Z.leb_spec 0 (d - 53)) as [Hp | Hp].
    + assert (0 < 2 ^ (d - 53)) by (apply Z.pow_pos_nonneg; lia). nia.
    + specialize (Hcm Hp). destruct Hm1 as [E | E]; lia.
Qed.

End Binary64Rounding.

(** ** Lightening a colour *)
Section Lighten.
Local Open Scope string_scope.
Local Open Scope Z_scope.

(** A check on [0 .. n-1] by evaluation. *)
Lemma forallb_range (P : Z -> bool) (n : nat) :
  forallb P (map Z.of_nat (seq 0 n)) = true ->
  forall z, 0 <= z < Z.of_nat n -> P z = true.
Proof.
  intros H z Hz. rewrite forallb_forall in H. apply H.
  apply in_map_iff. exists (Z.to_nat z). split; [lia|].
  apply in_seq. lia.
Qed.

Lemma isInt_spec n lo hi :
  isInt n lo hi = true -> exists v, n = Int v /\ lo <= v <= hi.
Proof.
  destruct n as [v| | |]; cbn; try discriminate.
  intros H. apply andb_true_iff in H as [H1 H2]. exists v. split; [reflexivity|lia].
Qed.

Lemma mixChannel_zero c : 0 <= c <= 255 -> mixChannel 0 c = Int c.
Proof.
  intros Hc.
  assert (H : isInt (mixChannel 0 c) c c = true).
  { apply (forallb_range (fun z => isInt (mixChannel 0 z) z z) 256);
      [vm_compute; reflexivity | lia]. }
  apply isInt_spec in H as (v & -> & Hv). f_equal. lia.
Qed.

Lemma mixChannel_one c : 0 <= c <= 255 -> mixChannel 1 c = Int 255.
Proof.
  intros Hc.
  assert (H : isInt (mixChannel 1 c) 255 255 = true).
  { apply (forallb_range (fun z => isInt (mixChannel 1 z) 255 255) 256);
      [vm_compute; reflexivity | lia]. }
  apply isInt_spec in H as (v & -> & Hv). f_equal. lia.
Qed.

Lemma mixChannel_source_ratios ratio c :
  In ratio sourceRatios -> 0 <= c <= 255 ->
  exists v, mixChannel ratio c = Int v /\ c <= v <= 255.
Proof.
  intros Hr Hc.
  assert (H : forallb (fun r =>
                forallb (fun z => isInt (mixChannel r z) z 255)
                        (map Z.of_nat (seq 0 256))) sourceRatios = true)
    by (vm_compute; reflexivity).
  rewrite forallb_forall in H. specialize (H ratio Hr).
  apply isInt_spec. apply (forallb_range _ 256 H). lia.
Qed.

Lemma channelHex_digits d1 d2 :
  0 <= d1 <= 15 -> 0 <= d2 <= 15 ->
  channelHex (Int (16 * d1 + d2)) = String (hexChar d1) (String (hexChar d2) "").
Proof.
  intros H1 H2.
  assert (H : String.eqb (channelHex (Int (16 * d1 + d2)))
                (String (hexChar ((16 * d1 + d2) / 16))
                   (String (hexChar ((16 * d1 + d2) mod 16)) "")) = true).
  { apply (forallb_range
             (fun z => String.eqb (channelHex (Int z))
                         (String (hexChar (z / 16)) (String (hexChar (z mod 16)) "")))
             256); [vm_compute; reflexivity | lia]. }
  apply String.eqb_eq in H. rewrite H.
  replace ((16 * d1 + d2) / 16) with d1 by (Z.div_mod_to_equations; lia).
  replace ((16 * d1 + d2) mod 16) with d2 by (Z.div_mod_to_equations; lia).
  reflexivity.
Qed.

Lemma channelHex_pair c1 c2 v :
  hexPair c1 c2 = Some v ->
  channelHex (Int v) = String (lowerChar c1) (String (lowerChar c2) "").
Proof.
  unfold hexPair. intros H.
  destruct (hexDigitValue c1) as [d1|] eqn:H1; [|discriminate].
  destruct (hexDigitValue c2) as [d2|] eqn:H2; [|discriminate].
  cbn in H. inversion H; subst v.
  rewrite channelHex_digits by eauto using hexDigitValue_range.
  now rewrite (hexChar_lower _ _ H1), (hexChar_lower _ _ H2).
Qed.

(** Lines 66-70 on six digits: the number read and the three channels cut
    out of it. *)
Lemma parseInt16_hex6 c1 c2 c3 c4 c5 c6 r g b :
  hexPair c1 c2 = Some r -> hexPair c3 c4 = Some g -> hexPair c5 c6 = Some b ->
  parseInt16 (String c1 (String c2 (String c3 (String c4 (String c5 (String c6 ""))))))
  = Some (65536 * r + 256 * g + b).
Proof.
  unfold hexPair. intros Hr Hg Hb.
  destruct (hexDigitValue c1) as [d1|] eqn:H1; [|discriminate].
  destruct (hexDigitValue c2) as [d2|] eqn:H2; [|discriminate].
  destruct (hexDigitValue c3) as [d3|] eqn:H3; [|discriminate].
  destruct (hexDigitValue c4) as [d4|] eqn:H4; [|discriminate].
  destruct (hexDigitValue c5) as [d5|] eqn:H5; [|discriminate].
  destruct (hexDigitValue c6) as [d6|] eqn:H6; [|discriminate].
  cbn in Hr, Hg, Hb. inversion Hr; inversion Hg; inversion Hb; subst r g b.
  rewrite (parseInt16_digits _ _ _ _ _ H1 H2).
  cbn [hexPrefix]. rewrite H3. cbn [hexPrefix]. rewrite H4. cbn [hexPrefix].
  rewrite H5. cbn [hexPrefix]. rewrite H6. cbv [from_option Datatypes.id].
  f_equal. lia.
Qed.

Lemma channels_of_number r g b :
  0 <= r <= 255 -> 0 <= g <= 255 -> 0 <= b <= 255 ->
  let num := 65536 * r + 256 * g + b in
  Z.land (Z.shiftr num 16) 255 = r /\ Z.land (Z.shiftr num 8) 255 = g
  /\ Z.land num 255 = b.
Proof.
  intros Hr Hg Hb num. subst num.
  change 255 with (Z.ones 8).
  rewrite !Z.land_ones, !Z.shiftr_div_pow2 by lia.
  change (2 ^ 16) with 65536. change (2 ^ 8) with 256.
  repeat split; Z.div_mod_to_equations; lia.
Qed.

(** What [lightenColor] computes on six digits, for any ratio. *)
Lemma lightenColor_hex6 hex ratio R G B :
  rgbOfHex6 (replace_hash hex) = Some (R, G, B) ->
  lightenColor hex ratio
  = String "#" (channelHex (mixChannel ratio R) +:+ channelHex (mixChannel ratio G)
                +:+ channelHex (mixChannel ratio B))
  /\ 0 <= R <= 255 /\ 0 <= G <= 255 /\ 0 <= B <= 255.
Proof.
  intros H.
  assert (Hne : String.eqb hex "" = false).
  { apply replace_hash_nonempty. intros E. rewrite E in H. discriminate. }
  unfold lightenColor. rewrite Hne.
  destruct (replace_hash hex) as [|c1 [|c2 [|c3 [|c4 [|c5 [|c6 [|c7 s]]]]]]];
    try discriminate.
  cbn [rgbOfHex6] in H.
  destruct (hexPair c1 c2) as [r|] eqn:Hr; [|discriminate].
  destruct (hexPair c3 c4) as [g|] eqn:Hg; [|discriminate].
  destruct (hexPair c5 c6) as [b|] eqn:Hb; [|discriminate].
  cbn in H. inversion H; subst r g b; clear H.
  cbn [String.length Nat.eqb negb].
  rewrite (parseInt16_hex6 _ _ _ _ _ _ _ _ _ Hr Hg Hb).
  pose proof (hexPair_range _ _ _ Hr) as HR.
  pose proof (hexPair_range _ _ _ Hg) as HG.
  pose proof (hexPair_range _ _ _ Hb) as HB.
  destruct (channels_of_number R G B HR HG HB) as (-> & -> & ->).
  repeat split; lia.
Qed.

Lemma toLowerCase_hex6 s R G B :
  rgbOfHex6 s = Some (R, G, B) ->
  channelHex (Int R) +:+ channelHex (Int G) +:+ channelHex (Int B) = toLowerCase s.
Proof.
  intros H.
  destruct s as [|c1 [|c2 [|c3 [|c4 [|c5 [|c6 [|c7 s]]]]]]]; try discriminate.
  cbn [rgbOfHex6] in H.
  destruct (hexPair c1 c2) as [r|] eqn:Hr; [|discriminate].
  destruct (hexPair c3 c4) as [g|] eqn:Hg; [|discriminate].
  destruct (hexPair c5 c6) as [b|] eqn:Hb; [|discriminate].
  cbn in H. inversion H; subst r g b; clear H.
  rewrite (channelHex_pair _ _ _ Hr), (channelHex_pair _ _ _ Hg),
    (channelHex_pair _ _ _ Hb). reflexivity.
Qed.

Lemma append_nil (s : string) : "" +:+ s = s.
Proof. reflexivity. Qed.

Lemma append_cons (c : ascii) (s t : string) : String c s +:+ t = String c (s +:+ t).
Proof. reflexivity. Qed.

(** Two digits written for a channel read back as the channel. *)
Lemma channelHex_reads_back v :
  0 <= v <= 255 ->
  exists a b, channelHex (Int v) = String a (String b "") /\ hexPair a b = Some v.
Proof.
  intros Hv.
  assert (H : Ref2.readsBack v = true)
    by (apply (forallb_range Ref2.readsBack 256); [vm_compute; reflexivity | lia]).
  unfold Ref2.readsBack in H.
  destruct (channelHex (Int v)) as [|a [|b [|c s]]]; try discriminate.
  destruct (hexPair a b) as [w|] eqn:E; [|discriminate].
  apply Z.eqb_eq in H. subst w. now exists a, b.
Qed.

Lemma written_colour_reads_back R G B :
  0 <= R <= 255 -> 0 <= G <= 255 -> 0 <= B <= 255 ->
  Ref2.hasChannels
    (String "#" (channelHex (Int R) +:+ channelHex (Int G) +:+ channelHex (Int B))) R G B.
Proof.
  intros HR HG HB.
  destruct (channelHex_reads_back R HR) as (a1 & b1 & -> & E1).
  destruct (channelHex_reads_back G HG) as (a2 & b2 & -> & E2).
  destruct (channelHex_reads_back B HB) as (a3 & b3 & -> & E3).
  unfold Ref2.hasChannels. cbn [replace_hash]. change (Ascii.eqb "#" "#") with true.
  cbn match. rewrite !append_cons, !append_nil. cbn [rgbOfHex6].
  rewrite E1, E2, E3. reflexivity.
Qed.

End Lighten.

Section MixedChannels.
Import Binary64.
Local Open Scope Z_scope.

Lemma channelNumbers_all (c : Z) : 0 <= c <= 255 -> channelNumbers c = true.
Proof.
  intros H. apply (forallb_range channelNumbers 256); [vm_compute; reflexivity | lia].
Qed.

(** A number that is not below zero is a zero or positive. *)
Lemma ratio_not_below_zero (ratio : float) :
  is_finite ratio = true -> (0 <=? ratio)%float = true ->
  match Prim2SF ratio with
  | S754_zero _ | S754_finite false _ _ => True
  | _ => False
  end.
Proof.
  rewrite is_finite_SF, FloatAxioms.leb_spec.
  change (Prim2SF 0) with (S754_zero false). unfold SFleb, SFcompare.
  destruct (Prim2SF ratio) as [s | s | | [] m e]; cbn; intros; trivial; discriminate.
Qed.

Lemma SFmul_not_below_zero (x y : spec_float) :
  match x with S754_zero false | S754_finite false _ _ => True | _ => False end ->
  match y with S754_zero _ | S754_finite false _ _ => True | _ => False end ->
  notBelowZero (SF64mul x y).
Proof.
  destruct x as [[] | | | [] mx ex]; try contradiction;
    destruct y as [s | | | [] my ey]; try contradiction; intros _ _;
    try exact I.
  apply binary_round_aux_sign. lia.
Qed.

(** What [Math.round] makes of a value that is at least [c]. *)
Lemma Math_round_atLeast (c : Z) (x : float) :
  atLeast c (Prim2SF x) ->
  Math_round x = PosInfinity \/ exists v, Math_round x = Int v /\ c <= v.
Proof.
  unfold Math_round, atLeast.
  destruct (Prim2SF x) as [s | [] | | [] m e]; try contradiction.
  - intros _. now left.
  - destruct (Z.leb_spec 0 e) as [He | He]; intros H; right.
    + eexists. split; [reflexivity | exact H].
    + eexists. split; [reflexivity|].
      assert (P : 0 < 2 ^ (- e)) by (apply Z.pow_pos_nonneg; lia).
      apply Z.div_le_lower_bound.
      * apply Z.pow_pos_nonneg; lia.
      * rewrite Z.pow_add_r by lia. change (2 ^ 1) with 2. nia.
Qed.

Lemma Math_round_positive (x : float) (m : positive) (e : Z) :
  Prim2SF x = S754_finite false m e -> exists v, Math_round x = Int v /\ 0 <= v.
Proof.
  intros E. unfold Math_round. rewrite E.
  destruct (Z.leb_spec 0 e) as [He | He]; eexists; (split; [reflexivity|]).
  - assert (0 < 2 ^ e) by (apply Z.pow_pos_nonneg; lia). nia.
  - assert (P : 0 < 2 ^ (- e)) by (apply Z.pow_pos_nonneg; lia).
    apply Z.div_pos; [lia | apply Z.pow_pos_nonneg; lia].
Qed.

(** The sum of a channel [c >= 1] and a value that is not below zero is at
    least [c]. *)
Lemma SFadd_channel (c : Z) (mc : positive) (ec : Z) (y : spec_float) :
  1 <= c <= 255 -> ec < 0 -> Z.pos mc = c * 2 ^ (- ec) ->
  notBelowZero y ->
  atLeast c (SF64add (S754_finite false mc ec) y).
Proof.
  intros Hc Hec Hmc Hy. unfold SF64add.
  destruct y as [s | [] | | [] my ey]; try contradiction; cbn [SFadd].
  - cbn [atLeast]. destruct (Z.leb_spec 0 ec); [lia|]. rewrite Hmc. apply Z.le_refl.
  - exact I.
  - cbn [cond_Zopp].
    destruct (shl_align_spec mc ec (Z.min ec ey)) as [Ha _].
    rewrite (Z.min_r ec (Z.min ec ey)) in Ha by lia.
    set (a := fst (shl_align mc ec (Z.min ec ey))) in *.
    set (b := fst (shl_align my ey (Z.min ec ey))).
    change (Z.pos a + Z.pos b) with (Z.pos (a + b)). cbn [binary_normalize].
    apply binary_round_above; [exact Hc | lia |].
    rewrite Pos2Z.inj_add, Ha, Hmc.
    rewrite <- Z.mul_assoc, <- Z.pow_add_r by lia.
    replace (- ec + (ec - Z.min ec ey)) with (- Z.min ec ey) by lia.
    pose proof (Pos2Z.is_pos b) as Hb. revert Hb.
    generalize (c * 2 ^ (- Z.min ec ey)) (Z.pos b). intros; lia.
Qed.

(** For every ratio that is a number and not below zero, a channel is
    mapped to an integer between itself and 255. *)
Lemma mixChannel_bounds (ratio : float) (c : Z) :
  is_finite ratio = true -> (0 <=? ratio)%float = true -> 0 <= c <= 255 ->
  exists v, mixChannel ratio c = Int v /\ c <= v <= 255.
Proof.
  intros Hf H0 Hc.
  pose proof (ratio_not_below_zero ratio Hf H0) as Hr.
  pose proof (channelNumbers_all c Hc) as Hn.
  unfold channelNumbers in Hn. apply andb_true_iff in Hn as [Hn1 Hn2].
  unfold mixChannel.
  set (x := (float_of_Z c + (255 - float_of_Z c) * ratio)%float).
  assert (Ex : Prim2SF x
               = SF64add (Prim2SF (float_of_Z c))
                   (SF64mul (Prim2SF (255 - float_of_Z c)%float) (Prim2SF ratio))).
  { subst x. rewrite FloatAxioms.add_spec, FloatAxioms.mul_spec. reflexivity. }
  assert (Hy : notBelowZero
                 (SF64mul (Prim2SF (255 - float_of_Z c)%float) (Prim2SF ratio))).
  { apply SFmul_not_below_zero; [|exact Hr].
    destruct (Prim2SF (255 - float_of_Z c)%float) as [[] | | | [] md ed];
      try discriminate; exact I. }
  set (y := SF64mul (Prim2SF (255 - float_of_Z c)%float) (Prim2SF ratio)) in *.
  assert (Hx : Math_round x = PosInfinity
               \/ exists v, Math_round x = Int v /\ c <= v).
  { destruct (Prim2SF (float_of_Z c)) as [[] | | | [] mc ec] eqn:Ec; try discriminate.
    - (* the channel is 0 *)
      apply Z.eqb_eq in Hn1. subst c.
      destruct y as [s | [] | | [] my ey] eqn:Ey; try contradiction.
      + right. exists 0. split; [|lia]. unfold Math_round. rewrite Ex.
        destruct s; reflexivity.
      + left. unfold Math_round. rewrite Ex. reflexivity.
      + right. apply (Math_round_positive x my ey). rewrite Ex. reflexivity.
    - apply andb_true_iff in Hn1 as [He Hm].
      apply Z.ltb_lt in He. apply Z.eqb_eq in Hm.
      assert (1 <= c).
      { destruct (Z.eq_dec c 0) as [-> | ]; [|lia]. lia. }
      apply Math_round_atLeast. rewrite Ex.
      apply SFadd_channel; trivial. lia. }
  destruct Hx as [-> | (v & -> & Hv)]; cbn [Math_min_255].
  - exists 255. split; [reflexivity | lia].
  - exists (Z.min 255 v). split; [reflexivity | lia].
Qed.

End MixedChannels.

Section LightenLaws.
Local Open Scope string_scope.
Local Open Scope Z_scope.

(** C7, as stated, fails: the holiday background [#C8E6C9] that the source
    itself lightens comes back at ratio 0 as [#c8e6c9], and a colour
    without [#] comes back with one.  Only the upper bound of a channel is
    enforced: at ratio -1 the channels of [#3174ad] are -157, -23 and 91. *)
Lemma lighten_zero_changes_spelling :
  lightenColor "#C8E6C9" 0 = "#c8e6c9" /\ lightenColor "#C8E6C9" 0 <> "#C8E6C9"
  /\ lightenColor "3174ad" 0 = "#3174ad"
  /\ mixChannel (-1) 49 = Int (-157)
  /\ lightenColor "#3174ad" (-1) = "#-9d-175b".
Proof. vm_compute. repeat split; congruence. Qed.

(** C7, amended.  For a colour of six radix-16 digits (after the first [#]
    is removed): at ratio 0 the result is [#] followed by the digits in
    lower case, hence the input itself when the input is already spelled
    that way; at ratio 1 the result is [#ffffff]; and for every ratio that
    is a number and not below zero, so for every ratio in [0, 1] and for
    the ratios the source uses, a channel [c] in [0, 255] is mapped to an
    integer between [c] and 255, and the result is again a colour of six
    digits, each channel of which lies between the input channel and
    255. *)
Theorem lighten_boundary_laws (hex : string) (R G B : Z) :
  rgbOfHex6 (replace_hash hex) = Some (R, G, B) ->
  lightenColor hex 0 = String "#" (toLowerCase (replace_hash hex))
  /\ (hex = String "#" (toLowerCase (replace_hash hex)) -> lightenColor hex 0 = hex)
  /\ lightenColor hex 1 = "#ffffff"
  /\ (forall c, 0 <= c <= 255 ->
        mixChannel 0 c = Int c /\ mixChannel 1 c = Int 255
        /\ forall ratio, In ratio sourceRatios ->
             exists v, mixChannel ratio c = Int v /\ c <= v <= 255)
  /\ (forall ratio c,
        is_finite ratio = true -> (0 <=? ratio)%float = true -> 0 <= c <= 255 ->
        exists v, mixChannel ratio c = Int v /\ c <= v <= 255)
  /\ (forall ratio,
        is_finite ratio = true -> (0 <=? ratio)%float = true ->
        exists R' G' B',
          rgbOfHex6 (replace_hash (lightenColor hex ratio)) = Some (R', G', B')
          /\ R <= R' <= 255 /\ G <= G' <= 255 /\ B <= B' <= 255).
Proof.
  intros H.
  assert (H0 : lightenColor hex 0 = String "#" (toLowerCase (replace_hash hex))).
  { destruct (lightenColor_hex6 hex 0 R G B H) as (-> & HR & HG & HB).
    rewrite !mixChannel_zero by assumption.
    now rewrite (toLowerCase_hex6 _ _ _ _ H). }
  split; [exact H0|]. split; [intros E; now rewrite H0, <- E|].
  split; [|split; [|split]].
  - destruct (lightenColor_hex6 hex 1 R G B H) as (-> & HR & HG & HB).
    rewrite !mixChannel_one by assumption. reflexivity.
  - intros c Hc. split; [now apply mixChannel_zero|].
    split; [now apply mixChannel_one|].
    intros ratio Hr. now apply mixChannel_source_ratios.
  - intros ratio c Hf Hr Hc. now apply mixChannel_bounds.
  - intros ratio Hf Hr.
    destruct (lightenColor_hex6 hex ratio R G B H) as (-> & HR & HG & HB).
    destruct (mixChannel_bounds ratio R Hf Hr HR) as (R' & -> & HR').
    destruct (mixChannel_bounds ratio G Hf Hr HG) as (G' & -> & HG').
    destruct (mixChannel_bounds ratio B Hf Hr HB) as (B' & -> & HB').
    exists R', G', B'. split; [|lia].
    apply written_colour_reads_back; lia.
Qed.

Lemma lighten_boundary_laws_witness :
  rgbOfHex6 (replace_hash "#3174ad") = Some (49, 116, 173)
  /\ lightenColor "#3174ad" 0 = "#3174ad"
  /\ lightenColor "#3174ad" 1 = "#ffffff"
  /\ (exists v, mixChannel 0.5 49 = Int v /\ 49 <= v <= 255)
  /\ (exists R' G' B',
        rgbOfHex6 (replace_hash (lightenColor "#3174ad" 0.5)) = Some (R', G', B')
        /\ 49 <= R' <= 255 /\ 116 <= G' <= 255 /\ 173 <= B' <= 255).
Proof.
  assert (H : rgbOfHex6 (replace_hash "#3174ad") = Some (49, 116, 173)) by reflexivity.
  split; [exact H|].
  destruct (lighten_boundary_laws "#3174ad" 49 116 173 H) as (_ & Hid & H1 & _ & Hc & Hs).
  split; [apply Hid; reflexivity|]. split; [exact H1|]. split.
  - apply Hc; [reflexivity | reflexivity | lia].
  - apply Hs; reflexivity.
Defined.

Lemma hexPrefix_Some s a : hexPrefix s (Some a) <> None.
Proof.
  revert a. induction s as [|c s IH]; intros a; cbn; [discriminate|].
  destruct (hexDigitValue c); [apply IH | discriminate].
Qed.

(** [parseInt] yields [NaN] exactly when no digit leads the string. *)
Lemma parseInt16_None_iff s : parseInt16 s = None <-> leadingDigit s = None.
Proof.
  unfold parseInt16, leadingDigit.
  destruct (stripSign (trimStart s)) as [sign s2]. cbn [snd].
  destruct (strip0x s2) as [|c s3]; cbn; [tauto|].
  destruct (hexDigitValue c) as [d|]; cbn; [|tauto].
  pose proof (hexPrefix_Some s3 (16 * 0 + d)) as Hn.
  destruct (hexPrefix s3 (Some (16 * 0 + d))); cbn; [|congruence].
  split; discriminate.
Qed.

(** C10, as stated, fails in its closing clause: [12zzzz] is not a string
    of six radix-16 digits, yet [parseInt] reads its prefix [12] and the
    input is transformed. *)
Lemma lighten_transforms_partly_hex_input :
  rgbOfHex6 (replace_hash "12zzzz") = None
  /\ lightenColor "12zzzz" 1 = "#ffffff"
  /\ lightenColor "12zzzz" 0 = "#000012".
Proof. vm_compute. repeat split; reflexivity. Qed.

(** C10, amended.  For every ratio, [lightenColor] returns its input as it
    is when the input is empty, does not have six characters once its first
    [#] is removed, or has no leading radix-16 digit for [parseInt] to read
    (after white space, a sign and a [0x] prefix).  On the first two kinds
    of input the text colour function returns its fixed default instead. *)
Theorem lighten_returns_rejected_input (hex : string) (ratio : float) :
  hex = "" \/ String.length (replace_hash hex) <> 6%nat
  \/ leadingDigit (replace_hash hex) = None ->
  lightenColor hex ratio = hex
  /\ (hex = "" \/ String.length (replace_hash hex) <> 6%nat ->
      forall preferLight, getAdaptiveTextColor hex preferLight = safeDefault preferLight).
Proof.
  intros H. split.
  - unfold lightenColor.
    destruct (String.eqb hex "") eqn:He; [reflexivity|].
    destruct (Nat.eqb_spec (String.length (replace_hash hex)) 6) as [Hl|Hl];
      cbn [negb]; [|reflexivity].
    destruct H as [-> | [H | H]]; [discriminate | contradiction |].
    apply parseInt16_None_iff in H. now rewrite H.
  - intros Hb preferLight. now apply text_color_default_on_bad_length.
Qed.

Lemma lighten_returns_rejected_input_witness :
  leadingDigit (replace_hash "#zzzzzz") = None
  /\ lightenColor "#zzzzzz" 0.88 = "#zzzzzz".
Proof.
  assert (H : leadingDigit (replace_hash "#zzzzzz") = None) by reflexivity.
  split; [exact H|].
  apply (lighten_returns_rejected_input "#zzzzzz" 0.88). right. right. exact H.
Defined.

End LightenLaws.

(** ** Event conversion *)
Section ConversionPasses.
Local Open Scope string_scope.
Local Open Scope Z_scope.
Variable tz : Z.
Variable now : Z.
Variable p : Props.

Lemma push_spec {A} (f : A -> FullCalendarEvent) l acc :
  push f acc l = (acc ++ map f l)%list.
Proof.
  unfold push. revert acc. induction l as [|x l IH]; intros acc; cbn.
  - now rewrite app_nil_r.
  - rewrite IH, <- app_assoc. reflexivity.
Qed.

Lemma bind_Normal {A B} (m : Completion A) (f : A -> Completion B) (b : B) :
  (m ≫= f) = Normal b <-> exists a, m = Normal a /\ f a = Normal b.
Proof.
  destruct m as [a|]; cbn; split.
  - intros H. eauto.
  - intros (a' & [= <-] & H). exact H.
  - discriminate.
  - intros (a' & H & _). discriminate.
Qed.

Lemma bind_TypeError {A B} (m : Completion A) (f : A -> Completion B) :
  (m ≫= f) = TypeError <-> m = TypeError \/ exists a, m = Normal a /\ f a = TypeError.
Proof.
  destruct m as [a|]; cbn; split.
  - intros H. right. eauto.
  - intros [H | (a' & [= <-] & H)]; [discriminate | exact H].
  - intros _. now left.
  - reflexivity.
Qed.

Lemma forEach_push {A} (f : A -> FullCalendarEvent) l acc :
  forEach (fun acc x => out ← Normal (f x); Normal (acc ++ [out])%list) l acc
  = Normal (acc ++ map f l)%list.
Proof.
  revert acc. induction l as [|x l IH]; intros acc; cbn.
  - now rewrite app_nil_r.
  - rewrite IH, <- app_assoc. reflexivity.
Qed.

Lemma pushCalendar_spec acc entry :
  pushCalendar tz now p acc entry
  = (evs ← ownerEvents tz now p entry; Normal (acc ++ evs)%list).
Proof.
  destruct entry as [email userEvents]. unfold pushCalendar, ownerEvents.
  cbn [fst snd]. fold (ownerColor p email). fold (ownerName p email).
  destruct (ownerColor p email) as [c|]; cbn [withColor].
  - rewrite (forEach_push (personalEvent tz now p email (ownerName p email) c)).
    destruct userEvents; cbn; [now rewrite app_nil_r | reflexivity].
  - destruct userEvents; cbn; [now rewrite app_nil_r | reflexivity].
Qed.

Lemma forEach_pushCalendar l : forall acc,
  forEach (pushCalendar tz now p) l acc
  = (evs ← collect (ownerEvents tz now p) l; Normal (acc ++ evs)%list).
Proof.
  induction l as [|e l IH]; intros acc; cbn [forEach collect].
  - cbn. now rewrite app_nil_r.
  - rewrite pushCalendar_spec.
    destruct (ownerEvents tz now p e) as [evs|]; cbn; [|reflexivity].
    rewrite IH. destruct (collect (ownerEvents tz now p) l); cbn; [|reflexivity].
    now rewrite app_assoc.
Qed.

Lemma forEach_pushOncall l : forall acc,
  forEach (pushOncall tz now p) l acc
  = (evs ← collect (oncallDisplay tz now p) l; Normal (acc ++ evs)%list).
Proof.
  induction l as [|e l IH]; intros acc; cbn [forEach collect].
  - cbn. now rewrite app_nil_r.
  - assert (E : pushOncall tz now p acc e
               = (evs ← oncallDisplay tz now p e; Normal (acc ++ evs)%list)).
    { unfold pushOncall, oncallDisplay. fold (oncallColor p e).
      destruct (oncallColor p e); reflexivity. }
    rewrite E. destruct (oncallDisplay tz now p e) as [evs|]; cbn; [|reflexivity].
    rewrite IH. destruct (collect (oncallDisplay tz now p) l); cbn; [|reflexivity].
    now rewrite app_assoc.
Qed.

(** The three passes, one after the other. *)
Lemma events_spec :
  events tz now p
  = (personal ← collect (ownerEvents tz now p)
                  (List.filter (isSelectedOwner p) (calendars p));
     oncall ← oncallPass tz now p;
     Normal (personal ++ holidayPass tz now p ++ oncall)%list).
Proof.
  unfold events, holidayPass, oncallPass.
  rewrite forEach_pushCalendar. fold (isSelectedOwner p).
  destruct (collect _ _) as [personal|]; cbn [mbind Completion_bind app]; [|reflexivity].
  destruct (showOncall p); cbn [andb].
  - destruct (oncallEvents p) as [|o os] eqn:Eo; cbn [length Nat.ltb Nat.leb].
    + cbn. destruct (showHolidays p); rewrite ?push_spec, ?app_nil_r; reflexivity.
    + rewrite forEach_pushOncall.
      destruct (collect (oncallDisplay tz now p) (o :: os)); cbn; [|reflexivity].
      destruct (showHolidays p); rewrite ?push_spec, <- ?app_assoc; reflexivity.
  - cbn. destruct (showHolidays p); rewrite ?push_spec, ?app_nil_r; reflexivity.
Qed.

Lemma collect_In {A B} (f : A -> Completion (list B)) l r x :
  collect f l = Normal r -> In x r ->
  exists a ra, In a l /\ f a = Normal ra /\ In x ra.
Proof.
  revert r. induction l as [|a l IH]; intros r; cbn [collect].
  - intros [= <-] [].
  - destruct (f a) as [ra|] eqn:Ea; cbn; [|discriminate].
    destruct (collect f l) as [rs|]; cbn; [|discriminate].
    intros [= <-] Hin. apply in_app_or in Hin as [Hin | Hin].
    + exists a, ra. auto.
    + destruct (IH rs eq_refl Hin) as (a' & ra' & Ha & Hf & Hx).
      exists a', ra'. auto.
Qed.

Lemma collect_incl {A B} (f : A -> Completion (list B)) l r a :
  collect f l = Normal r -> In a l ->
  exists ra, f a = Normal ra /\ incl ra r.
Proof.
  revert r. induction l as [|a' l IH]; intros r; cbn [collect]; [intros _ []|].
  destruct (f a') as [ra'|] eqn:Ea; cbn; [|discriminate].
  destruct (collect f l) as [rs|]; cbn; [|discriminate].
  intros [= <-] [<- | Hin].
  - exists ra'. split; [exact Ea|]. intros x Hx. apply in_or_app. now left.
  - destruct (IH rs eq_refl Hin) as (ra & Hf & Hi).
    exists ra. split; [exact Hf|]. intros x Hx. apply in_or_app. right. now apply Hi.
Qed.

Lemma collect_TypeError {A B} (f : A -> Completion (list B)) l :
  collect f l = TypeError <-> exists a, In a l /\ f a = TypeError.
Proof.
  induction l as [|a l IH]; cbn [collect].
  - split; [discriminate | intros (a & [] & _)].
  - rewrite bind_TypeError. split.
    + intros [H | (ra & Hf & H)]; [exists a; split; [now left | exact H]|].
      apply bind_TypeError in H as [H | (rs & _ & H)]; [|discriminate].
      apply IH in H as (a' & Hin & Hf'). exists a'. split; [now right | exact Hf'].
    + intros (a' & [<- | Hin] & Hf); [now left|].
      destruct (f a) as [ra|]; [|now left]. right. exists ra. split; [reflexivity|].
      apply bind_TypeError. left. apply IH. eauto.
Qed.

Lemma collect_Forall2 {A B C} (f : A -> Completion (list B)) (g : A -> list C)
    (R : B -> C -> Prop) l r :
  (forall a ra, In a l -> f a = Normal ra -> Forall2 R ra (g a)) ->
  collect f l = Normal r -> Forall2 R r (concat (map g l)).
Proof.
  revert r. induction l as [|a l IH]; intros r H; cbn [collect map concat].
  - intros [= <-]. constructor.
  - destruct (f a) as [ra|] eqn:Ea; cbn; [|discriminate].
    destruct (collect f l) as [rs|]; cbn; [|discriminate].
    intros [= <-]. apply Forall2_app.
    + apply H; [now left | exact Ea].
    + apply IH; [|reflexivity]. intros a' ra' Hin. apply H. now right.
Qed.

(** Every display event of a returned list comes from one of the three
    passes, and every display event the passes make is in the list. *)
Lemma events_origin evs out :
  events tz now p = Normal evs -> In out evs -> Ref2.Origin tz now p out.
Proof.
  rewrite events_spec. intros E Hin.
  apply bind_Normal in E as (personal & Hp & E).
  apply bind_Normal in E as (oncall & Ho & [= <-]).
  apply in_app_or in Hin as [Hin | Hin]; [|apply in_app_or in Hin as [Hin | Hin]].
  - destruct (collect_In _ _ _ _ Hp Hin) as ([email userEvents] & ra & Hf & Hr & Hx).
    apply filter_In in Hf as [Hc Hs].
    unfold ownerEvents in Hr. cbn [fst snd] in Hr.
    destruct userEvents as [|e0 l0] eqn:El; [injection Hr as <-; contradiction|].
    rewrite <- El in *. clear El e0 l0.
    destruct (ownerColor p email) as [c|] eqn:Ec; [|discriminate].
    injection Hr as <-. apply in_map_iff in Hx as (e & <- & He).
    refine (Ref2.FromOwner _ _ _ _ email userEvents e Hc _ He c Ec eq_refl).
    unfold isSelectedOwner in Hs. cbn [fst] in Hs.
    apply existsb_exists in Hs as (x & Hx & E). apply String.eqb_eq in E. now subst x.
  - unfold holidayPass in Hin. destruct (showHolidays p) eqn:Hs; [|contradiction].
    apply in_map_iff in Hin as (h & <- & Hh).
    exact (Ref2.FromHoliday _ _ _ _ h Hs Hh eq_refl).
  - unfold oncallPass in Ho. destruct (showOncall p) eqn:Hs;
      [|injection Ho as <-; contradiction].
    destruct (collect_In _ _ _ _ Ho Hin) as (e & ra & He & Hr & Hx).
    unfold oncallDisplay in Hr. destruct (oncallColor p e) as [c|] eqn:Ec; [|discriminate].
    injection Hr as <-. destruct Hx as [<- | []].
    exact (Ref2.FromOncall _ _ _ _ e Hs He c Ec eq_refl).
Qed.

Lemma origin_in_events evs out :
  events tz now p = Normal evs -> Ref2.Origin tz now p out -> In out evs.
Proof.
  rewrite events_spec. intros E.
  apply bind_Normal in E as (personal & Hp & E).
  apply bind_Normal in E as (oncall & Ho & [= <-]).
  intros [email userEvents e Hc Hs He c Ec -> | h Hs Hh -> | e Hs He c Ec ->].
  - apply in_or_app. left.
    destruct (collect_incl _ _ _ (email, userEvents) Hp) as (ra & Hr & Hi).
    + apply filter_In. split; [exact Hc|].
      unfold isSelectedOwner. apply existsb_exists. exists email.
      split; [exact Hs | apply String.eqb_refl].
    + apply Hi. unfold ownerEvents in Hr. cbn [fst snd] in Hr.
      destruct userEvents as [|e0 l0] eqn:El; [contradiction|].
      rewrite <- El in *. rewrite Ec in Hr. injection Hr as <-. now apply in_map.
  - apply in_or_app. right. apply in_or_app. left.
    unfold holidayPass. rewrite Hs. now apply in_map.
  - apply in_or_app. right. apply in_or_app. right.
    unfold oncallPass in Ho. rewrite Hs in Ho.
    destruct (collect_incl _ _ _ e Ho He) as (ra & Hr & Hi).
    apply Hi. unfold oncallDisplay in Hr. rewrite Ec in Hr. injection Hr as <-.
    now left.
Qed.

End ConversionPasses.

Section ConversionLaws.
Local Open Scope string_scope.
Local Open Scope Z_scope.

(** The colour map owns a value that is not a string only under a key of
    [Object.prototype]. *)
Lemma userColorMap_NotString us overrides key :
  userColorMap us overrides !! key = Some NotString -> inherited key = true.
Proof.
  unfold userColorMap.
  assert (H : forall (m : gmap string ColorValue),
             (m !! key = Some NotString -> inherited key = true) ->
             foldl (fun map u =>
                      assign map (email u)
                        match get overrides (email u) with
                        | Own c => Str c
                        | Inherited => NotString
                        | Undefined => Str (color u)
                        end) m us !! key = Some NotString ->
             inherited key = true).
  { induction us as [|u us IH]; intros m Hm; cbn [foldl]; [exact Hm|].
    apply IH. unfold assign.
    destruct (String.eqb (email u) "__proto__"); [exact Hm|].
    destruct (decide (email u = key)) as [-> | Hne].
    - rewrite lookup_insert_eq. unfold get.
      destruct (overrides !! key); [discriminate|].
      destruct (inherited key); [reflexivity | discriminate].
    - rewrite lookup_insert_ne by exact Hne. exact Hm. }
  apply H. rewrite lookup_empty. discriminate.
Qed.

Lemma colorOr_NotString us overrides key fallback :
  colorOr (userColorMap us overrides) key fallback = NotString -> inherited key = true.
Proof.
  unfold colorOr, get.
  destruct (userColorMap us overrides !! key) as [[c|]|] eqn:E.
  - discriminate.
  - intros _. exact (userColorMap_NotString _ _ _ E).
  - destruct (inherited key); [reflexivity | discriminate].
Qed.

Lemma userColorMap_snoc us u overrides :
  userColorMap (us ++ [u]) overrides
  = assign (userColorMap us overrides) (email u)
      match get overrides (email u) with
      | Own c => Str c
      | Inherited => NotString
      | Undefined => Str (color u)
      end.
Proof. unfold userColorMap. now rewrite foldl_app. Qed.

Lemma lookup_assign map key value key' :
  assign map key value !! key'
  = if String.eqb key "__proto__" then map !! key'
    else if decide (key = key') then Some value else map !! key'.
Proof.
  unfold assign. destruct (String.eqb key "__proto__"); [reflexivity|].
  destruct (decide (key = key')) as [-> | Hne].
  - apply lookup_insert_eq.
  - now apply lookup_insert_ne.
Qed.

Lemma userColorMap_absent us overrides e :
  ~ In e (map email us) -> userColorMap us overrides !! e = None.
Proof.
  induction us as [|u us IH] using rev_ind; intros Hn; [reflexivity|].
  rewrite userColorMap_snoc, lookup_assign.
  rewrite map_app, in_app_iff in Hn. cbn in Hn.
  destruct (String.eqb (email u) "__proto__"); [apply IH; tauto|].
  destruct (decide (email u = e)) as [E | E]; [tauto | apply IH; tauto].
Qed.

Lemma userColorMap_proto us overrides : userColorMap us overrides !! "__proto__" = None.
Proof.
  induction us as [|u us IH] using rev_ind; [reflexivity|].
  rewrite userColorMap_snoc, lookup_assign.
  destruct (String.eqb_spec (email u) "__proto__") as [E | E]; [exact IH|].
  destruct (decide (email u = "__proto__")); [contradiction | exact IH].
Qed.

Lemma userColorMap_override us overrides e c :
  In e (map email us) -> e <> "__proto__" -> overrides !! e = Some c ->
  userColorMap us overrides !! e = Some (Str c).
Proof.
  intros Hin Hp Ho. induction us as [|u us IH] using rev_ind; [contradiction|].
  rewrite userColorMap_snoc, lookup_assign.
  destruct (decide (email u = e)) as [E | E].
  - subst e. apply String.eqb_neq in Hp. rewrite Hp.
    unfold get. rewrite Ho. reflexivity.
  - assert (H : userColorMap us overrides !! e = Some (Str c)).
    { apply IH. rewrite map_app, in_app_iff in Hin. cbn in Hin. tauto. }
    destruct (String.eqb (email u) "__proto__"); exact H.
Qed.

Lemma userColorMap_inherited us overrides e :
  In e (map email us) -> e <> "__proto__" -> overrides !! e = None ->
  inherited e = true ->
  userColorMap us overrides !! e = Some NotString.
Proof.
  intros Hin Hp Ho Hi. induction us as [|u us IH] using rev_ind; [contradiction|].
  rewrite userColorMap_snoc, lookup_assign.
  destruct (decide (email u = e)) as [E | E].
  - subst e. apply String.eqb_neq in Hp. rewrite Hp.
    unfold get. rewrite Ho, Hi. reflexivity.
  - assert (H : userColorMap us overrides !! e = Some NotString).
    { apply IH. rewrite map_app, in_app_iff in Hin. cbn in Hin. tauto. }
    destruct (String.eqb (email u) "__proto__"); exact H.
Qed.

(** The lookup finds a value that is not a string exactly under a property
    name of [Object.prototype] under which the map owns no string. *)
Lemma colorOr_fails us overrides key fallback :
  colorOr (userColorMap us overrides) key fallback = NotString
  <-> inherited key = true
      /\ (key = "__proto__" \/ ~ In key (map email us) \/ overrides !! key = None).
Proof.
  split.
  - intros H. split; [exact (colorOr_NotString _ _ _ _ H)|].
    destruct (decide (key = "__proto__")) as [Hp | Hp]; [now left|].
    destruct (In_dec string_dec key (map email us)) as [Hin | Hn]; [|now right; left].
    destruct (overrides !! key) as [c|] eqn:Ho; [|now right; right].
    unfold colorOr, get in H.
    rewrite (userColorMap_override _ _ _ _ Hin Hp Ho) in H. discriminate.
  - intros [Hi Hcase]. unfold colorOr, get.
    destruct (decide (key = "__proto__")) as [-> | Hp].
    { now rewrite userColorMap_proto. }
    destruct (In_dec string_dec key (map email us)) as [Hin | Hn].
    2:{ now rewrite (userColorMap_absent _ _ _ Hn), Hi. }
    destruct Hcase as [E | [Hn | Ho]]; [contradiction | contradiction |].
    now rewrite (userColorMap_inherited _ _ _ Hin Hp Ho Hi).
Qed.

Lemma ownerColor_fails p key : ownerColor p key = NotString <-> findsPrototypeMember p key.
Proof. apply colorOr_fails. Qed.

Lemma oncallColor_fails p event :
  oncallColor p event = NotString <-> findsPrototypeMember p (userEmail event).
Proof. apply colorOr_fails. Qed.

Lemma ownerEvents_TypeError tz now p entry :
  ownerEvents tz now p entry = TypeError
  <-> snd entry <> [] /\ ownerColor p (fst entry) = NotString.
Proof.
  unfold ownerEvents. destruct (snd entry) as [|e l].
  - split; [discriminate | intros [H _]; now elim H].
  - destruct (ownerColor p (fst entry)); cbn; split;
      try discriminate; intros; intuition discriminate.
Qed.

Lemma oncallDisplay_TypeError tz now p event :
  oncallDisplay tz now p event = TypeError <-> oncallColor p event = NotString.
Proof.
  unfold oncallDisplay. destruct (oncallColor p event); cbn; split;
    try discriminate; reflexivity.
Qed.

(** The conversion throws exactly when a colour lookup fails. *)
Lemma events_TypeError tz now p :
  events tz now p = TypeError <-> colorLookupFails p.
Proof.
  rewrite events_spec, bind_TypeError, collect_TypeError. unfold colorLookupFails.
  split.
  - intros [(entry & Hin & Hf) | (personal & _ & H)].
    + left. apply filter_In in Hin as [Hc Hs].
      apply (ownerEvents_TypeError tz now) in Hf as [Hne Hcol].
      apply ownerColor_fails in Hcol.
      exists entry. repeat split; try assumption; try apply Hcol.
      unfold isSelectedOwner in Hs. apply existsb_exists in Hs as (x & Hx & E).
      apply String.eqb_eq in E. now subst x.
    + right. apply bind_TypeError in H as [H | (oncall & _ & H)]; [|discriminate].
      unfold oncallPass in H. destruct (showOncall p); [|discriminate].
      split; [reflexivity|]. apply collect_TypeError in H as (e & Hin & Hf).
      exists e. split; [exact Hin|]. apply oncallColor_fails.
      exact (proj1 (oncallDisplay_TypeError tz now p e) Hf).
  - intros [(entry & Hc & Hs & Hne & Hcol) | (Hs & e & Hin & Hcol)].
    + apply ownerColor_fails in Hcol.
      left. exists entry. split.
      * apply filter_In. split; [exact Hc|]. unfold isSelectedOwner.
        apply existsb_exists. exists (fst entry). split; [exact Hs | apply String.eqb_refl].
      * now apply ownerEvents_TypeError.
    + apply oncallColor_fails in Hcol.
      destruct (collect (ownerEvents tz now p)
                  (List.filter (isSelectedOwner p) (calendars p))) as [personal|] eqn:E.
      * right. exists personal. split; [reflexivity | apply bind_TypeError; left].
        unfold oncallPass. rewrite Hs. apply collect_TypeError.
        exists e. split; [exact Hin|]. now apply oncallDisplay_TypeError.
      * left. now apply collect_TypeError.
Qed.

Lemma Forall2_maps {A B C} (R : B -> C -> Prop) (f : A -> B) (g : A -> C) l :
  (forall x, In x l -> R (f x) (g x)) -> Forall2 R (map f l) (map g l).
Proof.
  induction l as [|x l IH]; intros H; cbn; constructor.
  - apply H. now left.
  - apply IH. intros y Hy. apply H. now right.
Qed.

Lemma concat_singletons {A B} (g : A -> B) l :
  concat (map (fun x => [g x]) l) = map g l.
Proof. induction l as [|x l IH]; cbn; [reflexivity | now rewrite IH]. Qed.

(** C1, as stated, fails: the record whose dates do not parse is in the
    returned list, with an Invalid Date for its start and its end; and the
    conversion throws for an owner whose key is a property name of
    [Object.prototype] and who is not in the user list. *)
Lemma events_keep_unparseable_record :
  Date_parse 480 "not-a-date" = None
  /\ (map (fun e => (fc_id e, fc_start e, fc_end e)) <$> events 480 0 sampleProps)
     = Normal [ ("a@x.tw-1", Some 1704103200000, Some 1704103200000);
                ("a@x.tw-2", None, None);
                ("holiday-holiday-2024-01-01", Some 1704038400000, Some 1704124799000) ]
  /\ events 480 0 prototypeKeyProps = TypeError.
Proof. vm_compute. repeat split; reflexivity. Qed.

(** C1, amended.  The conversion throws exactly when the colour lookup of
    a selected owner that has records, or of an on-call record while on-call
    is shown, finds a member of [Object.prototype]: the key is a property
    name of [Object.prototype] such as [constructor], and it is [__proto__],
    or no user has that email, or the overrides own nothing under it.  So
    the conversion returns whenever no calendar key and no on-call owner is
    a property name of [Object.prototype].  When it returns, it returns one
    display event per source record, in the order of the records: per
    record of every selected owner, per holiday when holidays are shown, per
    on-call record when on-call is shown.  Every display event has the
    identifier of its record and its parsed start and end, whether or not
    they parse, and is not marked as past when its end is an Invalid Date;
    so a record with valid dates is kept whatever its siblings are. *)
Theorem events_keep_every_record (tz now : Z) (p : Props) :
  let findsPrototypeMember := fun key =>
    inherited key = true
    /\ (key = "__proto__" \/ ~ In key (map email (users p))
        \/ colorOverrides p !! key = None) in
  (events tz now p = TypeError
   <-> (exists entry, In entry (calendars p) /\ In (fst entry) (selectedUsers p)
                      /\ snd entry <> [] /\ findsPrototypeMember (fst entry))
       \/ (showOncall p = true
           /\ exists event, In event (oncallEvents p)
                            /\ findsPrototypeMember (userEmail event)))
  /\ ((forall entry, In entry (calendars p) -> inherited (fst entry) = false) ->
      (forall event, In event (oncallEvents p) -> inherited (userEmail event) = false) ->
      exists evs, events tz now p = Normal evs)
  /\ (forall evs, events tz now p = Normal evs ->
        Forall2 (fun out record =>
                   carries tz out (fst record) (snd record)
                   /\ (fc_end out = None -> ep_isPast (fc_extendedProps out) = Some false))
          evs (sourceRecords p)
        /\ forall record, In record (sourceRecords p) ->
             exists out, In out evs /\ carries tz out (fst record) (snd record)).
Proof.
  intros finds. split; [apply events_TypeError|]. split.
  - intros Hc Ho. destruct (events tz now p) as [evs|] eqn:E; [eauto|].
    apply events_TypeError in E as [(entry & Hin & _ & _ & Hcol) | (_ & e & Hin & Hcol)].
    + destruct Hcol as [Hcol _]. rewrite (Hc entry Hin) in Hcol. discriminate.
    + destruct Hcol as [Hcol _]. rewrite (Ho e Hin) in Hcol. discriminate.
  - intros evs E.
    assert (HF : Forall2 (fun out record =>
                   carries tz out (fst record) (snd record)
                   /\ (fc_end out = None -> ep_isPast (fc_extendedProps out) = Some false))
                   evs (sourceRecords p)).
    { rewrite events_spec in E.
      apply bind_Normal in E as (personal & Hp & E).
      apply bind_Normal in E as (oncall & Ho & [= <-]).
      unfold sourceRecords. apply Forall2_app; [|apply Forall2_app].
      - refine (collect_Forall2 _ _ _ _ _ _ Hp). intros entry ra _ Hf.
        unfold ownerEvents in Hf. destruct (snd entry) as [|e l] eqn:El.
        + injection Hf as <-. constructor.
        + destruct (ownerColor p (fst entry)) as [c|]; [|discriminate].
          injection Hf as <-.
          apply (Forall2_maps _ (personalEvent tz now p (fst entry) (ownerName p (fst entry)) c)
                   (fun e => (personalEventId (fst entry) (id e), e)) (e :: l)).
          intros x _. split; [repeat split|]. cbn. intros ->. reflexivity.
      - unfold holidayPass. destruct (showHolidays p); [|constructor].
        apply Forall2_maps. intros x _. split; [repeat split|]. cbn. intros ->. reflexivity.
      - unfold oncallPass in Ho. destruct (showOncall p).
        + rewrite <- concat_singletons.
          refine (collect_Forall2 _ _ _ _ _ _ Ho). intros e ra _ Hf.
          unfold oncallDisplay in Hf. destruct (oncallColor p e) as [c|]; [|discriminate].
          injection Hf as <-. constructor; [|constructor].
          split; [repeat split|]. cbn. intros ->. reflexivity.
        + injection Ho as <-. constructor. }
    split; [exact HF|].
    intros record Hin. clear E. induction HF as [|out r evs rs [Hr _] HF IH]; [contradiction|].
    destruct Hin as [<- | Hin].
    + exists out. split; [now left | exact Hr].
    + destruct (IH Hin) as (out' & Hin' & Hc). exists out'. split; [now right | exact Hc].
Qed.

Lemma events_keep_every_record_witness :
  exists evs,
    events 480 0 sampleProps = Normal evs
    /\ exists out, In out evs /\ carries 480 out "a@x.tw-2" brokenEvent.
Proof.
  destruct (events_keep_every_record 480 0 sampleProps) as (_ & Hret & Hall).
  destruct Hret as [evs E].
  - intros entry [<- | []]. reflexivity.
  - intros event [].
  - exists evs. split; [exact E|].
    apply (proj2 (Hall evs E) ("a@x.tw-2", brokenEvent)).
    right. left. reflexivity.
Defined.

(** *** Identifiers *)

(** C8, as stated, fails: an owner key [holiday] with source id [x] and a
    holiday with id [x] get the same identifier. *)
Lemma identifier_collision :
  personalEventId "holiday" "x" = holidayEventId "x"
  /\ oncallEventId "holiday-a@x.tw" "1" = holidayEventId "a@x.tw-1".
Proof. split; reflexivity. Qed.

Lemma append_holiday_prefix (email rest hid : string) :
  email +:+ "-" +:+ rest = "holiday-" +:+ hid ->
  email = "holiday" \/ String.prefix "holiday-" email = true.
Proof.
  intros H.
  do 7 (destruct email as [|? email];
        rewrite ?append_cons, ?append_nil in H; [congruence|];
        injection H as -> H).
  destruct email as [|c email]; [left; reflexivity|].
  rewrite ?append_cons, ?append_nil in H. injection H as -> H. right. cbn.
  destruct email; reflexivity.
Qed.

(** C8, amended.  The identifier of a personal or on-call event differs
    from every holiday identifier, for every owner key other than
    [holiday] that does not begin with [holiday-]. *)
Theorem identifiers_disjoint_from_holidays (email eid hid : string) :
  email <> "holiday" -> String.prefix "holiday-" email = false ->
  personalEventId email eid <> holidayEventId hid
  /\ oncallEventId email eid <> holidayEventId hid.
Proof.
  intros Hne Hpre.
  split; intros H; apply append_holiday_prefix in H as [H | H]; congruence.
Qed.

Lemma identifiers_disjoint_from_holidays_witness :
  personalEventId "holiday@taiwan" "2024-01-01" <> holidayEventId "2024-01-01".
Proof.
  apply (identifiers_disjoint_from_holidays "holiday@taiwan" "2024-01-01" "2024-01-01");
    [discriminate | reflexivity].
Defined.

End ConversionLaws.

(** ** Activation of holidays *)
Section Activation.
Local Open Scope string_scope.
Local Open Scope Z_scope.

(** A display event flagged as a holiday comes from the holiday pass. *)
Lemma holiday_flag_origin tz now p evs ev :
  events tz now p = Normal evs -> In ev evs ->
  truthy (ep_isHoliday (fc_extendedProps ev)) = true ->
  exists holiday, ev = holidayEvent tz now p holiday.
Proof.
  intros E Hin Hflag.
  destruct (events_origin _ _ _ _ _ E Hin)
    as [email userEvents e _ _ _ c _ -> | h _ _ -> | e _ _ c _ ->].
  - discriminate.
  - now exists h.
  - discriminate.
Qed.

Lemma find_all_false {A} (f : A -> bool) l :
  (forall x, f x = false) -> List.find f l = None.
Proof.
  intros H. induction l as [|x l IH]; [reflexivity|]. cbn. now rewrite H.
Qed.

(** No source record of any calendar resolves a holiday identifier: the
    key [holiday@taiwan-...] differs from [holiday-...] at its eighth
    character. *)
Lemma holiday_id_unresolved (eid hid : string) :
  String.eqb ("holiday@taiwan" +:+ "-" +:+ eid) (holidayEventId hid) = false.
Proof. reflexivity. Qed.

(** C9.  [onEventClick] is not called for a holiday of the event list: a
    click on its chip returns at once, and an activation from the overflow
    popover finds no source record under the owner key [holiday@taiwan] and
    skips the on-call lookup, whatever the calendars and on-call records
    are.  Neither path throws. *)
Theorem holiday_never_reaches_callback tz now p evs ev :
  events tz now p = Normal evs -> In ev evs ->
  truthy (ep_isHoliday (fc_extendedProps ev)) = true ->
  forall hasOnEventClick cals oncalls el anchor,
    handleEventClick hasOnEventClick cals oncalls ev el = Normal None
    /\ onEventSelect hasOnEventClick cals oncalls ev anchor = Normal None.
Proof.
  intros E Hin Hflag hasCb cals oncalls el anchor. split.
  - unfold handleEventClick. now rewrite Hflag.
  - destruct (holiday_flag_origin _ _ _ _ _ E Hin Hflag) as [holiday ->].
    unfold onEventSelect, openEventDetail.
    destruct hasCb; [|reflexivity]. cbn [negb].
    cbn [holidayEvent fc_extendedProps ep_userEmail ep_isOncall fc_id truthy].
    change (String.eqb "holiday@taiwan" "") with false. cbn [negb].
    unfold findInCalendar, lookupCalendar.
    change (inherited "holiday@taiwan") with false.
    destruct (List.find _ cals) as [entry|]; cbn.
    + rewrite find_all_false; [reflexivity|].
      intros e. apply holiday_id_unresolved.
    + reflexivity.
Qed.

Lemma holiday_never_reaches_callback_witness :
  exists evs,
    events 480 0 sampleProps = Normal evs
    /\ In (newYearDisplayEvent 480) evs
    /\ handleEventClick true (calendars sampleProps) [] (newYearDisplayEvent 480) None
       = Normal None
    /\ onEventSelect true (calendars sampleProps) [] (newYearDisplayEvent 480) popoverButton
       = Normal None.
Proof.
  eexists. split; [reflexivity|].
  assert (Hin : In (newYearDisplayEvent 480)
                  [validDisplayEvent;
                   personalEvent 480 0 sampleProps "a@x.tw" "a" "#3174ad" brokenEvent;
                   newYearDisplayEvent 480]).
  { right. right. left. reflexivity. }
  split; [exact Hin|].
  apply (holiday_never_reaches_callback 480 0 sampleProps _ (newYearDisplayEvent 480)
           eq_refl Hin eq_refl true (calendars sampleProps) [] None popoverButton).
Defined.

(** A personal event, by contrast, is resolved and handed to the callback. *)
Lemma personal_event_reaches_callback :
  (exists evs, events 480 0 sampleProps = Normal evs /\ In validDisplayEvent evs)
  /\ handleEventClick true (calendars sampleProps) [] validDisplayEvent None
     = Normal (Some (validEvent, None)).
Proof.
  split; [|reflexivity]. eexists. split; [reflexivity|]. left. reflexivity.
Qed.

End Activation.

(** ** Popover placement *)
Section Placement.
Import Binary64.
Local Open Scope Z_scope.

Lemma scale_pow : Z.pos scale = 2 ^ 1074.
Proof. reflexivity. Qed.

(** [Math.round] of a number is the floor of the number plus one half. *)
Lemma Math_round_finite (x : float) :
  is_finite x = true -> Math_round x = Int (Qfloor (toQ x + (1 # 2))).
Proof.
  intros F. rewrite is_finite_SF in F. pose proof (Prim2SF_valid x) as V.
  unfold Math_round, toQ.
  destruct (Prim2SF x) as [s | s | | s m e]; try discriminate.
  - reflexivity.
  - apply valid_finite in V. destruct V as (He & _).
    set (v := if s then Z.neg m else Z.pos m).
    assert (Hu : units (S754_finite s m e) = v * 2 ^ (e + 1074)).
    { unfold units, v. cbv zeta. destruct s; lia. }
    rewrite Hu.
    unfold Qfloor, Qplus. cbn [Qnum Qden].
    rewrite Pos2Z.inj_mul, scale_pow. change (Z.pos 2) with 2.
    destruct (Z.leb_spec 0 e) as [H0 | H0].
    + replace (v * 2 ^ (e + 1074) * 2 + 1 * 2 ^ 1074)
        with (1 * 2 ^ 1074 + v * 2 ^ e * (2 ^ 1074 * 2)).
      2:{ rewrite Z.pow_add_r by lia. ring. }
      rewrite Z.div_add by lia. rewrite Z.div_small; [f_equal; lia|].
      split; [lia|]. assert (0 < 2 ^ 1074) by (apply Z.pow_pos_nonneg; lia). lia.
    + replace (2 ^ 1074) with (2 ^ (e + 1074) * 2 ^ (- e)).
      2:{ rewrite <- Z.pow_add_r by lia. f_equal. lia. }
      replace (v * 2 ^ (e + 1074) * 2 + 1 * (2 ^ (e + 1074) * 2 ^ (- e)))
        with (2 ^ (e + 1074) * (2 * v + 2 ^ (- e))) by ring.
      replace (2 ^ (e + 1074) * 2 ^ (- e) * 2)
        with (2 ^ (e + 1074) * 2 ^ (- e + 1)).
      2:{ rewrite (Z.pow_add_r 2 (- e) 1) by lia. ring. }
      rewrite Z.div_mul_cancel_l; [reflexivity | |].
      * apply Z.pow_nonzero; lia.
      * apply Z.pow_nonzero; lia.
Qed.

Lemma or_number_cases (a b : float) : or_number a b = a \/ or_number a b = b.
Proof. unfold or_number. destruct (_ || _)%bool; auto. Qed.

(** [Math.max] of two numbers is one of them and below neither. *)
Lemma Math_max_finite (a b : float) :
  is_finite a = true -> is_finite b = true ->
  is_finite (Binary64.Math_max a b) = true
  /\ (toQ a <= toQ (Binary64.Math_max a b))%Q
  /\ (toQ b <= toQ (Binary64.Math_max a b))%Q
  /\ (Binary64.Math_max a b = a \/ Binary64.Math_max a b = b).
Proof.
  intros Fa Fb. unfold Binary64.Math_max.
  assert (Na : is_nan a = false).
  { unfold is_finite in Fa. destruct (is_nan a); [discriminate | reflexivity]. }
  assert (Nb : is_nan b = false).
  { unfold is_finite in Fb. destruct (is_nan b); [discriminate | reflexivity]. }
  rewrite Na, Nb. cbn [orb].
  destruct (a <? b)%float eqn:E1.
  - apply ltb_toQ in E1; trivial. repeat split; auto; lra.
  - apply ltb_false_toQ in E1; trivial.
    destruct (b <? a)%float eqn:E2.
    + repeat split; auto; lra.
    + apply ltb_false_toQ in E2; trivial.
      destruct (get_sign a); repeat split; auto; lra.
Qed.

Lemma toQ_padding : (toQ viewportPadding == 16)%Q.
Proof. vm_compute. reflexivity. Qed.

Lemma toQ_offset : (toQ offset == 12)%Q.
Proof. vm_compute. reflexivity. Qed.

(** Destructs the comparison of two numbers into an order fact. *)
Tactic Notation "compare_numbers" constr(a) constr(b) ident(E) :=
  destruct (a <? b)%float eqn:E;
  [apply ltb_toQ in E; [| assumption | assumption]
  | apply ltb_false_toQ in E; [| assumption | assumption]].

(** The placement of the event detail card, when the card fits. *)
Lemma positionStyle_inside anchor cardSize vw vh :
  let w := or_number (sz_width cardSize) 360 in
  let h := or_number (sz_height cardSize) 320 in
  cardArithmeticExact anchor cardSize vw vh ->
  (toQ w <= toQ vw - 32)%Q -> (toQ h <= toQ vh - 32)%Q ->
  exists t l, positionStyle true (Some anchor) cardSize vw vh = At t l
              /\ is_finite t = true /\ is_finite l = true
              /\ inside 16 (toQ l) (toQ t) (toQ w) (toQ h) (toQ vw) (toQ vh).
Proof.
  intros w h X Hw Hh. unfold cardArithmeticExact in X. cbv zeta in X. fold w h in X.
  destruct X as (Fw & Fh & Fvw & Fvh & Ft & Hx & [Fa Ea] & [Fb Eb]
                 & [Fc Ec] & [Fd Ed] & [Fe Ee] & [Ff Ef]).
  unfold positionStyle. cbn [negb]. fold w h.
  set (left0 := if (_ || _)%bool then _ else _).
  assert (H0 : is_finite left0 = true /\ exactSum left0 w
               /\ exactSum (left0 + w) viewportPadding).
  { apply Hx. subst left0. destruct (_ || _)%bool; auto. }
  destruct H0 as (F0 & [F1 E1] & [F2 E2]). clearbody left0.
  assert (F16 : is_finite viewportPadding = true) by reflexivity.
  pose proof toQ_padding as Q16. rewrite Q16 in E2, Eb, Ed, Ef.
  eexists. eexists. split; [reflexivity|]. unfold inside.
  compare_numbers left0 viewportPadding C1;
    [| compare_numbers vw (left0 + w + viewportPadding)%float C2];
    (compare_numbers vh (top anchor + h + viewportPadding)%float C3;
     [compare_numbers (vh - h - viewportPadding)%float viewportPadding C4
     | compare_numbers (top anchor) viewportPadding C4]);
    rewrite ?Q16 in *; repeat split; trivial; lra.
Qed.

Lemma Math_round_bounds (x : float) :
  is_finite x = true -> (16 <= toQ x)%Q ->
  exists z, Math_round x = Int z /\ 16 <= z /\ (inject_Z z <= toQ x + (1 # 2))%Q.
Proof.
  intros F H. exists (Qfloor (toQ x + (1 # 2))).
  split; [now apply Math_round_finite|]. split.
  - rewrite <- (Qfloor_Z 16). apply Qfloor_resp_le.
    change (inject_Z 16) with 16%Q. lra.
  - apply Qfloor_le.
Qed.

(** The placement of the overflow popover once it is measured. *)
Lemma computePosition_bounds anchor popRect vw vh :
  let pos := computePosition anchor (Some popRect) vw vh in
  let w := sz_width popRect in
  let h := sz_height popRect in
  popoverArithmeticExact anchor popRect vw vh ->
  exists l t, pos_left pos = Int l /\ pos_top pos = Int t
    /\ 16 <= l /\ 16 <= t
    /\ ((toQ w <= toQ vw - 32)%Q -> (toQ (left anchor) <= toQ vw - 4)%Q ->
        (inject_Z l + toQ w <= toQ vw - 16 + (1 # 2))%Q)
    /\ ((toQ h <= toQ vh - 32)%Q -> (toQ (bottom anchor) <= toQ vh - 4)%Q ->
        (inject_Z t + toQ h <= toQ vh - 16 + (1 # 2))%Q).
Proof.
  intros pos w h X. unfold popoverArithmeticExact in X. cbv zeta in X. fold w h in X.
  destruct X as (Fw & Fh & Fvw & Fvh & Ft & Fl & Fb & F0 & [F1 E1] & [F2 E2]
                 & [F3 E3] & [F4 E4] & [F5 E5] & [F6 E6] & [F7 E7] & [F8 E8]).
  assert (F16 : is_finite viewportPadding = true) by reflexivity.
  pose proof toQ_padding as Q16. pose proof toQ_offset as Q12.
  rewrite ?Q16, ?Q12 in E2, E4, E6, E8.
  subst pos. unfold computePosition. cbn [pos_left pos_top]. fold w h.
  match goal with
  | |- exists l t, Math_round ?a = _ /\ Math_round ?b = _ /\ _ =>
      set (left2 := a); set (top2 := b)
  end.
  assert (HL : is_finite left2 = true /\ (16 <= toQ left2)%Q
               /\ ((toQ w <= toQ vw - 32)%Q -> (toQ (left anchor) <= toQ vw - 4)%Q ->
                   (toQ left2 + toQ w <= toQ vw - 16)%Q)).
  { subst left2.
    compare_numbers vw (right anchor + offset + w + viewportPadding)%float C1;
      [compare_numbers (left anchor - w - offset)%float viewportPadding C2
      | compare_numbers (right anchor + offset)%float viewportPadding C2];
      rewrite ?Q16 in *; repeat split; trivial; intros; lra. }
  assert (HT : is_finite top2 = true /\ (16 <= toQ top2)%Q
               /\ ((toQ h <= toQ vh - 32)%Q -> (toQ (bottom anchor) <= toQ vh - 4)%Q ->
                   (toQ top2 + toQ h <= toQ vh - 16)%Q)).
  { subst top2.
    destruct (Math_max_finite viewportPadding (bottom anchor - h - offset) F16 F8)
      as (Fm & Hm1 & Hm2 & Hm).
    compare_numbers vh (top anchor + h + viewportPadding)%float C1;
      [compare_numbers (Binary64.Math_max viewportPadding (bottom anchor - h - offset))
         viewportPadding C2
      | compare_numbers (top anchor) viewportPadding C2];
      rewrite ?Q16 in *; repeat split; trivial; intros; try lra.
    destruct Hm as [Hm | Hm]; rewrite Hm; rewrite ?Q16; lra. }
  clearbody left2 top2.
  destruct HL as (FL & HL1 & HL2). destruct HT as (FT & HT1 & HT2).
  destruct (Math_round_bounds left2 FL HL1) as (l & El & Hl1 & Hl2).
  destruct (Math_round_bounds top2 FT HT1) as (t & Et & Ht1 & Ht2).
  exists l, t. repeat split; trivial.
  - intros A B. specialize (HL2 A B). lra.
  - intros A B. specialize (HT2 A B). lra.
Qed.

End Placement.

Section PlacementLaws.
Import Binary64.
Local Open Scope Z_scope.




End PlacementLaws.

(** ** Month-view metrics *)
Section Measures.
Local Open Scope Q_scope.

Lemma ltb_true a b : Num.ltb a b = true -> a < b.
Proof.
  unfold Num.ltb. intros H. apply negb_true_iff in H.
  apply Qnot_le_lt. intros Hle. apply Qle_bool_iff in Hle. congruence.
Qed.

Lemma ltb_false a b : Num.ltb a b = false -> b <= a.
Proof.
  unfold Num.ltb. intros H. apply negb_false_iff in H. now apply Qle_bool_iff.
Qed.

Lemma Math_max_cases a b : (Num.Math_max a b == a /\ b <= a) \/ (Num.Math_max a b == b /\ a <= b).
Proof.
  unfold Num.Math_max. destruct (Qle_bool a b) eqn:E.
  - right. split; [reflexivity | now apply Qle_bool_iff].
  - left. split; [reflexivity|].
    apply Qlt_le_weak, Qnot_le_lt. intros H. apply Qle_bool_iff in H. congruence.
Qed.

Lemma Math_min_cases a b : (Num.Math_min a b == a /\ a <= b) \/ (Num.Math_min a b == b /\ b <= a).
Proof.
  unfold Num.Math_min. destruct (Qle_bool a b) eqn:E.
  - left. split; [reflexivity | now apply Qle_bool_iff].
  - right. split; [reflexivity|].
    apply Qlt_le_weak, Qnot_le_lt. intros H. apply Qle_bool_iff in H. congruence.
Qed.

Lemma Math_round_upper x : inject_Z (Num.Math_round x) <= x + (1 # 2).
Proof. apply Qfloor_le. Qed.

Lemma Math_round_ge (n : Z) x : inject_Z n <= x -> (n <= Num.Math_round x)%Z.
Proof.
  intros H. unfold Num.Math_round. rewrite <- (Qfloor_Z n).
  apply Qfloor_resp_le. lra.
Qed.

(** [Math.round] returns the integer within one half of its argument, the
    upper one of two. *)
Lemma Math_round_nearest x :
  inject_Z (Num.Math_round x) - (1 # 2) <= x < inject_Z (Num.Math_round x) + (1 # 2).
Proof.
  unfold Num.Math_round.
  pose proof (Qfloor_le (x + (1 # 2))) as Hlo.
  pose proof (Qlt_floor (x + (1 # 2))) as Hhi.
  rewrite inject_Z_plus in Hhi. change (inject_Z 1) with 1 in Hhi.
  split; lra.
Qed.

Lemma Math_round_comp x y : x == y -> Num.Math_round x = Num.Math_round y.
Proof. intros H. unfold Num.Math_round. now rewrite H. Qed.

End Measures.

Section MetricsLaws.
Local Open Scope Z_scope.

(** [round_div a b] is the integer within one half of [a / b], the upper
    one of two. *)
Lemma round_div_nearest a b :
  0 < b -> (2 * Num.round_div a b - 1) * b <= 2 * a < (2 * Num.round_div a b + 1) * b.
Proof.
  intros Hb. unfold Num.round_div.
  pose proof (Z.div_mod (2 * a + b) (2 * b) ltac:(lia)) as E.
  pose proof (Z.mod_pos_bound (2 * a + b) (2 * b) ltac:(lia)) as B.
  nia.
Qed.

Lemma rowsOfRange_weeks start k :
  1 <= k -> rowsOfRange start (start + 7 * k * MS_PER_DAY) = k.
Proof.
  intros Hk. unfold rowsOfRange, Num.round_div, MS_PER_DAY.
  replace (start + 7 * k * (24 * 60 * 60 * 1000) - start) with (604800000 * k) by lia.
  change (24 * 60 * 60 * 1000) with 86400000.
  replace ((2 * (604800000 * k) + 86400000) / (2 * 86400000)) with (7 * k)
    by (Z.div_mod_to_equations; lia).
  rewrite (Z.max_r 1 (7 * k)) by lia.
  replace ((2 * (7 * k) + 7) / (2 * 7)) with k by (Z.div_mod_to_equations; lia).
  lia.
Qed.

Lemma rowsOfRange_positive start end_ : 1 <= rowsOfRange start end_.
Proof. unfold rowsOfRange. lia. Qed.

(** The row count is the number of days, at least 1, divided by 7 and
    rounded, at least 1; the number of days is the span divided by the
    length of a day and rounded. *)
Lemma rowsOfRange_nearest start end_ :
  exists days,
    (days = 1 /\ 2 * (end_ - start) < 3 * 86400000
     \/ 2 <= days
        /\ (2 * days - 1) * 86400000 <= 2 * (end_ - start) < (2 * days + 1) * 86400000)
    /\ (rowsOfRange start end_ = 1 /\ 2 * days < 3 * 7
        \/ 2 <= rowsOfRange start end_
           /\ (2 * rowsOfRange start end_ - 1) * 7 <= 2 * days
              < (2 * rowsOfRange start end_ + 1) * 7).
Proof.
  unfold rowsOfRange. cbv zeta. change MS_PER_DAY with 86400000.
  set (d := Num.round_div (end_ - start) 86400000).
  pose proof (round_div_nearest (end_ - start) 86400000 ltac:(lia)) as Hd. fold d in Hd.
  set (r := Num.round_div (Z.max 1 d) 7).
  pose proof (round_div_nearest (Z.max 1 d) 7 ltac:(lia)) as Hr. fold r in Hr.
  exists (Z.max 1 d). split.
  - destruct (Z.le_gt_cases d 1); [left | right]; lia.
  - destruct (Z.le_gt_cases r 1); [left | right]; lia.
Qed.

Lemma clampHeight_band value : (48 <= clampHeight value <= 120)%Q.
Proof.
  unfold clampHeight.
  destruct (Math_max_cases 48 (Num.Math_min value 120)) as [[Hm Hc] | [Hm Hc]];
    destruct (Math_min_cases value 120) as [[Hn Hd] | [Hn Hd]]; lra.
Qed.

(** The clamp leaves a value of the band as it is and takes a value outside
    to the nearer end. *)
Lemma clampHeight_cases value :
  ((value <= 48 -> clampHeight value == 48)
   /\ (120 <= value -> clampHeight value == 120)
   /\ (48 <= value <= 120 -> clampHeight value == value))%Q.
Proof.
  unfold clampHeight.
  destruct (Math_max_cases 48 (Num.Math_min value 120)) as [[Hm Hc] | [Hm Hc]];
    destruct (Math_min_cases value 120) as [[Hn Hd] | [Hn Hd]];
    repeat split; intros; lra.
Qed.

Lemma dayFrameHeight_band rowCount measuredHeight :
  48 <= dayFrameHeight rowCount measuredHeight <= 120.
Proof.
  unfold dayFrameHeight.
  match goal with |- _ <= Num.Math_round ?x <= _ =>
    pose proof (clampHeight_band
                  ((measuredHeight - chromeOffset)
                   / inject_Z (if rowCount =? 0 then 6 else rowCount))) as [Hlo Hhi] end.
  split.
  - apply Math_round_ge. exact Hlo.
  - unfold Num.Math_round. change 120 with (Qfloor (120 + (1 # 2))).
    apply Qfloor_resp_le. lra.
Qed.

(** The published height by the place of the raw row height in the band. *)
Lemma dayFrameHeight_cases rowCount measuredHeight :
  let raw := ((measuredHeight - 64) / inject_Z (if rowCount =? 0 then 6 else rowCount))%Q in
  let px := dayFrameHeight rowCount measuredHeight in
  ((raw <= 48)%Q -> px = 48)
  /\ ((120 <= raw)%Q -> px = 120)
  /\ ((48 <= raw <= 120)%Q -> (inject_Z px - (1 # 2) <= raw < inject_Z px + (1 # 2))%Q).
Proof.
  intros raw px. subst px. unfold dayFrameHeight. cbv zeta.
  change chromeOffset with 64%Q. fold raw.
  destruct (clampHeight_cases raw) as (H1 & H2 & H3).
  split; [|split].
  - intros H. rewrite (Math_round_comp _ _ (H1 H)). reflexivity.
  - intros H. rewrite (Math_round_comp _ _ (H2 H)). reflexivity.
  - intros H. rewrite (Math_round_comp _ _ (H3 H)). apply Math_round_nearest.
Qed.

Lemma updateMetrics_nonzero rowCount measuredHeight st :
  ~ (measuredHeight == 0)%Q ->
  updateMetrics rowCount measuredHeight st
  = {| monthWeekRowCount := monthWeekRowCount st;
       calendarViewportHeight := Some measuredHeight;
       dayFrameMinHeight := Some (dayFrameHeight rowCount measuredHeight) |}.
Proof.
  intros H. unfold updateMetrics.
  destruct (Qeq_bool measuredHeight 0) eqn:E; [|reflexivity].
  apply Qeq_bool_iff in E. contradiction.
Qed.

(** C3, as stated, fails.  After the month changes to five rows a resize to
    664 pixels publishes a row height of 100, which is (664 - 64) / 6: the
    claimed (664 - 64) / 5 is 120.  The number of inline chips is 2 before
    and after. *)
Lemma row_height_keeps_first_row_count :
  monthWeekRowCount (state fiveRowsThenResize) = 5
  /\ dayFrameMinHeight (state fiveRowsThenResize) = Some 100
  /\ Num.Math_round (clampHeight ((664 - chromeOffset) / inject_Z 5)) = 120
  /\ dayMaxEvents dayGridMonth = Some 2.
Proof. vm_compute. repeat split; reflexivity. Qed.

(** C3, amended.  On a date-range change in month view the stored row count
    is round(days / 7), at least 1, where [days] is
    round(span / 86400000), at least 1, and round(x) is the integer [n]
    with [n - 1/2 <= x < n + 1/2]; it is [k] for a span of [7 k] days.
    Every resize notification with a non-zero height records that height,
    leaves the stored row count alone and publishes the row height [px]
    made from raw = (height - 64) / rowCount, where [rowCount] is the row
    count [updateMetrics] holds (6 when that is 0): [px] is 48 when
    [raw <= 48], 120 when [raw >= 120] and round(raw) in between, so within
    [48, 120] always.  The number of inline chips per day cell is 2 in month
    view and unlimited in the other views, whatever the height. *)
Theorem month_view_metrics :
  (forall start end_ m,
      let rows :=
        monthWeekRowCount (state (step m (DatesSet dayGridMonth start end_))) in
      exists days,
        (days = 1 /\ 2 * (end_ - start) < 3 * 86400000
         \/ 2 <= days
            /\ (2 * days - 1) * 86400000 <= 2 * (end_ - start)
               < (2 * days + 1) * 86400000)
        /\ (rows = 1 /\ 2 * days < 3 * 7
            \/ 2 <= rows /\ (2 * rows - 1) * 7 <= 2 * days < (2 * rows + 1) * 7))
  /\ (forall start k m,
        1 <= k ->
        monthWeekRowCount
          (state (step m (DatesSet dayGridMonth start (start + 7 * k * 86400000))))
        = k)
  /\ (forall m height,
        ~ (height == 0)%Q ->
        let rowCount := if effectRowCount m =? 0 then 6 else effectRowCount m in
        let raw := ((height - 64) / inject_Z rowCount)%Q in
        let st := state (step m (Resize height)) in
        calendarViewportHeight st = Some height
        /\ monthWeekRowCount st = monthWeekRowCount (state m)
        /\ exists px,
             dayFrameMinHeight st = Some px
             /\ ((raw <= 48)%Q -> px = 48)
             /\ ((120 <= raw)%Q -> px = 120)
             /\ ((48 <= raw <= 120)%Q ->
                 (inject_Z px - (1 # 2) <= raw < inject_Z px + (1 # 2))%Q)
             /\ 48 <= px <= 120)
  /\ (dayMaxEvents dayGridMonth = Some 2
      /\ forall view, view <> dayGridMonth -> dayMaxEvents view = None).
Proof.
  split; [|split; [|split]].
  - intros start end_ m rows. subst rows. cbn [step state monthWeekRowCount].
    apply rowsOfRange_nearest.
  - intros start k m Hk. cbn [step state monthWeekRowCount].
    apply (rowsOfRange_weeks start k Hk).
  - intros m height Hh rowCount raw st. subst st. cbn [step state].
    rewrite (updateMetrics_nonzero _ _ _ Hh).
    cbn [calendarViewportHeight dayFrameMinHeight monthWeekRowCount].
    split; [reflexivity|]. split; [reflexivity|].
    exists (dayFrameHeight (effectRowCount m) height).
    split; [reflexivity|].
    destruct (dayFrameHeight_cases (effectRowCount m) height) as (H1 & H2 & H3).
    split; [exact H1|]. split; [exact H2|]. split; [exact H3|].
    apply dayFrameHeight_band.
  - split; [reflexivity|]. intros [] H; try reflexivity. contradiction.
Qed.

Lemma month_view_metrics_witness :
  monthWeekRowCount
    (state (step (mount 800) (DatesSet dayGridMonth 0 (0 + 7 * 5 * 86400000)))) = 5
  /\ dayFrameMinHeight (state (step (mount 800) (Resize 664))) = Some 100.
Proof.
  destruct month_view_metrics as (_ & Hrows & Hresize & _). split.
  - apply (Hrows 0 5 (mount 800)). lia.
  - destruct (Hresize (mount 800) 664%Q) as (_ & _ & px & E & _ & _ & H & _);
      [discriminate|].
    rewrite E. f_equal.
    destruct H as [Hlo Hhi]; [split; vm_compute; discriminate|].
    revert Hlo Hhi. unfold Qle, Qlt. cbn. lia.
Defined.

End MetricsLaws.

(** ** Holidays on the day grid *)
Section HolidayCells.
Local Open Scope string_scope.
Local Open Scope Z_scope.

(** A civil date followed by a time part is read as that date, and the time
    part is left over. *)
Lemma parseYMD_append date D rest :
  parseYMD date = Some (D, "") ->
  parseYMD (date +:+ String "T" rest) = Some (D, String "T" rest).
Proof.
  intros H.
  destruct date as [|y1 [|y2 [|y3 [|y4 r]]]]; try discriminate.
  rewrite !append_cons. cbn [parseYMD] in *.
  destruct (dec4 y1 y2 y3 y4) as [y|]; [|discriminate].
  cbn [mbind option_bind] in *.
  destruct r as [|c4 r1]; rewrite ?append_cons, ?append_nil.
  { change (Ascii.eqb "T" "-") with false. cbn match.
    destruct (makeDay y 1 1); [|discriminate]. cbn in *. congruence. }
  destruct (Ascii.eqb c4 "-").
  2:{ destruct (makeDay y 1 1); cbn in H; discriminate. }
  destruct r1 as [|m1 [|m2 r2]]; try discriminate.
  rewrite !append_cons.
  destruct (dec2 m1 m2) as [m|]; [|discriminate].
  cbn [mbind option_bind] in *.
  destruct r2 as [|c7 r3]; rewrite ?append_cons, ?append_nil.
  { change (Ascii.eqb "T" "-") with false. cbn match.
    destruct (makeDay y m 1); [|discriminate]. cbn in *. congruence. }
  destruct (Ascii.eqb c7 "-").
  2:{ destruct (makeDay y m 1); cbn in H; discriminate. }
  destruct r3 as [|d1 [|d2 r4]]; try discriminate.
  rewrite !append_cons.
  destruct (dec2 d1 d2) as [d|]; [|discriminate].
  cbn [mbind option_bind] in *.
  destruct (makeDay y m d); [|discriminate]. cbn in *.
  injection H as -> ->. reflexivity.
Qed.

(** The two instants of a holiday record: midnight and one second before
    the next midnight at UTC+08:00, for every viewer. *)
Lemma holiday_instants tz date D :
  parseYMD date = Some (D, "") ->
  Date_parse tz (date +:+ "T00:00:00+08:00") = Some (D * msPerDay - 28800000)
  /\ Date_parse tz (date +:+ "T23:59:59+08:00") = Some (D * msPerDay + 57599000).
Proof.
  intros H. unfold Date_parse.
  rewrite !(parseYMD_append _ _ _ H). cbn [mbind option_bind].
  change (Ascii.eqb "T" "T") with true. cbn match.
  change (parseHMS "00:00:00+08:00") with (Some (0, "+08:00")).
  change (parseHMS "23:59:59+08:00") with (Some (86399000, "+08:00")).
  cbn [mbind option_bind].
  change (parseOffset "+08:00") with (Some (Some 480)).
  cbn [mbind option_bind]. cbv [from_option Datatypes.id].
  split; f_equal; lia.
Qed.

Lemma localDay_shift D tz ms k :
  0 <= ms + tz * 60000 - k * msPerDay < msPerDay ->
  localDay tz (D * msPerDay + ms) = D + k.
Proof.
  unfold localDay, msPerDay. intros H. Z.div_mod_to_equations. lia.
Qed.

Lemma holiday_cells tz now p subject date D :
  parseYMD date = Some (D, "") -> -720 <= tz <= 840 ->
  allDayCells tz (holidayEvent tz now p (createHoliday subject date))
  = [if 480 <=? tz then D else D - 1].
Proof.
  intros H Htz. unfold allDayCells.
  cbn [holidayEvent createHoliday fc_start fc_end start end_ dateTime newDate].
  unfold newDate. destruct (holiday_instants tz date D H) as [-> ->].
  destruct (Z.leb_spec 480 tz) as [Hge | Hlt].
  - replace (D * msPerDay - 28800000) with (D * msPerDay + -28800000) by lia.
    rewrite (localDay_shift D tz (-28800000) 0) by (unfold msPerDay; lia).
    destruct (Z.eq_dec tz 480) as [-> | Hne].
    + rewrite (localDay_shift D 480 57599000 0) by (unfold msPerDay; lia).
      rewrite Z.add_0_r, Z.leb_refl.
      replace (D + 1 - D) with 1 by lia. reflexivity.
    + rewrite (localDay_shift D tz 57599000 1) by (unfold msPerDay; lia).
      rewrite Z.add_0_r.
      destruct (Z.leb_spec (D + 1) D); [lia|].
      replace (D + 1 - D) with 1 by lia. reflexivity.
  - replace (D * msPerDay - 28800000) with (D * msPerDay + -28800000) by lia.
    rewrite (localDay_shift D tz (-28800000) (-1)) by (unfold msPerDay; lia).
    rewrite (localDay_shift D tz 57599000 0) by (unfold msPerDay; lia).
    rewrite Z.add_0_r.
    destruct (Z.leb_spec D (D + -1)); [lia|].
    replace (D - (D + -1)) with 1 by lia.
    replace (D + -1) with (D - 1) by lia. reflexivity.
Qed.

End HolidayCells.

Section HolidayCellLaws.
Local Open Scope string_scope.
Local Open Scope Z_scope.

(** C4, as stated, fails: New Year's Day 2024 (day 19723) is drawn on that
    day for a viewer at UTC+08:00 and on the day before for a viewer at
    UTC-05:00. *)
Lemma holiday_cell_depends_on_viewer :
  parseYMD "2024-01-01" = Some (19723, "")
  /\ allDayCells 480 (newYearDisplayEvent 480) = [19723]
  /\ allDayCells (-300) (newYearDisplayEvent (-300)) = [19722].
Proof. vm_compute. repeat split; reflexivity. Qed.

(** The sidebar of the application places the same record by the viewer's
    local time as well: New Year's Day 2024 is listed under January 2024
    for a viewer at UTC+08:00; for a viewer at UTC-05:00 it is listed
    neither under January 2024 nor under December 2023, whose last day is
    counted up to its local midnight only. *)
Lemma sidebar_month_depends_on_viewer :
  map id (sidebarHolidays 480 2024 0 TAIWAN_HOLIDAYS) = ["holiday-2024-01-01"]
  /\ sidebarHolidays (-300) 2024 0 TAIWAN_HOLIDAYS = []
  /\ sidebarHolidays (-300) 2023 11 TAIWAN_HOLIDAYS = [].
Proof. vm_compute. repeat split; reflexivity. Qed.

(** Every date of the holiday table is a civil date. *)
Lemma holiday_table_dates :
  Forall (fun item => exists D, parseYMD (hd_date item) = Some (D, ""))
    HOLIDAY_DEFINITIONS.
Proof.
  apply List.Forall_forall. intros item Hin.
  assert (H : forallb (fun item => match parseYMD (hd_date item) with
                                   | Some (_, "") => true
                                   | _ => false
                                   end) HOLIDAY_DEFINITIONS = true)
    by (vm_compute; reflexivity).
  rewrite forallb_forall in H. specialize (H item Hin).
  destruct (parseYMD (hd_date item)) as [[D [|c r]]|]; try discriminate.
  now exists D.
Qed.

(** C4, amended.  A holiday record made for the civil date [D] is drawn on
    exactly one day cell, which depends on the viewer's offset from UTC
    only through its side of +08:00: it is [D] for a viewer at or east of
    UTC+08:00 and [D - 1] for a viewer west of it.  Two viewers on the same
    side see the same cell, and a viewer at UTC+08:00 sees [D]. *)
Theorem holiday_cell_by_viewer_offset (subject date : string) (D : Z)
    (tz1 tz2 now1 now2 : Z) (p : Props) :
  parseYMD date = Some (D, "") ->
  -720 <= tz1 <= 840 -> -720 <= tz2 <= 840 ->
  let cells tz now := allDayCells tz (holidayEvent tz now p (createHoliday subject date)) in
  cells tz1 now1 = [if 480 <=? tz1 then D else D - 1]
  /\ ((480 <=? tz1) = (480 <=? tz2) -> cells tz1 now1 = cells tz2 now2)
  /\ cells 480 now1 = [D].
Proof.
  intros H H1 H2 cells. subst cells. cbn beta.
  rewrite !(holiday_cells _ _ _ _ _ _ H) by lia.
  split; [reflexivity|]. split; [intros ->; reflexivity | reflexivity].
Qed.

Lemma holiday_cell_by_viewer_offset_witness :
  parseYMD "2024-01-01" = Some (19723, "")
  /\ allDayCells 540 (newYearDisplayEvent 540) = allDayCells 480 (newYearDisplayEvent 480).
Proof.
  assert (H : parseYMD "2024-01-01" = Some (19723, "")) by reflexivity.
  split; [exact H|].
  destruct (holiday_cell_by_viewer_offset "元旦" "2024-01-01" 19723 540 480 0 0
              sampleProps H) as (_ & Hsame & _); [lia | lia |].
  apply Hsame. reflexivity.
Defined.

End HolidayCellLaws.

(* ===================================================================== *)
(** * Further properties *)
(* ===================================================================== *)

Import Ref2 Samples2.

(** ** Colours of the chips *)
Section ChipColours.
Local Open Scope string_scope.
Local Open Scope Z_scope.

Lemma hasChannels_range color R G B :
  hasChannels color R G B -> 0 <= R <= 255 /\ 0 <= G <= 255 /\ 0 <= B <= 255.
Proof. unfold hasChannels. apply rgbOfHex6_range. Qed.

(** The text colour of a colour of six digits is chosen by its luminance. *)
Lemma text_color_of_channels color preferLight R G B :
  hasChannels color R G B ->
  getAdaptiveTextColor color preferLight
  = chooseByLuminance preferLight
      (relativeLuminance (float_of_Z R / 255) (float_of_Z G / 255) (float_of_Z B / 255)).
Proof. unfold hasChannels. apply text_color_binary64. Qed.

(** X1.  For a colour of six digits with channels [R], [G], [B] and exact
    weighted sum [w = 2126 R + 7152 G + 722 B] (luminance times 2550000):
    with [preferLight] the text is white exactly when [w < 1912500] or the
    colour is one of the seven boundary colours, and [#1f2937] otherwise;
    without it the text is [#1f2937] exactly when [w > 1275000], and white
    otherwise. *)
Theorem text_color_by_exact_sum (color : string) (R G B : Z) :
  hasChannels color R G B ->
  let w := 2126 * R + 7152 * G + 722 * B in
  (getAdaptiveTextColor color true = "#ffffff" <->
   w < 1912500 \/ isBoundaryColor R G B = true)
  /\ (getAdaptiveTextColor color true = "#1f2937" <->
      ~ (w < 1912500 \/ isBoundaryColor R G B = true))
  /\ (getAdaptiveTextColor color false = "#1f2937" <-> 1275000 < w)
  /\ (getAdaptiveTextColor color false = "#ffffff" <-> w <= 1275000).
Proof.
  intros H w.
  destruct (hasChannels_range _ _ _ _ H) as (HR & HG & HB).
  destruct (luminance_thresholds_exact R G B HR HG HB) as (H5 & H75 & _).
  rewrite !(text_color_of_channels _ _ _ _ _ H). unfold chooseByLuminance.
  cbv zeta in H5, H75. fold w in H5, H75. rewrite H5, H75.
  destruct (Z.ltb_spec 1275000 w), (Z.ltb_spec w 1912500),
    (isBoundaryColor R G B); cbn [orb];
    repeat split; intros; try discriminate; try reflexivity; try lia;
    try (exfalso; intuition (discriminate || lia)); intuition (discriminate || lia).
Qed.

Lemma text_color_by_exact_sum_witness :
  hasChannels "#1a73e8" 26 115 232
  /\ getAdaptiveTextColor "#1a73e8" false = "#ffffff".
Proof.
  assert (H : hasChannels "#1a73e8" 26 115 232) by reflexivity.
  split; [exact H|].
  destruct (text_color_by_exact_sum "#1a73e8" 26 115 232 H) as (_ & _ & _ & E).
  apply E. lia.
Defined.

(** X2.  Asking for light text never turns white text dark: a colour of six
    digits that gets white text without [preferLight] gets white text with
    it.  For every input at all, the result is one of three colours. *)
Theorem prefer_light_keeps_white (color : string) (R G B : Z) :
  hasChannels color R G B ->
  (getAdaptiveTextColor color false = "#ffffff" ->
   getAdaptiveTextColor color true = "#ffffff")
  /\ (forall (input : string) (preferLight : bool),
        In (getAdaptiveTextColor input preferLight) ["#ffffff"; "#1f2937"; "#111827"]).
Proof.
  intros H. split.
  - destruct (hasChannels_range _ _ _ _ H) as (HR & HG & HB).
    destruct (luminance_thresholds_exact R G B HR HG HB) as (H5 & H75 & _).
    rewrite !(text_color_of_channels _ _ _ _ _ H). unfold chooseByLuminance.
    cbv zeta in H5, H75. rewrite H5, H75.
    destruct (Z.ltb_spec 1275000 (2126 * R + 7152 * G + 722 * B));
      [discriminate|].
    destruct (Z.ltb_spec (2126 * R + 7152 * G + 722 * B) 1912500); [reflexivity|lia].
  - intros input preferLight. unfold getAdaptiveTextColor, safeDefault, chooseByLuminance.
    repeat match goal with
           | |- context [if ?b then _ else _] => destruct b
           end; cbn; tauto.
Qed.

Lemma prefer_light_keeps_white_witness :
  hasChannels "#1a73e8" 26 115 232 /\ getAdaptiveTextColor "#1a73e8" true = "#ffffff".
Proof.
  assert (H : hasChannels "#1a73e8" 26 115 232) by reflexivity.
  split; [exact H|].
  destruct (prefer_light_keeps_white "#1a73e8" 26 115 232 H) as (E & _).
  apply E. vm_compute. reflexivity.
Defined.

End ChipColours.

(** ** Lightened colours *)
Section LightenedColours.
Local Open Scope string_scope.
Local Open Scope Z_scope.

Lemma mixChannel_known_ratio ratio c :
  In ratio (0 :: 1 :: sourceRatios)%float -> 0 <= c <= 255 ->
  exists v, mixChannel ratio c = Int v /\ c <= v <= 255.
Proof.
  intros [<- | [<- | Hr]] Hc.
  - exists c. split; [now apply mixChannel_zero | lia].
  - exists 255. split; [now apply mixChannel_one | lia].
  - now apply mixChannel_source_ratios.
Qed.

(** One lightening step on a colour of six digits. *)
Lemma lightened_channels color ratio R G B :
  hasChannels color R G B -> In ratio (0 :: 1 :: sourceRatios)%float ->
  exists R' G' B',
    hasChannels (lightenColor color ratio) R' G' B'
    /\ String.prefix "#" (lightenColor color ratio) = true
    /\ R <= R' <= 255 /\ G <= G' <= 255 /\ B <= B' <= 255.
Proof.
  intros H Hr.
  destruct (lightenColor_hex6 color ratio R G B H) as (-> & HR & HG & HB).
  destruct (mixChannel_known_ratio ratio R Hr HR) as (R' & -> & HR').
  destruct (mixChannel_known_ratio ratio G Hr HG) as (G' & -> & HG').
  destruct (mixChannel_known_ratio ratio B Hr HB) as (B' & -> & HB').
  exists R', G', B'. split; [apply written_colour_reads_back; lia|].
  split; [|lia].
  cbn. destruct (_ +:+ _); reflexivity.
Qed.

(** X3.  Lightening a colour of six digits by ratio 0, by ratio 1 or by a
    ratio of the source gives a colour of six digits again, spelled with a
    leading [#], and no channel of it is below the channel it comes from;
    so the result can be lightened again, and channels only grow along the
    way, never beyond 255. *)
Theorem lightening_composes (color : string) (ratio1 ratio2 : float) (R G B : Z) :
  hasChannels color R G B ->
  In ratio1 (0 :: 1 :: sourceRatios)%float -> In ratio2 (0 :: 1 :: sourceRatios)%float ->
  exists R1 G1 B1 R2 G2 B2,
    hasChannels (lightenColor color ratio1) R1 G1 B1
    /\ hasChannels (lightenColor (lightenColor color ratio1) ratio2) R2 G2 B2
    /\ String.prefix "#" (lightenColor color ratio1) = true
    /\ R <= R1 <= R2 /\ G <= G1 <= G2 /\ B <= B1 <= B2
    /\ R2 <= 255 /\ G2 <= 255 /\ B2 <= 255.
Proof.
  intros H H1 H2.
  destruct (lightened_channels color ratio1 R G B H H1)
    as (R1 & G1 & B1 & Hc1 & Hp & HR1 & HG1 & HB1).
  destruct (lightened_channels _ ratio2 R1 G1 B1 Hc1 H2)
    as (R2 & G2 & B2 & Hc2 & _ & HR2 & HG2 & HB2).
  exists R1, G1, B1, R2, G2, B2. repeat split; (assumption || lia).
Qed.

Lemma lightening_composes_witness :
  hasChannels "3174AD" 49 116 173
  /\ exists R1 G1 B1 R2 G2 B2,
       hasChannels (lightenColor "3174AD" 0.88) R1 G1 B1
       /\ hasChannels (lightenColor (lightenColor "3174AD" 0.88) 0.92) R2 G2 B2
       /\ String.prefix "#" (lightenColor "3174AD" 0.88) = true
       /\ 49 <= R1 <= R2 /\ 116 <= G1 <= G2 /\ 173 <= B1 <= B2
       /\ R2 <= 255 /\ G2 <= 255 /\ B2 <= 255.
Proof.
  assert (H : hasChannels "3174AD" 49 116 173) by reflexivity.
  split; [exact H|].
  apply (lightening_composes "3174AD" 0.88 0.92 49 116 173 H).
  - right. right. right. left. reflexivity.
  - right. right. right. right. left. reflexivity.
Defined.

(** X4.  A display event made for an owner colour of six digits always has
    a background of six digits, no darker than the owner colour in any
    channel: the owner colour itself while the event is not past, its
    lightened form afterwards.  While the event is not past its text is
    white or [#1f2937]. *)
Theorem personal_event_colours (tz now : Z) (p : Props)
    (email userName baseColor : string) (event : CalendarEvent) (R G B : Z) :
  hasChannels baseColor R G B ->
  let out := personalEvent tz now p email userName baseColor event in
  (exists R' G' B',
      hasChannels (fc_backgroundColor out) R' G' B'
      /\ R <= R' <= 255 /\ G <= G' <= 255 /\ B <= B' <= 255)
  /\ (ep_isPast (fc_extendedProps out) = Some false ->
      fc_backgroundColor out = baseColor
      /\ (fc_textColor out = "#ffffff" \/ fc_textColor out = "#1f2937")).
Proof.
  intros H out. subst out. unfold personalEvent.
  cbn [fc_backgroundColor fc_textColor fc_extendedProps ep_isPast].
  destruct (hasChannels_range _ _ _ _ H) as (HR & HG & HB).
  destruct (time_lt (newDate tz (dateTime (end_ event))) now).
  - split; [|discriminate].
    destruct (lightened_channels baseColor 0.88 R G B H)
      as (R' & G' & B' & Hc & _ & Hb);
      [right; right; right; left; reflexivity|].
    exists R', G', B'. split; [exact Hc | exact Hb].
  - split.
    + exists R, G, B. split; [exact H | lia].
    + intros _. split; [reflexivity|].
      rewrite (text_color_of_channels _ _ _ _ _ H). unfold chooseByLuminance.
      destruct (PrimFloat.ltb _ _); [left | right]; reflexivity.
Qed.

Lemma personal_event_colours_witness :
  hasChannels "#3174ad" 49 116 173
  /\ fc_backgroundColor validDisplayEvent = "#3174ad"
  /\ (fc_textColor validDisplayEvent = "#ffffff"
      \/ fc_textColor validDisplayEvent = "#1f2937").
Proof.
  assert (H : hasChannels "#3174ad" 49 116 173) by reflexivity.
  split; [exact H|].
  destruct (personal_event_colours 480 0 sampleProps "a@x.tw" "a" "#3174ad" validEvent
              49 116 173 H) as (_ & E).
  apply E. reflexivity.
Defined.

End LightenedColours.

(** ** Owner colours ([CalendarView.tsx] 133-139, 152-154, 244; [App.tsx] 170-175) *)
Section OwnerColours.
Local Open Scope string_scope.

Lemma userColorMap_other_override us overrides e e' c :
  e <> e' ->
  userColorMap us (<[e := c]> overrides) !! e' = userColorMap us overrides !! e'.
Proof.
  intros Hne. induction us as [|u us IH] using rev_ind; [reflexivity|].
  rewrite !userColorMap_snoc, !lookup_assign.
  destruct (String.eqb (email u) "__proto__"); [exact IH|].
  destruct (decide (email u = e')) as [E | E]; [|exact IH].
  subst e'. unfold get. rewrite lookup_insert_ne by exact Hne. reflexivity.
Qed.

Lemma get_other_override us overrides e e' c :
  e <> e' ->
  get (userColorMap us (<[e := c]> overrides)) e' = get (userColorMap us overrides) e'.
Proof. intros H. unfold get. now rewrite userColorMap_other_override. Qed.

Lemma find_absent us e :
  ~ In e (map email us) -> List.find (fun u => String.eqb (email u) e) us = None.
Proof.
  intros Hn. destruct (List.find _ us) as [u|] eqn:E; [|reflexivity].
  apply find_some in E as [Hin Heq]. apply String.eqb_eq in Heq.
  elim Hn. apply in_map_iff. now exists u.
Qed.

(** X5.  For an owner [e] of the user list whose key is not [__proto__]: a
    stored override is the owner's entry of the colour map, and choosing
    the colour [c] for the owner (the override map gets that entry) makes
    [c] the entry, and the base colour of the owner's events unless [c] is
    empty; the entry of every other key stays as it was.  An owner [e'] who
    is not in the user list and whose key is not a member of
    [Object.prototype] has no entry: the personal events of that owner are
    made with the name before the [@] and the base colour [#3174ad], the
    on-call events with [#4f46e5].  When the key is a member of
    [Object.prototype] the lookup finds that member, which is not a
    string. *)
Theorem owner_colour_resolution (us : list UserInfo) (overrides : gmap string string)
    (e : string) (c : string) :
  In e (map email us) -> e <> "__proto__" ->
  (forall c0, overrides !! e = Some c0 ->
     get (userColorMap us overrides) e = Own (Str c0))
  /\ get (userColorMap us (<[e := c]> overrides)) e = Own (Str c)
  /\ colorOr (userColorMap us (<[e := c]> overrides)) e "#3174ad"
     = Str (if String.eqb c "" then "#3174ad" else c)
  /\ (forall e', e' <> e ->
        get (userColorMap us (<[e := c]> overrides)) e'
        = get (userColorMap us overrides) e')
  /\ (forall e', ~ In e' (map email us) ->
        (inherited e' = false ->
         get (userColorMap us overrides) e' = Undefined
         /\ forall tz now p acc,
              users p = us -> colorOverrides p = overrides ->
              (forall userEvents,
                 pushCalendar tz now p acc (e', userEvents)
                 = Normal (acc ++ map (personalEvent tz now p e' (before_at e') "#3174ad")
                                    userEvents)%list)
              /\ (forall event,
                    userEmail event = e' ->
                    pushOncall tz now p acc event
                    = Normal (acc ++ [oncallEvent tz now p "#4f46e5" event])%list))
        /\ (inherited e' = true ->
            forall fallback, colorOr (userColorMap us overrides) e' fallback = NotString)).
Proof.
  intros Hin Hp. split; [|split; [|split; [|split]]].
  - intros c0 Ho. unfold get. now rewrite (userColorMap_override _ _ _ _ Hin Hp Ho).
  - unfold get. rewrite (userColorMap_override _ _ e c Hin Hp); [reflexivity|].
    apply lookup_insert_eq.
  - unfold colorOr, get. rewrite (userColorMap_override _ _ e c Hin Hp);
      [|apply lookup_insert_eq].
    unfold or_string. destruct c; reflexivity.
  - intros e' Hne. apply get_other_override. congruence.
  - intros e' Hn. pose proof (userColorMap_absent us overrides e' Hn) as Ha. split.
    + intros Hi.
      assert (Hg : get (userColorMap us overrides) e' = Undefined).
      { unfold get. now rewrite Ha, Hi. }
      split; [exact Hg|].
      intros tz now p acc Hu Ho. split.
      * intros userEvents. rewrite pushCalendar_spec.
        unfold ownerEvents, ownerColor, ownerName, colorMap, colorOr. cbn [fst snd].
        rewrite Hu, Ho, Hg, (find_absent _ _ Hn).
        destruct userEvents; cbn; [now rewrite app_nil_r | reflexivity].
      * intros event He. unfold pushOncall, colorMap, colorOr.
        rewrite Hu, Ho, He, Hg. reflexivity.
    + intros Hi fallback. unfold colorOr, get. now rewrite Ha, Hi.
Qed.

Lemma owner_colour_resolution_witness :
  In "a@x.tw" (map email [{| email := "a@x.tw"; user_displayName := "A"; color := "#188038" |}])
  /\ get (userColorMap [{| email := "a@x.tw"; user_displayName := "A"; color := "#188038" |}]
            (<["a@x.tw" := "#d93025"]> ∅)) "a@x.tw" = Own (Str "#d93025").
Proof.
  assert (H : In "a@x.tw"
                (map email [{| email := "a@x.tw"; user_displayName := "A";
                               color := "#188038" |}])) by (left; reflexivity).
  split; [exact H|].
  destruct (owner_colour_resolution _ ∅ "a@x.tw" "#d93025" H) as (_ & E & _);
    [discriminate | exact E].
Defined.

End OwnerColours.

(** ** Where display events come from, and their classes *)
Section Origins.
Local Open Scope string_scope.
Local Open Scope Z_scope.

(** X6.  The event list holds nothing but what the three passes make: a
    display event is the event of a record of a selected owner, or of a
    holiday while holidays are shown, or of an on-call record while on-call
    is shown.  An owner who is not selected has no personal event in the
    list, and with holidays hidden no event is flagged as a holiday. *)
Theorem events_only_from_sources (tz now : Z) (p : Props)
    (evs : list FullCalendarEvent) (out : FullCalendarEvent) :
  events tz now p = Normal evs -> In out evs ->
  Origin tz now p out
  /\ (ep_isHoliday (fc_extendedProps out) = Some false ->
      ep_isOncall (fc_extendedProps out) = None ->
      In (ep_userEmail (fc_extendedProps out)) (selectedUsers p))
  /\ (showHolidays p = false -> ep_isHoliday (fc_extendedProps out) = Some false)
  /\ (showOncall p = false -> ep_isOncall (fc_extendedProps out) = None).
Proof.
  intros Hev Hin. pose proof (events_origin _ _ _ _ _ Hev Hin) as Ho.
  split; [exact Ho|].
  destruct Ho as [email userEvents e Hc Hs He c Ec -> | h Hs Hh -> | e Hs He c Ec ->];
    cbn; repeat split; intros; try congruence; try discriminate; assumption.
Qed.

Lemma events_only_from_sources_witness :
  (exists evs, events 480 0 sampleProps = Normal evs /\ In validDisplayEvent evs)
  /\ In (ep_userEmail (fc_extendedProps validDisplayEvent)) (selectedUsers sampleProps).
Proof.
  assert (Hev : events 480 0 sampleProps
                = Normal [validDisplayEvent;
                          personalEvent 480 0 sampleProps "a@x.tw" "a" "#3174ad" brokenEvent;
                          newYearDisplayEvent 480])
    by reflexivity.
  assert (Hin : In validDisplayEvent
                  [validDisplayEvent;
                   personalEvent 480 0 sampleProps "a@x.tw" "a" "#3174ad" brokenEvent;
                   newYearDisplayEvent 480])
    by (left; reflexivity).
  split; [eexists; split; [exact Hev | exact Hin]|].
  destruct (events_only_from_sources 480 0 sampleProps _ validDisplayEvent Hev Hin)
    as (_ & H & _).
  apply H; reflexivity.
Defined.

Lemma In_pushIf b name x l :
  In x (pushIf b name l) <-> In x l \/ (b = true /\ x = name).
Proof.
  unfold pushIf. destruct b.
  - rewrite in_app_iff. cbn. intuition congruence.
  - intuition discriminate.
Qed.

Lemma isSelected_true sel eventId :
  isSelected sel eventId = true <-> sel = Some eventId /\ eventId <> "".
Proof.
  unfold isSelected. destruct sel as [s|]; [|split; [discriminate | intros [? _]; discriminate]].
  rewrite andb_true_iff, negb_true_iff, String.eqb_eq, String.eqb_neq.
  split.
  - intros [Hne ->]. split; [reflexivity | exact Hne].
  - intros [E Hne]. inversion E; subst. split; [exact Hne | reflexivity].
Qed.

Lemma time_lt_true t now : time_lt t now = true <-> exists v, t = Some v /\ v < now.
Proof.
  unfold time_lt. destruct t as [v|].
  - rewrite Z.ltb_lt. split; [intros H; now exists v | intros (w & E & H); congruence].
  - split; [discriminate | intros (w & E & _); discriminate].
Qed.

(** X7.  In the event list an event carries the class [fc-event-selected]
    exactly when [selectedEventId] is its identifier (and is not empty), and
    the class [fc-event-past] exactly when its end parses to an instant
    before now: an event whose end is an Invalid Date is never styled as
    past. *)
Theorem event_classes (tz now : Z) (p : Props)
    (evs : list FullCalendarEvent) (out : FullCalendarEvent) :
  events tz now p = Normal evs -> In out evs ->
  (In "fc-event-selected" (fc_classNames out) <->
   selectedEventId p = Some (fc_id out) /\ fc_id out <> "")
  /\ (In "fc-event-past" (fc_classNames out) <->
      exists t, fc_end out = Some t /\ t < now)
  /\ (fc_end out = None -> ep_isPast (fc_extendedProps out) = Some false).
Proof.
  intros Hev Hin.
  destruct (events_origin _ _ _ _ _ Hev Hin)
    as [email userEvents e Hc Hs He c Ec -> | h Hs Hh -> | e Hs He c Ec ->];
    cbn [personalEvent holidayEvent oncallEvent fc_classNames fc_id fc_end
         fc_extendedProps ep_isPast];
    rewrite <- isSelected_true, <- time_lt_true, !In_pushIf;
    (split; [|split]);
    try (intros ->; reflexivity);
    cbn [In]; split; intros H;
    repeat match goal with
      | H : _ \/ _ |- _ => destruct H
      | H : _ /\ _ |- _ => destruct H
      | H : False |- _ => destruct H
      end; try discriminate; try assumption; auto.
Qed.

Lemma event_classes_witness :
  (exists evs, events 480 0 sampleProps = Normal evs /\ In validDisplayEvent evs)
  /\ ~ In "fc-event-selected" (fc_classNames validDisplayEvent).
Proof.
  assert (Hev : events 480 0 sampleProps
                = Normal [validDisplayEvent;
                          personalEvent 480 0 sampleProps "a@x.tw" "a" "#3174ad" brokenEvent;
                          newYearDisplayEvent 480])
    by reflexivity.
  assert (Hin : In validDisplayEvent
                  [validDisplayEvent;
                   personalEvent 480 0 sampleProps "a@x.tw" "a" "#3174ad" brokenEvent;
                   newYearDisplayEvent 480])
    by (left; reflexivity).
  split; [eexists; split; [exact Hev | exact Hin]|].
  destruct (event_classes 480 0 sampleProps _ validDisplayEvent Hev Hin) as (H & _).
  intros Hc. apply H in Hc as [E _]. discriminate.
Defined.

End Origins.

(** ** Opening the detail of an event *)
Section Resolution.
Local Open Scope string_scope.
Local Open Scope Z_scope.

Lemma append_inj_l (a x y : string) : a +:+ x = a +:+ y -> x = y.
Proof.
  induction a as [|c a IH]; rewrite ?append_nil, ?append_cons; [tauto|].
  intros H. injection H as H. now apply IH.
Qed.

Lemma append_dash_nonempty (a b : string) : a +:+ "-" +:+ b <> "".
Proof. destruct a; rewrite ?append_nil, ?append_cons; discriminate. Qed.

Lemma lookupCalendar_In cals key v :
  List.NoDup (map fst cals) -> In (key, v) cals -> lookupCalendar cals key = Own v.
Proof.
  unfold lookupCalendar.
  induction cals as [|[k w] cals IH]; intros Hnd Hin; [contradiction|].
  cbn [map fst] in Hnd. apply List.NoDup_cons_iff in Hnd as [Hk Hnd].
  cbn [List.find fst]. destruct (String.eqb_spec k key) as [-> | Hne].
  - destruct Hin as [E | Hin]; [inversion E; reflexivity|].
    exfalso. apply Hk. now apply (in_map fst _ (key, v)).
  - destruct Hin as [E | Hin]; [inversion E; congruence|]. now apply IH.
Qed.

Lemma eqb_append_l (a x y : string) : String.eqb (a +:+ x) (a +:+ y) = String.eqb x y.
Proof.
  induction a as [|c a IH]; rewrite ?append_nil, ?append_cons; [reflexivity|].
  cbn [String.eqb]. now rewrite Ascii.eqb_refl.
Qed.

Lemma find_ext {A} (f g : A -> bool) l :
  (forall x, f x = g x) -> List.find f l = List.find g l.
Proof.
  intros H. induction l as [|x l IH]; [reflexivity|].
  cbn [List.find]. now rewrite H, IH.
Qed.

Lemma In_same_key {A B} (f : A -> B) l a b :
  List.NoDup (map f l) -> In a l -> In b l -> f a = f b -> a = b.
Proof.
  induction l as [|x l IH]; intros Hnd Ha Hb E; [contradiction|].
  cbn [map] in Hnd. apply List.NoDup_cons_iff in Hnd as [Hx Hnd].
  destruct Ha as [-> | Ha], Hb as [-> | Hb]; try reflexivity.
  - exfalso. apply Hx. rewrite E. now apply in_map.
  - exfalso. apply Hx. rewrite <- E. now apply in_map.
  - now apply IH.
Qed.

Lemma find_first_match {A} (f : A -> bool) l a :
  In a l -> f a = true -> exists b, List.find f l = Some b /\ In b l /\ f b = true.
Proof.
  intros Hin Hf. destruct (List.find f l) as [b|] eqn:E.
  - exists b. apply find_some in E as [Hb Hfb]. auto.
  - exfalso. pose proof (find_none _ _ E a Hin) as Hn. congruence.
Qed.

(** X8.  A click on the chip of a personal event hands the callback a
    record of the same owner with the same source id, together with the
    rectangle of the chip, provided the owner key is not empty; when the
    ids of the owner's records are distinct it is the very record the chip
    was made from.  With an empty owner key, or without a callback, nothing
    is called. *)
Theorem personal_click_resolves (tz now : Z) (p : Props) (email userName baseColor : string)
    (userEvents : list CalendarEvent) (event : CalendarEvent)
    (el : option EventAnchorRect) :
  List.NoDup (map fst (calendars p)) -> In (email, userEvents) (calendars p) ->
  In event userEvents ->
  let chip := personalEvent tz now p email userName baseColor event in
  (email <> "" ->
   exists original,
     handleEventClick true (calendars p) (oncallEvents p) chip el
     = Normal (Some (original, el))
     /\ In original userEvents /\ id original = id event
     /\ (List.NoDup (map id userEvents) -> original = event))
  /\ (email = "" ->
      handleEventClick true (calendars p) (oncallEvents p) chip el = Normal None)
  /\ handleEventClick false (calendars p) (oncallEvents p) chip el = Normal None.
Proof.
  intros Hnd Hc He chip. subst chip.
  unfold handleEventClick, openEventDetail.
  cbn [personalEvent fc_extendedProps ep_isHoliday ep_userEmail ep_isOncall fc_id truthy
       default from_option Datatypes.id negb].
  split; [|split; [|reflexivity]].
  - intros Hne. apply String.eqb_neq in Hne. rewrite Hne. cbn [negb].
    unfold findInCalendar. rewrite (lookupCalendar_In _ _ _ Hnd Hc).
    destruct (find_first_match
                (fun e => String.eqb (email +:+ "-" +:+ id e)
                            (personalEventId email (id event)))
                userEvents event He (String.eqb_refl _)) as (original & -> & Ho & Hk).
    exists original. split; [reflexivity|]. split; [exact Ho|].
    apply String.eqb_eq in Hk. unfold personalEventId in Hk.
    apply append_inj_l, (append_inj_l "-") in Hk.
    split; [exact Hk|]. intros Hids. now apply (In_same_key id userEvents).
  - intros ->. reflexivity.
Qed.

Lemma personal_click_resolves_witness :
  List.NoDup (map fst (calendars sampleProps))
  /\ exists original,
       handleEventClick true (calendars sampleProps) (oncallEvents sampleProps)
         validDisplayEvent None = Normal (Some (original, None))
       /\ id original = id validEvent.
Proof.
  assert (Hnd : List.NoDup (map fst (calendars sampleProps))).
  { apply List.NoDup_cons; [intros [] | apply List.NoDup_nil]. }
  split; [exact Hnd|].
  destruct (personal_click_resolves 480 0 sampleProps "a@x.tw" "a" "#3174ad"
              [validEvent; brokenEvent] validEvent None Hnd)
    as (H & _); [left; reflexivity | left; reflexivity |].
  destruct H as (original & E & _ & Hid & _); [discriminate|].
  exists original. split; [exact E | exact Hid].
Defined.

(** X9.  The activation of an on-call event of the list, by a click or
    from the overflow popover, resolves in this order.  When the owner key
    is not empty and the calendars hold an entry for it with a record of
    the same source id, the callback gets the first such record: the
    personal record wins.  Otherwise, that is with an empty owner key, with
    no entry for the owner or with an entry that has no record of that id,
    the callback gets the first on-call record with the identifier of the
    event, which exists.  When the owner key is a member of
    [Object.prototype] that the calendars do not own, the lookup throws and
    nothing is called. *)
Theorem oncall_activation_resolves (tz now : Z) (p : Props) (baseColor : string)
    (event : CalendarEvent) (cals : list (string * list CalendarEvent))
    (anchor : option EventAnchorRect) :
  In event (oncallEvents p) ->
  let chip := oncallEvent tz now p baseColor event in
  let owner := userEmail event in
  let sameId := fun e => String.eqb (id e) (id event) in
  let sameKey := fun e =>
    String.eqb (userEmail e +:+ "-" +:+ id e) (owner +:+ "-" +:+ id event) in
  let activation := openEventDetail true cals (oncallEvents p) chip anchor in
  handleEventClick true cals (oncallEvents p) chip anchor = activation
  /\ (forall userEvents first,
        owner <> "" -> lookupCalendar cals owner = Own userEvents ->
        List.find sameId userEvents = Some first ->
        activation = Normal (Some (first, anchor)))
  /\ (owner = "" \/ lookupCalendar cals owner = Undefined
      \/ (exists userEvents, lookupCalendar cals owner = Own userEvents
                             /\ List.find sameId userEvents = None) ->
      exists original,
        List.find sameKey (oncallEvents p) = Some original
        /\ In original (oncallEvents p)
        /\ activation = Normal (Some (original, anchor)))
  /\ (owner <> "" -> lookupCalendar cals owner = Inherited -> activation = TypeError).
Proof.
  intros He chip owner sameId sameKey activation. subst activation chip.
  unfold handleEventClick.
  cbn [oncallEvent fc_extendedProps ep_isHoliday truthy default from_option Datatypes.id].
  split; [reflexivity|].
  unfold openEventDetail.
  cbn [oncallEvent fc_extendedProps ep_userEmail ep_isOncall fc_id truthy default
       from_option Datatypes.id negb].
  fold owner. unfold oncallEventId. fold owner. fold sameKey.
  assert (Hfind : forall userEvents,
             List.find (fun e => String.eqb (owner +:+ "-" +:+ id e)
                                   (owner +:+ "-" +:+ id event)) userEvents
             = List.find sameId userEvents).
  { intros userEvents. apply find_ext. intros x.
    now rewrite eqb_append_l, (eqb_append_l "-"). }
  destruct (find_first_match sameKey (oncallEvents p) event He (String.eqb_refl _))
    as (second & Hf & Hs & _).
  split; [|split].
  - intros userEvents first Hne Hl Hfirst.
    apply String.eqb_neq in Hne. rewrite Hne. cbn [negb].
    unfold findInCalendar. rewrite Hl, Hfind, Hfirst. reflexivity.
  - intros Hcase. exists second. split; [exact Hf|]. split; [exact Hs|].
    destruct (String.eqb_spec owner "") as [E | Hne]; cbn [negb].
    + cbn. rewrite Hf. reflexivity.
    + destruct Hcase as [E | [Hl | (userEvents & Hl & Hnone)]]; [contradiction | |];
        unfold findInCalendar; rewrite Hl.
      * cbn. rewrite Hf. reflexivity.
      * rewrite Hfind, Hnone. cbn. rewrite Hf. reflexivity.
  - intros Hne Hl. apply String.eqb_neq in Hne. rewrite Hne. cbn [negb].
    unfold findInCalendar. rewrite Hl. reflexivity.
Qed.

Lemma oncall_activation_resolves_witness :
  In oncallShift (oncallEvents oncallProps)
  /\ openEventDetail true [] (oncallEvents oncallProps)
       (oncallEvent 480 0 oncallProps "#4f46e5" oncallShift) None
     = Normal (Some (oncallShift, None))
  /\ openEventDetail true [("a@x.tw", [sampleEvent "w07" "2024-02-12T09:00:00Z"])]
       (oncallEvents oncallProps)
       (oncallEvent 480 0 oncallProps "#4f46e5" oncallShift) None
     = Normal (Some (sampleEvent "w07" "2024-02-12T09:00:00Z", None)).
Proof.
  assert (Hin : In oncallShift (oncallEvents oncallProps)) by (left; reflexivity).
  split; [exact Hin|]. split.
  - destruct (oncall_activation_resolves 480 0 oncallProps "#4f46e5" oncallShift
                [] None Hin) as (_ & _ & H & _).
    destruct H as (original & Hf & _ & E); [right; left; reflexivity|].
    injection Hf as <-. exact E.
  - destruct (oncall_activation_resolves 480 0 oncallProps "#4f46e5" oncallShift
                [("a@x.tw", [sampleEvent "w07" "2024-02-12T09:00:00Z"])] None Hin)
      as (_ & H & _).
    apply (H [sampleEvent "w07" "2024-02-12T09:00:00Z"]); [discriminate | reflexivity..].
Defined.

(** X10.  What a click stores as the selected key marks the clicked event
    in the next render: for a record whose own [userEmail] is the key of
    its calendar, the event list made with [selectedEventId] set to that
    key contains the record's event with the class [fc-event-selected], and
    every event with that class has the key as its identifier. *)
Theorem clicked_event_is_highlighted (tz now : Z) (p : Props) (email : string)
    (userEvents : list CalendarEvent) (event : CalendarEvent)
    (next : list FullCalendarEvent) :
  In (email, userEvents) (calendars p) -> In email (selectedUsers p) ->
  In event userEvents -> userEmail event = email ->
  let key := Selection.selectedEventKey event in
  events tz now (withSelection p key) = Normal next ->
  (exists out, In out next /\ fc_id out = key
               /\ fc_start out = Date_parse tz (dateTime (start event))
               /\ In "fc-event-selected" (fc_classNames out))
  /\ (forall out, In out next -> In "fc-event-selected" (fc_classNames out) ->
                  fc_id out = key).
Proof.
  intros Hc Hs He Hu key Hev. split.
  - set (p' := withSelection p key) in *.
    destruct (ownerColor p' email) as [c|] eqn:Ec.
    2:{ assert (Hf : events tz now p' = TypeError).
        { apply events_TypeError. left. exists (email, userEvents).
          cbn [fst snd]. split; [exact Hc|]. split; [exact Hs|].
          split; [intros ->; contradiction | now apply ownerColor_fails]. }
        congruence. }
    exists (personalEvent tz now p' email (ownerName p' email) c event).
    assert (Hk : personalEventId email (id event) = key).
    { unfold key, Selection.selectedEventKey, personalEventId. now rewrite Hu. }
    split; [|split; [exact Hk | split; [reflexivity|]]].
    + apply (origin_in_events _ _ _ _ _ Hev).
      exact (FromOwner tz now p' _ email userEvents event Hc Hs He c Ec eq_refl).
    + cbn [personalEvent fc_classNames]. apply In_pushIf. right.
      split; [|reflexivity]. apply isSelected_true.
      cbn [withSelection selectedEventId p']. rewrite Hk.
      split; [reflexivity | apply append_dash_nonempty].
  - intros out Hin Hcl.
    destruct (events_origin _ _ _ _ _ Hev Hin)
      as [e' evs' ev' _ _ _ c _ -> | h _ _ -> | ev' _ _ c _ ->];
      cbn [personalEvent holidayEvent oncallEvent fc_classNames fc_id] in *;
      apply In_pushIf in Hcl as [Hcl | [Hsel _]];
      try (apply isSelected_true in Hsel as [E _];
           cbn [withSelection selectedEventId] in E; congruence);
      apply In_pushIf in Hcl as [Hcl | [_ Hcl]]; try discriminate;
      cbn [In] in Hcl; intuition discriminate.
Qed.

Lemma clicked_event_is_highlighted_witness :
  userEmail validEvent = "a@x.tw"
  /\ exists next out,
       events 480 0 (withSelection sampleProps (Selection.selectedEventKey validEvent))
       = Normal next
       /\ In out next
       /\ fc_id out = "a@x.tw-1"
       /\ In "fc-event-selected" (fc_classNames out).
Proof.
  assert (Hu : userEmail validEvent = "a@x.tw") by reflexivity.
  split; [exact Hu|].
  eexists.
  destruct (clicked_event_is_highlighted 480 0 sampleProps "a@x.tw"
              [validEvent; brokenEvent] validEvent _
              (or_introl eq_refl) (or_introl eq_refl) (or_introl eq_refl) Hu eq_refl)
    as ((out & Hin & Hid & _ & Hcl) & _).
  exists out. split; [reflexivity|]. split; [exact Hin|]. split; [exact Hid | exact Hcl].
Defined.

End Resolution.

(** ** Rows, labels and the wheel *)
Section ViewControls.
Local Open Scope Z_scope.

(** X11.  The row count of a month view does not depend on the exact
    length of its days: for a range of [n] days give or take less than
    half a day (a change of daylight saving time inside the range), with
    [n] within three days of [7 k], the stored row count is [k]. *)
Theorem rows_tolerate_shifted_days (start n k delta : Z) :
  1 <= k -> 7 * k - 3 <= n <= 7 * k + 3 -> -43200000 <= delta < 43200000 ->
  rowsOfRange start (start + n * MS_PER_DAY + delta) = k.
Proof.
  intros Hk Hn Hd. unfold rowsOfRange, Num.round_div, MS_PER_DAY.
  change (24 * 60 * 60 * 1000) with 86400000.
  replace (start + n * 86400000 + delta - start) with (n * 86400000 + delta) by lia.
  replace ((2 * (n * 86400000 + delta) + 86400000) / (2 * 86400000)) with n
    by (Z.div_mod_to_equations; lia).
  rewrite (Z.max_r 1 n) by lia.
  replace ((2 * n + 7) / (2 * 7)) with k by (Z.div_mod_to_equations; lia).
  lia.
Qed.

Lemma rows_tolerate_shifted_days_witness :
  rowsOfRange 0 (0 + 35 * MS_PER_DAY + -3600000) = 5.
Proof. apply (rows_tolerate_shifted_days 0 35 5 (-3600000)); lia. Defined.

(** X12.  A month cell carries the weekday label exactly when it lies in
    the first seven days from the start of the view: for a cell [i] whole
    days and a part of a day after the start, exactly when [0 <= i < 7].
    A cell that starts an hour short of seven days after the start, as
    after the clocks went forward, still carries it. *)
Theorem weekday_label_on_first_week (viewStart i part : Z) :
  0 <= part < Controls.millisecondsInDay ->
  Controls.showWeekday (viewStart + i * Controls.millisecondsInDay + part) viewStart
  = (0 <=? i) && (i <? 7).
Proof.
  intros Hp. unfold Controls.showWeekday, Controls.millisecondsInDay in *.
  change (24 * 60 * 60 * 1000) with 86400000 in *.
  replace (viewStart + i * 86400000 + part - viewStart) with (i * 86400000 + part) by lia.
  replace ((i * 86400000 + part) / 86400000) with i by (Z.div_mod_to_equations; lia).
  reflexivity.
Qed.

Lemma weekday_label_on_first_week_witness :
  Controls.showWeekday (0 + 6 * Controls.millisecondsInDay + 82800000) 0 = true.
Proof.
  rewrite (weekday_label_on_first_week 0 6 82800000); [reflexivity|].
  unfold Controls.millisecondsInDay. lia.
Defined.

End ViewControls.

Section Wheel.
Local Open Scope Q_scope.
Import Controls.

(** Destructs every comparison of the goal, keeping each as an order fact
    in front of the goal. *)
Ltac order_cases :=
  repeat match goal with
    | |- context [Num.ltb ?a ?b] =>
        let E := fresh "E" in
        destruct (Num.ltb a b) eqn:E;
        [apply ltb_true in E | apply ltb_false in E]; revert E
    | |- context [Qle_bool ?a ?b] =>
        let E := fresh "E" in
        let F := fresh "F" in
        destruct (Qle_bool a b) eqn:E;
        [apply Qle_bool_iff in E; revert E
        | assert (F : b < a) by (apply Qnot_le_lt; intros ?Hle;
                                 apply Qle_bool_iff in Hle; congruence);
          clear E; revert F]
    end;
  cbn [orb andb negb]; intros.

(** X13.  The wheel turns the page only in month view, without the control
    key, for a vertical movement of at least 30 that is not smaller than
    the horizontal one: forward for a positive movement, backward for a
    negative one.  The same movement in the opposite direction turns the
    page the other way. *)
Theorem wheel_navigation (view : option ViewType) (event : WheelEvent) :
  (handleWheel view event = Some NavNext <->
   view = Some dayGridMonth /\ wheel_ctrlKey event = false
   /\ 30 <= deltaY event /\ Math_abs (deltaX event) <= deltaY event)
  /\ (handleWheel view event = Some NavPrev <->
      view = Some dayGridMonth /\ wheel_ctrlKey event = false
      /\ deltaY event <= -(30) /\ Math_abs (deltaX event) <= - deltaY event)
  /\ handleWheel view (mirrored event) = opposite <$> handleWheel view event.
Proof.
  unfold handleWheel, mirrored. cbn [wheel_ctrlKey deltaX deltaY].
  destruct view as [[]|]; cbn [fmap option_fmap option_map];
    try (repeat split; intros; try discriminate; intuition discriminate).
  destruct (wheel_ctrlKey event);
    [repeat split; intros; try discriminate; intuition discriminate|].
  unfold Math_abs.
  order_cases; cbn [fmap option_fmap option_map opposite];
    repeat split; intros;
    repeat match goal with H : _ /\ _ |- _ => destruct H end;
    try discriminate; try reflexivity; try lra;
    exfalso; lra.
Qed.

Lemma wheel_navigation_witness :
  handleWheel (Some dayGridMonth)
    {| wheel_ctrlKey := false; deltaX := 4; deltaY := 120 |} = Some NavNext.
Proof.
  apply (wheel_navigation (Some dayGridMonth)
           {| wheel_ctrlKey := false; deltaX := 4; deltaY := 120 |}).
  cbn [wheel_ctrlKey deltaX deltaY]. repeat split; vm_compute; congruence.
Defined.

End Wheel.

(** ** The published row height over a whole session *)
Section MetricsTrace.
Local Open Scope Z_scope.

(** What holds of the mounted component between two triggers. *)
Lemma step_keeps_metrics (ts : list Trigger) : forall (m : Mounted) (acc : option Q),
  effectRowCount m = 6 ->
  calendarViewportHeight (state m) = acc ->
  dayFrameMinHeight (state m) = dayFrameHeight 6 <$> acc ->
  effectRowCount (foldl step m ts) = 6
  /\ calendarViewportHeight (state (foldl step m ts)) = Ref2.lastMeasured acc ts
  /\ dayFrameMinHeight (state (foldl step m ts))
     = dayFrameHeight 6 <$> Ref2.lastMeasured acc ts.
Proof.
  induction ts as [|t ts IH]; intros m acc Hr Hh Hf.
  - cbn. auto.
  - unfold Ref2.lastMeasured. cbn [foldl]. fold (Ref2.lastMeasured).
    destruct t as [view start end_ | height].
    + destruct view; cbn [step]; apply IH; cbn; auto.
    + cbn [step]. rewrite Hr. unfold updateMetrics.
      destruct (Qeq_bool height 0); apply IH; cbn; auto.
Qed.

(** X14.  Through a whole session of view changes and resize
    notifications, the stored viewport height is the last measured height
    that was not zero (the height at mount first), and the published
    day-frame minimum height is computed from that height and six rows,
    whatever row counts the view changes stored in between; it lies
    between 48 and 120. *)
Theorem row_height_over_session (hostHeight : Q) (ts : list Trigger) :
  calendarViewportHeight (state (run hostHeight ts))
  = Ref2.lastMeasured None (Resize hostHeight :: ts)
  /\ dayFrameMinHeight (state (run hostHeight ts))
     = dayFrameHeight 6 <$> calendarViewportHeight (state (run hostHeight ts))
  /\ (forall h, dayFrameMinHeight (state (run hostHeight ts)) = Some h ->
      48 <= h <= 120).
Proof.
  unfold run.
  destruct (step_keeps_metrics ts (mount hostHeight)
              (calendarViewportHeight (state (mount hostHeight))))
    as (_ & Hh & Hf).
  - reflexivity.
  - reflexivity.
  - unfold mount, updateMetrics. cbn.
    destruct (Qeq_bool hostHeight 0); reflexivity.
  - assert (Hm : calendarViewportHeight (state (mount hostHeight))
                 = Ref2.lastMeasured None [Resize hostHeight]).
    { unfold mount, updateMetrics, Ref2.lastMeasured. cbn.
      destruct (Qeq_bool hostHeight 0); reflexivity. }
    split; [|split].
    + rewrite Hh, Hm. unfold Ref2.lastMeasured. reflexivity.
    + rewrite Hf, Hh. reflexivity.
    + intros h E. rewrite Hf in E.
      destruct (Ref2.lastMeasured _ ts); [|discriminate].
      injection E as <-. apply dayFrameHeight_band.
Qed.

Lemma row_height_over_session_witness :
  dayFrameMinHeight (state (run 800 [DatesSet dayGridMonth 0 (35 * MS_PER_DAY); Resize 664]))
  = Some 100
  /\ 48 <= 100 <= 120.
Proof.
  assert (E : dayFrameMinHeight
                (state (run 800 [DatesSet dayGridMonth 0 (35 * MS_PER_DAY); Resize 664]))
              = Some 100) by (vm_compute; reflexivity).
  split; [exact E|].
  exact (proj2 (proj2 (row_height_over_session 800
                         [DatesSet dayGridMonth 0 (35 * MS_PER_DAY); Resize 664])) 100 E).
Defined.

End MetricsTrace.

(** ** The detail card beside its anchor *)
Section CardBesideAnchor.
Import Binary64.
Local Open Scope Q_scope.

Tactic Notation "compare_lt" constr(a) constr(b) ident(E) :=
  destruct (a <? b)%float eqn:E;
  [apply ltb_toQ in E; [| assumption | assumption]
  | apply ltb_false_toQ in E; [| assumption | assumption]].

Tactic Notation "compare_le" constr(a) constr(b) ident(E) :=
  destruct (a <=? b)%float eqn:E;
  [apply leb_toQ in E; [| assumption | assumption]
  | apply leb_false_toQ in E; [| assumption | assumption]].



End CardBesideAnchor.

(** ** The holiday list of the sidebar *)
Section SidebarMonth.
Local Open Scope Z_scope.

Lemma newDateLocal_first tz year monthIndex :
  newDateLocal tz year monthIndex 1
  = Ref2.monthFirstDay year monthIndex * msPerDay - tz * 60000.
Proof. unfold newDateLocal, Ref2.monthFirstDay, msPerDay. cbv zeta. lia. Qed.

Lemma newDateLocal_last tz year monthIndex :
  newDateLocal tz year (monthIndex + 1) 0
  = Ref2.monthLastDay year monthIndex * msPerDay - tz * 60000.
Proof.
  unfold newDateLocal, Ref2.monthLastDay, Ref2.monthFirstDay, msPerDay. cbv zeta. lia.
Qed.



End SidebarMonth.

(** ** Stored preferences *)
Section StoredPreferences.
Import Preferences.
Local Open Scope string_scope.

Lemma loadFlag_of_bool (b : bool) (storage : gmap string string) (key : string) :
  loadFlag (<[key := String_of_bool b]> storage) key = b.
Proof. unfold loadFlag. rewrite lookup_insert_eq. destruct b; reflexivity. Qed.

(** X17.  The display preferences survive a reload: what the three
    effects wrote is what the three initial states read back, for every
    theme mode other than the empty string and whatever the storage held
    before; and the effects change no other key of the storage. *)
Theorem preferences_round_trip (p : Prefs) (storage : gmap string string) :
  pref_themeMode p <> "" ->
  loadPrefs (savePrefs p storage) = p
  /\ (forall key,
        key <> "fas-calendar:show-lunar" -> key <> "fas-calendar:show-oncall" ->
        key <> "fas-calendar:theme" ->
        savePrefs p storage !! key = storage !! key).
Proof.
  intros Hne. split.
  - unfold loadPrefs, savePrefs. destruct p as [lunar oncall theme].
    cbn [pref_showLunar pref_showOncall pref_themeMode] in *.
    f_equal.
    + unfold loadFlag. rewrite lookup_insert_ne by discriminate.
      rewrite lookup_insert_ne by discriminate.
      rewrite lookup_insert_eq. destruct lunar; reflexivity.
    + unfold loadFlag. rewrite lookup_insert_ne by discriminate.
      rewrite lookup_insert_eq. destruct oncall; reflexivity.
    + rewrite lookup_insert_eq. cbn [or_undefined]. unfold or_string.
      destruct (String.eqb_spec theme ""); [contradiction | reflexivity].
  - intros key H1 H2 H3. unfold savePrefs.
    rewrite !lookup_insert_ne by congruence. reflexivity.
Qed.

Lemma preferences_round_trip_witness :
  loadPrefs (savePrefs {| pref_showLunar := false; pref_showOncall := true;
                          pref_themeMode := "dark" |}
               {[ "fas-calendar:theme" := "light" ]})
  = {| pref_showLunar := false; pref_showOncall := true; pref_themeMode := "dark" |}.
Proof.
  apply (preferences_round_trip
           {| pref_showLunar := false; pref_showOncall := true; pref_themeMode := "dark" |}
           {[ "fas-calendar:theme" := "light" ]}).
  cbn. discriminate.
Defined.

End StoredPreferences.

(** ** The selection of owners *)
Section OwnerSelection.
Import Selection.
Local Open Scope string_scope.

Lemma existsb_email (users : list UserInfo) (e : string) :
  existsb (fun u => String.eqb (email u) e) users = true <-> In e (map email users).
Proof.
  rewrite existsb_exists, in_map_iff. split.
  - intros (u & Hin & E). apply String.eqb_eq in E. eauto.
  - intros (u & E & Hin). exists u. split; [exact Hin|]. now apply String.eqb_eq.
Qed.

Lemma filter_keeps_order {A} (f : A -> bool) (l : list A) :
  sublist (List.filter f l) l.
Proof.
  induction l as [|x l IH]; cbn [List.filter].
  - apply sublist_nil.
  - destruct (f x); [apply sublist_skip | apply sublist_cons]; exact IH.
Qed.

Lemma filter_twice {A} (f : A -> bool) (l : list A) :
  List.filter f (List.filter f l) = List.filter f l.
Proof.
  induction l as [|x l IH]; [reflexivity|].
  cbn [List.filter]. destruct (f x) eqn:E; [|exact IH].
  cbn [List.filter]. rewrite E. f_equal. exact IH.
Qed.

(** X18.  When the list of users is not empty, the selection that the
    synchronising effect stores holds only emails of users: all of them
    before the first manual choice, and afterwards exactly the previously
    selected emails that still belong to a user, in their order, so that
    a user who appears later is not selected by the effect.  Running the
    effect again changes nothing. *)
Theorem selection_follows_users (users : list UserInfo) (initialized : bool)
    (prev : list string) :
  users <> [] ->
  (forall e, In e (syncSelection users initialized prev)
             <-> In e (map email users) /\ (initialized = true -> In e prev))
  /\ (initialized = true -> sublist (syncSelection users initialized prev) prev)
  /\ syncSelection users initialized (syncSelection users initialized prev)
     = syncSelection users initialized prev.
Proof.
  intros Hne. unfold syncSelection.
  destruct users as [|u0 users']; [contradiction|]. cbn [length Nat.eqb].
  set (users := u0 :: users') in *.
  destruct initialized; cbn [negb].
  - split; [|split].
    + intros e. rewrite filter_In, existsb_email. tauto.
    + intros _. apply filter_keeps_order.
    + apply filter_twice.
  - split; [|split].
    + intros e. split; [intros H; split; [exact H | discriminate] | tauto].
    + discriminate.
    + reflexivity.
Qed.

Lemma selection_follows_users_witness :
  ~ In "c@x.tw" (syncSelection sampleUsers true ["c@x.tw"; "a@x.tw"]).
Proof.
  intros Hin.
  apply (proj1 (selection_follows_users sampleUsers true ["c@x.tw"; "a@x.tw"]
                  ltac:(discriminate))) in Hin.
  destruct Hin as [Hin _]. cbn in Hin. intuition discriminate.
Defined.

(** X19.  Ticking a user in the selector flips the membership of that
    email and of no other: afterwards the email is selected exactly when
    it was not before, and every other email is selected exactly when it
    was.  A selection without repetitions stays without repetitions. *)
Theorem toggle_flips_one_user (selectedUsers : list string) (e : string) :
  (In e (toggleUser selectedUsers e) <-> ~ In e selectedUsers)
  /\ (forall x, x <> e -> (In x (toggleUser selectedUsers e) <-> In x selectedUsers))
  /\ (List.NoDup selectedUsers -> List.NoDup (toggleUser selectedUsers e)).
Proof.
  unfold toggleUser.
  destruct (existsb (String.eqb e) selectedUsers) eqn:E.
  - assert (Hin : In e selectedUsers).
    { apply existsb_exists in E as (x & Hx & Ex). apply String.eqb_eq in Ex. now subst. }
    split; [|split].
    + rewrite filter_In. split; [|tauto].
      intros [_ H]. rewrite String.eqb_refl in H. discriminate.
    + intros x Hx. rewrite filter_In. split; [tauto|].
      intros H. split; [exact H|].
      destruct (String.eqb_spec x e); [contradiction | reflexivity].
    + apply List.NoDup_filter.
  - assert (Hnin : ~ In e selectedUsers).
    { intros Hin. assert (existsb (String.eqb e) selectedUsers = true); [|congruence].
      apply existsb_exists. exists e. split; [exact Hin | apply String.eqb_refl]. }
    split; [|split].
    + rewrite in_app_iff. cbn. tauto.
    + intros x Hx. rewrite in_app_iff. cbn. split; [|tauto].
      intros [H | [H | []]]; [exact H | congruence].
    + intros Hnd. apply List.NoDup_app; [exact Hnd | |].
      * apply List.NoDup_cons; [intros [] | apply List.NoDup_nil].
      * intros x Hx [<- | []]. contradiction.
Qed.

Lemma toggle_flips_one_user_witness :
  List.NoDup (toggleUser ["a@x.tw"; "b@x.tw"] "a@x.tw").
Proof.
  apply (proj2 (proj2 (toggle_flips_one_user ["a@x.tw"; "b@x.tw"] "a@x.tw"))).
  repeat (apply List.NoDup_cons; [cbn; intuition discriminate|]). apply List.NoDup_nil.
Defined.

(** X20.  The select-all control compares two lengths only.  For a
    selection without repetitions that holds only emails of users, and
    users with distinct emails, that is the right test: the control
    clears the selection when every user is selected and selects every
    user otherwise. *)
Theorem toggle_all_by_count (users : list UserInfo) (selectedUsers : list string) :
  List.NoDup selectedUsers -> List.NoDup (map email users) ->
  incl selectedUsers (map email users) ->
  (incl (map email users) selectedUsers -> toggleAll users selectedUsers = [])
  /\ (~ incl (map email users) selectedUsers ->
      toggleAll users selectedUsers = map email users).
Proof.
  intros Hsel Husers Hsub. unfold toggleAll.
  pose proof (List.NoDup_incl_length Hsel Hsub) as Hle.
  rewrite length_map in Hle.
  destruct (Nat.eqb_spec (length selectedUsers) (length users)) as [E | E].
  - split; [reflexivity|]. intros Hnot. exfalso. apply Hnot.
    apply (List.NoDup_length_incl Hsel); [|exact Hsub].
    rewrite length_map. lia.
  - split; [|reflexivity]. intros Hall. exfalso. apply E.
    pose proof (List.NoDup_incl_length Husers Hall) as Hge.
    rewrite length_map in Hge. lia.
Qed.

Lemma toggle_all_by_count_witness :
  toggleAll sampleUsers ["b@x.tw"] = ["a@x.tw"; "b@x.tw"].
Proof.
  apply (proj2 (toggle_all_by_count sampleUsers ["b@x.tw"]
                  ltac:(repeat constructor; cbn; tauto)
                  ltac:(repeat constructor; cbn; intuition discriminate)
                  ltac:(intros x [<- | []]; cbn; tauto))).
  intros H. specialize (H "a@x.tw" ltac:(cbn; tauto)).
  cbn in H. intuition discriminate.
Defined.

End OwnerSelection.

(** ** Searching *)
Section Searching.
Import Text Search.
Local Open Scope string_scope.

Lemma toLowerCaseChar_twice (c : ascii) :
  toLowerCaseChar (toLowerCaseChar c) = toLowerCaseChar c.
Proof. destruct c as [[] [] [] [] [] [] [] []]; vm_compute; reflexivity. Qed.

Lemma toLowerCaseChar_space (c : ascii) :
  isStrWhiteSpaceChar (toLowerCaseChar c) = isStrWhiteSpaceChar c.
Proof. destruct c as [[] [] [] [] [] [] [] []]; vm_compute; reflexivity. Qed.

Lemma toLowerCase_twice (s : string) : Text.toLowerCase (Text.toLowerCase s) = Text.toLowerCase s.
Proof.
  induction s as [|c s IH]; [reflexivity|].
  cbn [Text.toLowerCase]. now rewrite toLowerCaseChar_twice, IH.
Qed.

Lemma toLowerCase_empty (s : string) :
  String.eqb (Text.toLowerCase s) "" = String.eqb s "".
Proof. destruct s; reflexivity. Qed.

Lemma trimStart_toLowerCase (s : string) :
  trimStart (Text.toLowerCase s) = Text.toLowerCase (trimStart s).
Proof.
  induction s as [|c s IH]; [reflexivity|].
  cbn [Text.toLowerCase trimStart]. rewrite toLowerCaseChar_space.
  destruct (isStrWhiteSpaceChar c); [exact IH | reflexivity].
Qed.

Lemma trimEnd_toLowerCase (s : string) :
  trimEnd (Text.toLowerCase s) = Text.toLowerCase (trimEnd s).
Proof.
  induction s as [|c s IH]; [reflexivity|].
  cbn [Text.toLowerCase trimEnd]. rewrite IH, toLowerCase_empty, toLowerCaseChar_space.
  destruct (String.eqb (trimEnd s) "" && isStrWhiteSpaceChar c); reflexivity.
Qed.

Lemma trim_toLowerCase (s : string) :
  trim (Text.toLowerCase s) = Text.toLowerCase (trim s).
Proof. unfold trim. now rewrite trimStart_toLowerCase, trimEnd_toLowerCase. Qed.

Lemma prefix_toLowerCase (t s : string) :
  String.prefix t s = true ->
  String.prefix (Text.toLowerCase t) (Text.toLowerCase s) = true.
Proof.
  revert s. induction t as [|c t IH]; intros s H.
  - destruct s; reflexivity.
  - destruct s as [|d s]; [discriminate|].
    cbn [String.prefix Text.toLowerCase] in *.
    destruct (Ascii.ascii_dec c d) as [-> | Hne]; [|discriminate].
    destruct (Ascii.ascii_dec _ _); [|contradiction]. now apply IH.
Qed.

Lemma includes_toLowerCase (s t : string) :
  includes s t = true -> includes (Text.toLowerCase s) (Text.toLowerCase t) = true.
Proof.
  induction s as [|c s IH]; cbn [includes Text.toLowerCase]; intros H.
  - apply orb_true_iff in H as [H | H]; [|discriminate].
    apply prefix_toLowerCase in H. cbn [Text.toLowerCase] in H. now rewrite H.
  - apply orb_true_iff in H as [H | H].
    + apply prefix_toLowerCase in H. cbn [Text.toLowerCase] in H. now rewrite H.
    + rewrite (IH H). apply orb_true_r.
Qed.

(** The loop over the owners, as a list. *)
Lemma foldl_addMatches users term cals : forall filtered,
  foldl (addMatches users term) filtered cals
  = (filtered
     ++ List.filter (fun entry => negb (Nat.eqb (length (snd entry)) 0)
                                  && negb (String.eqb (fst entry) "__proto__"))
          (map (fun entry =>
                  (fst entry,
                   List.filter (matchesTerm (ownerNameLower users (fst entry)) term)
                     (snd entry))) cals))%list.
Proof.
  induction cals as [|[email events] cals IH]; intros filtered.
  - cbn. now rewrite app_nil_r.
  - cbn [foldl map List.filter fst snd]. rewrite IH. unfold addMatches.
    destruct (List.filter _ events) as [|m ms];
      cbn [length Nat.ltb Nat.leb Nat.eqb negb andb].
    + reflexivity.
    + destruct (String.eqb email "__proto__"); cbn [negb];
        [reflexivity | now rewrite <- app_assoc].
Qed.

Lemma searched_entry users term cals email matched :
  In (email, matched) (foldl (addMatches users term) [] cals)
  <-> matched <> [] /\ email <> "__proto__"
      /\ exists events, In (email, events) cals
                        /\ matched = List.filter (matchesTerm (ownerNameLower users email) term)
                                       events.
Proof.
  rewrite foldl_addMatches. cbn [app]. rewrite filter_In, in_map_iff. cbn [fst snd].
  rewrite andb_true_iff, !negb_true_iff, String.eqb_neq.
  split.
  - intros [([e events] & E & Hin) [Hlen Hp]]. cbn [fst snd] in E. injection E as <- <-.
    split; [|split; [exact Hp | eauto]]. intros Hnil. rewrite Hnil in Hlen. discriminate.
  - intros (Hne & Hp & events & Hin & ->). split.
    + exists (email, events). split; [reflexivity | exact Hin].
    + split; [|exact Hp]. destruct (List.filter _ events); [contradiction | reflexivity].
Qed.

Lemma searched_holds cals users searchTerm email event :
  trim searchTerm <> "" ->
  Ref2.holds (filteredCalendars (Some cals) users searchTerm) email event
  <-> email <> "__proto__" /\ Ref2.holds cals email event
      /\ matchesTerm (ownerNameLower users email)
           (trim (Text.toLowerCase searchTerm)) event = true.
Proof.
  intros Hne. unfold filteredCalendars.
  destruct (String.eqb_spec (trim searchTerm) ""); [contradiction|].
  unfold Ref2.holds. split.
  - intros (matched & Hin & He).
    apply searched_entry in Hin as (_ & Hp & events & Hin & ->).
    apply filter_In in He as [He Hm]. eauto.
  - intros (Hp & (events & Hin & He) & Hm).
    exists (List.filter (matchesTerm (ownerNameLower users email)
                           (trim (Text.toLowerCase searchTerm))) events).
    assert (Hf : In event (List.filter (matchesTerm (ownerNameLower users email)
                                          (trim (Text.toLowerCase searchTerm))) events))
      by (apply filter_In; auto).
    split; [|exact Hf]. apply searched_entry. split; [|split; [exact Hp | eauto]].
    intros Hnil. rewrite Hnil in Hf. contradiction.
Qed.

Lemma includes_empty (t : string) : t <> "" -> includes "" t = false.
Proof. destruct t; [intros H; now elim H | reflexivity]. Qed.

(** The three places a record is searched in. *)
Lemma matchesTerm_places users email term event :
  term <> "" ->
  matchesTerm (ownerNameLower users email) term event = true
  <-> includes (Text.toLowerCase (subject event)) term = true
      \/ (exists user,
            List.find (fun u => String.eqb (Model.email u) email) users = Some user
            /\ includes (Text.toLowerCase (user_displayName user)) term = true)
      \/ (exists l d, location event = Some l /\ displayName l = Some d
                      /\ includes (Text.toLowerCase d) term = true).
Proof.
  intros Ht. unfold matchesTerm, ownerNameLower. rewrite !orb_true_iff.
  assert (Hu : (match List.find (fun u => String.eqb (Model.email u) email) users with
                | Some user => includes (or_string (Text.toLowerCase (user_displayName user)) "") term
                | None => includes "" term
                end = true)
               <-> exists user,
                     List.find (fun u => String.eqb (Model.email u) email) users = Some user
                     /\ includes (Text.toLowerCase (user_displayName user)) term = true).
  { destruct (List.find _ users) as [user|].
    - assert (E : or_string (Text.toLowerCase (user_displayName user)) ""
                  = Text.toLowerCase (user_displayName user)).
      { unfold or_string. destruct (Text.toLowerCase (user_displayName user)); reflexivity. }
      rewrite E. split; [intros H; now exists user | intros (u & [= <-] & H); exact H].
    - rewrite (includes_empty _ Ht). split; [discriminate | intros (u & H & _); discriminate]. }
  assert (Hl : (match location event with
                | Some l => match displayName l with
                            | Some d => includes (Text.toLowerCase d) term
                            | None => false
                            end
                | None => false
                end = true)
               <-> exists l d, location event = Some l /\ displayName l = Some d
                               /\ includes (Text.toLowerCase d) term = true).
  { destruct (location event) as [l|].
    - destruct (displayName l) as [d|] eqn:Ed.
      + split; [intros H; exists l, d; auto|].
        intros (l' & d' & [= <-] & E & H). rewrite Ed in E. injection E as <-. exact H.
      + split; [discriminate|].
        intros (l' & d' & [= <-] & E & _). rewrite Ed in E. discriminate.
    - split; [discriminate | intros (l' & d' & E & _); discriminate]. }
  destruct (List.find _ users) as [user|]; rewrite <- Hl; tauto.
Qed.

Lemma term_not_blank searchTerm :
  trim searchTerm <> "" -> trim (Text.toLowerCase searchTerm) <> "".
Proof.
  intros H E. rewrite trim_toLowerCase in E.
  apply String.eqb_neq in H. rewrite <- toLowerCase_empty in H.
  apply String.eqb_neq in H. contradiction.
Qed.

(** X21.  With a blank search term every calendar is returned as it is.
    Otherwise, with [term] the trimmed, lower-cased search term, the entry
    of an owner whose key is not [__proto__] holds exactly the owner's
    records for which [term] occurs in the lower-cased subject, or in the
    lower-cased display name of the user with the owner's email, or in the
    lower-cased display name of the record's location; the key
    [__proto__] gets no entry.  No owner is returned with an empty list,
    and the owners keep their order. *)
Theorem search_keeps_matches (cals : list (string * list CalendarEvent))
    (users : list UserInfo) (searchTerm : string) :
  (trim searchTerm = "" -> filteredCalendars (Some cals) users searchTerm = cals)
  /\ (trim searchTerm <> "" ->
      let term := trim (Text.toLowerCase searchTerm) in
      (forall email event,
         Ref2.holds (filteredCalendars (Some cals) users searchTerm) email event
         <-> email <> "__proto__" /\ Ref2.holds cals email event
             /\ (includes (Text.toLowerCase (subject event)) term = true
                 \/ (exists user,
                       List.find (fun u => String.eqb (Model.email u) email) users
                       = Some user
                       /\ includes (Text.toLowerCase (user_displayName user)) term = true)
                 \/ (exists l d, location event = Some l /\ displayName l = Some d
                                 /\ includes (Text.toLowerCase d) term = true)))
      /\ (forall email events,
            In (email, events) (filteredCalendars (Some cals) users searchTerm) ->
            events <> [])
      /\ sublist (map fst (filteredCalendars (Some cals) users searchTerm)) (map fst cals)).
Proof.
  split.
  - unfold filteredCalendars. intros ->. reflexivity.
  - intros Hne term. split; [|split].
    + intros email event. rewrite (searched_holds _ _ _ _ _ Hne).
      fold term. rewrite (matchesTerm_places users email term event);
        [reflexivity | now apply term_not_blank].
    + unfold filteredCalendars.
      destruct (String.eqb_spec (trim searchTerm) ""); [contradiction|].
      intros email events Hin. now apply searched_entry in Hin as [H _].
    + unfold filteredCalendars.
      destruct (String.eqb_spec (trim searchTerm) ""); [contradiction|].
      rewrite foldl_addMatches. cbn [app]. clear.
      induction cals as [|[e evs] cals IH]; [apply sublist_nil|].
      cbn [map List.filter fst snd].
      destruct (_ && _); cbn [map fst]; [apply sublist_skip | apply sublist_cons]; exact IH.
Qed.

Lemma search_keeps_matches_witness :
  trim " STAND " <> ""
  /\ Ref2.holds
       (filteredCalendars (Some [("a@x.tw", [validEvent; brokenEvent])]) sampleUsers " STAND ")
       "a@x.tw" validEvent
  /\ ~ Ref2.holds
         (filteredCalendars (Some [("a@x.tw", [validEvent; brokenEvent])]) sampleUsers "lunch")
         "a@x.tw" validEvent.
Proof.
  assert (Hne : trim " STAND " <> "") by (vm_compute; discriminate).
  split; [exact Hne|]. split.
  - destruct (search_keeps_matches [("a@x.tw", [validEvent; brokenEvent])] sampleUsers
                " STAND ") as (_ & H).
    destruct (H Hne) as (Hiff & _). apply Hiff.
    split; [discriminate|]. split.
    + exists [validEvent; brokenEvent]. split; left; reflexivity.
    + left. vm_compute. reflexivity.
  - destruct (search_keeps_matches [("a@x.tw", [validEvent; brokenEvent])] sampleUsers
                "lunch") as (_ & H).
    destruct (H ltac:(vm_compute; discriminate)) as (Hiff & _).
    intros Hh. apply Hiff in Hh as (_ & _ & [Hs | [(user & Hu & Hm) | (l & d & Hl & _)]]).
    + revert Hs. vm_compute. discriminate.
    + revert Hu Hm. cbn. intros [= <-]. vm_compute. discriminate.
    + revert Hl. vm_compute. discriminate.
Defined.

(** X22.  The search ignores the case of what was typed and the white
    space around it: two terms that agree once trimmed and lower-cased
    give the same result.  It ignores the case of the records too: a
    record whose subject contains the trimmed term, in whatever case,
    is kept, unless its owner key is [__proto__]. *)
Theorem search_ignores_case (cals : list (string * list CalendarEvent))
    (users : list UserInfo) (term1 term2 : string) :
  Text.toLowerCase (trim term1) = Text.toLowerCase (trim term2) ->
  filteredCalendars (Some cals) users term1 = filteredCalendars (Some cals) users term2
  /\ (forall email event,
        trim term1 <> "" -> email <> "__proto__" -> Ref2.holds cals email event ->
        includes (subject event) (trim term1) = true ->
        Ref2.holds (filteredCalendars (Some cals) users term2) email event).
Proof.
  intros E.
  assert (Hblank : String.eqb (trim term1) "" = String.eqb (trim term2) "").
  { rewrite <- (toLowerCase_empty (trim term1)), <- (toLowerCase_empty (trim term2)).
    now rewrite E. }
  split.
  - unfold filteredCalendars. rewrite Hblank, !trim_toLowerCase, E. reflexivity.
  - intros email event Hne Hp Hh Hinc.
    assert (Hne2 : trim term2 <> "").
    { intros H2. rewrite H2, String.eqb_refl in Hblank.
      apply String.eqb_eq in Hblank. contradiction. }
    apply (searched_holds cals users term2 email event Hne2).
    split; [exact Hp|]. split; [exact Hh|]. unfold matchesTerm.
    rewrite trim_toLowerCase, <- E.
    rewrite (includes_toLowerCase _ _ Hinc). reflexivity.
Qed.

Lemma search_ignores_case_witness :
  filteredCalendars (Some [("a@x.tw", [validEvent; brokenEvent])]) sampleUsers " AMY "
  = filteredCalendars (Some [("a@x.tw", [validEvent; brokenEvent])]) sampleUsers "amy".
Proof.
  apply (search_ignores_case [("a@x.tw", [validEvent; brokenEvent])] sampleUsers
           " AMY " "amy").
  vm_compute. reflexivity.
Defined.

Lemma colorLookupFails_searched p searchTerm :
  colorLookupFails
    (Ref2.withCalendars p (filteredCalendars (Some (calendars p)) (users p) searchTerm)) ->
  colorLookupFails p.
Proof.
  intros [(entry & Hc & Hs & Hne & Hcol) | H]; [|right; exact H].
  left. cbn [Ref2.withCalendars calendars selectedUsers] in Hc, Hs.
  unfold filteredCalendars in Hc.
  destruct (String.eqb (trim searchTerm) "").
  - exists entry. auto.
  - destruct entry as [email matched].
    apply searched_entry in Hc as (_ & _ & evs & Hin & Hm).
    exists (email, evs). cbn [fst snd] in *.
    split; [exact Hin|]. split; [exact Hs|]. split; [|exact Hcol].
    intros ->. apply Hne. exact Hm.
Qed.

(** X23.  Searching only narrows the personal events of the grid: when
    the render with all calendars returns an event list, so does the render
    with the searched calendars; every display event of the latter is a
    display event of the former, and every holiday and on-call display
    event stays, whatever the term is. *)
Theorem search_narrows_display (tz now : Z) (p : Props) (searchTerm : string)
    (evs : list FullCalendarEvent) :
  events tz now p = Normal evs ->
  exists searched,
    events tz now
      (Ref2.withCalendars p (filteredCalendars (Some (calendars p)) (users p) searchTerm))
    = Normal searched
    /\ (forall out, In out searched -> In out evs)
    /\ (forall out,
          In out evs ->
          ep_isHoliday (fc_extendedProps out) = Some true
          \/ ep_isOncall (fc_extendedProps out) = Some true ->
          In out searched).
Proof.
  intros Hev.
  set (q := Ref2.withCalendars p _).
  destruct (events tz now q) as [searched|] eqn:Hq.
  2:{ apply events_TypeError in Hq. apply colorLookupFails_searched in Hq.
      apply (proj2 (events_TypeError tz now p)) in Hq. congruence. }
  exists searched. split; [reflexivity|].
  split; intros out Hin.
  - apply (origin_in_events _ _ _ _ _ Hev). apply (events_origin _ _ _ _ _ Hq) in Hin.
    destruct Hin as [email matched e Hc Hs He c Ec -> | h Hs Hh -> | e Hs He c Ec ->].
    + unfold q in Hc, Hs. cbn [Ref2.withCalendars calendars selectedUsers] in Hc, Hs.
      assert (Hh : Ref2.holds (calendars p) email e).
      { unfold filteredCalendars in Hc.
        destruct (String.eqb (trim searchTerm) ""); [exists matched; auto|].
        apply searched_entry in Hc as (_ & _ & evs0 & Hin & ->).
        apply filter_In in He as [He _]. exists evs0. auto. }
      destruct Hh as (evs0 & Hin & Hev0).
      exact (Ref2.FromOwner tz now p _ email evs0 e Hin Hs Hev0 c Ec eq_refl).
    + exact (Ref2.FromHoliday tz now p _ h Hs Hh eq_refl).
    + exact (Ref2.FromOncall tz now p _ e Hs He c Ec eq_refl).
  - intros Hflag. apply (origin_in_events _ _ _ _ _ Hq).
    apply (events_origin _ _ _ _ _ Hev) in Hin.
    destruct Hin as [email evs0 e Hc Hs He c Ec -> | h Hs Hh -> | e Hs He c Ec ->].
    + cbn in Hflag. destruct Hflag; discriminate.
    + exact (Ref2.FromHoliday tz now q _ h Hs Hh eq_refl).
    + exact (Ref2.FromOncall tz now q _ e Hs He c Ec eq_refl).
Qed.

Lemma search_narrows_display_witness :
  exists searched,
    events 480 0
      (Ref2.withCalendars sampleProps
         (filteredCalendars (Some (calendars sampleProps)) (users sampleProps) "lunch"))
    = Normal searched
    /\ In (holidayEvent 480 0 sampleProps newYear2024) searched.
Proof.
  destruct (search_narrows_display 480 0 sampleProps "lunch" _ eq_refl)
    as (searched & E & _ & H).
  exists searched. split; [exact E|].
  apply H; [right; right; left; reflexivity | left; reflexivity].
Defined.

End Searching.

(** ** Keyboard shortcuts *)
Section KeyboardShortcuts.
Import Text Shortcuts.
Local Open Scope string_scope.

Ltac key_cases :=
  repeat match goal with
    | |- context [String.eqb ?a ?b] => destruct (String.eqb a b)
    end.

(** X24.  A key press in a text field never triggers a shortcut and is
    never prevented: the only thing it can do is remove the focus, on
    Escape.  Outside text fields a press with Ctrl, Meta or Alt does
    nothing at all: no action and no [preventDefault].  Every other action
    comes with [preventDefault], which is called exactly for the ten
    shortcut keys pressed outside text fields without such a modifier, and
    a letter acts the same in upper and in lower case. *)
Theorem shortcuts_are_guarded (o : Options) (event : KeyEvent) :
  (forall e, effect (handleKeyDown o event) = Some e ->
     if Ref2.inTextField event
     then e = Blur /\ key event = "Escape"
     else e <> Blur /\ Ref2.withModifier event = false
          /\ prevented (handleKeyDown o event) = true)
  /\ (Ref2.inTextField event = true -> prevented (handleKeyDown o event) = false)
  /\ (Ref2.inTextField event = false ->
      handleKeyDown o (Ref2.withKey event (toLowerCase (key event)))
      = handleKeyDown o event)
  /\ (Ref2.inTextField event = false -> Ref2.withModifier event = true ->
      prevented (handleKeyDown o event) = false
      /\ effect (handleKeyDown o event) = None)
  /\ (prevented (handleKeyDown o event) = true
      <-> Ref2.inTextField event = false /\ Ref2.withModifier event = false
          /\ In (toLowerCase (key event))
                ["t"; "m"; "w"; "d"; "a"; "arrowleft"; "arrowright"; "["; "f"; "/"]).
Proof.
  unfold handleKeyDown, Ref2.inTextField, Ref2.withModifier, Ref2.withKey.
  cbn [targetTag isContentEditable key ctrlKey metaKey altKey].
  destruct (String.eqb (targetTag event) "INPUT" || String.eqb (targetTag event) "TEXTAREA"
            || isContentEditable event).
  - split; [|split; [|split; [|split]]]; [|reflexivity|discriminate|discriminate|].
    + intros e. cbn [effect]. destruct (String.eqb_spec (key event) "Escape"); [|discriminate].
      intros [= <-]. auto.
    + cbn [prevented]. split; [discriminate | intros [H _]; discriminate].
  - split; [|split; [|split; [|split]]]; [|discriminate| | |].
    + intros e. destruct (ctrlKey event || metaKey event || altKey event); [discriminate|].
      unfold act, ignored.
      key_cases; cbn [effect prevented];
        repeat match goal with |- context [if ?b then _ else _] => destruct b end;
        intros [= <-] || discriminate; repeat split; discriminate.
    + intros _. rewrite toLowerCase_twice. reflexivity.
    + intros _ ->. split; reflexivity.
    + destruct (ctrlKey event || metaKey event || altKey event).
      * cbn [prevented ignored]. split; [discriminate | intros (_ & H & _); discriminate].
      * generalize (toLowerCase (key event)). intros k. unfold act, ignored.
        repeat match goal with
               | |- context [String.eqb ?a ?b] => destruct (String.eqb_spec a b)
               end;
          cbn [prevented In]; subst;
          (split; [intros H; try discriminate H; repeat split; tauto
                  | intros (_ & _ & H); try reflexivity; intuition congruence]).
Qed.

Lemma shortcuts_are_guarded_witness :
  prevented
    (handleKeyDown {| hasCalendarApi := true; hasToggleSidebar := true;
                      hasOpenAvailabilityFinder := true; hasSearchInput := true |}
       {| targetTag := "INPUT"; isContentEditable := false; key := "t";
          ctrlKey := false; metaKey := false; altKey := false |}) = false
  /\ prevented
       (handleKeyDown {| hasCalendarApi := true; hasToggleSidebar := true;
                         hasOpenAvailabilityFinder := true; hasSearchInput := true |}
          {| targetTag := "DIV"; isContentEditable := false; key := "t";
             ctrlKey := true; metaKey := false; altKey := false |}) = false.
Proof.
  split.
  - apply (proj1 (proj2 (shortcuts_are_guarded
             {| hasCalendarApi := true; hasToggleSidebar := true;
                hasOpenAvailabilityFinder := true; hasSearchInput := true |}
             {| targetTag := "INPUT"; isContentEditable := false; key := "t";
                ctrlKey := false; metaKey := false; altKey := false |}))).
    reflexivity.
  - apply (proj1 (proj2 (proj2 (proj2 (shortcuts_are_guarded
             {| hasCalendarApi := true; hasToggleSidebar := true;
                hasOpenAvailabilityFinder := true; hasSearchInput := true |}
             {| targetTag := "DIV"; isContentEditable := false; key := "t";
                ctrlKey := true; metaKey := false; altKey := false |}))))); reflexivity.
Defined.

End KeyboardShortcuts.

(** ** The service worker's cache *)
Section OfflineCache.
Import Text ServiceWorker.
Local Open Scope string_scope.

Lemma cachesMatch_put_current storage u r :
  cachesMatch (put (activate storage) CACHE_NAME u r) u = Some r.
Proof.
  unfold activate.
  induction storage as [|[n c] storage IH]; cbn [List.filter fst].
  - cbn [put cachesMatch]. now rewrite lookup_singleton_eq.
  - destruct (String.eqb n CACHE_NAME) eqn:E; [|exact IH].
    cbn [put]. rewrite E. cbn [cachesMatch]. now rewrite lookup_insert_eq.
Qed.

(** X25.  What was fetched on line is answered off line: after
    activation, a GET request outside [/api/] that the network answered
    with status 200 is answered with that same response when a later GET
    request for the URL finds the network down, and the failed request
    leaves the storage as it was. *)
Theorem offline_replay (root : string) (storage : list (string * gmap string Response))
    (request later : Request) (response : Response) :
  method request = "GET" -> includes (url request) "/api/" = false ->
  status response = 200%Z ->
  method later = "GET" -> url later = url request ->
  handleFetch root
    (snd (handleFetch root (activate storage) request (Some response))) later None
  = (RespondWith (Some response),
     snd (handleFetch root (activate storage) request (Some response))).
Proof.
  intros Hm Hu Hs Hm' Hu'. unfold handleFetch.
  rewrite Hm, Hm', Hu', Hu, Hs. cbn [negb String.eqb Ascii.eqb Bool.eqb snd Z.eqb Pos.eqb].
  change (String.eqb "GET" "GET") with true. cbn [negb].
  rewrite cachesMatch_put_current. reflexivity.
Qed.

Lemma offline_replay_witness :
  fst (handleFetch "/"
         (snd (handleFetch "/" (activate [])
                 {| method := "GET"; url := "/calendar.svg"; mode := "no-cors" |}
                 (Some {| status := 200; statusText := "OK"; body := "svg" |})))
         {| method := "GET"; url := "/calendar.svg"; mode := "no-cors" |} None)
  = RespondWith (Some {| status := 200; statusText := "OK"; body := "svg" |}).
Proof.
  rewrite (offline_replay "/" []
             {| method := "GET"; url := "/calendar.svg"; mode := "no-cors" |}
             {| method := "GET"; url := "/calendar.svg"; mode := "no-cors" |}
             {| status := 200; statusText := "OK"; body := "svg" |});
    reflexivity.
Defined.

Lemma cached_put storage name u r u' r' :
  Ref2.cached (put storage name u r) u' r' ->
  Ref2.cached storage u' r' \/ (u' = u /\ r' = r).
Proof.
  unfold Ref2.cached.
  induction storage as [|[n c] storage IH]; cbn [put].
  - intros (n' & c' & [[= <- <-] | []] & Hl).
    apply lookup_singleton_Some in Hl as [-> ->]. right. auto.
  - destruct (String.eqb n name).
    + intros (n' & c' & [[= <- <-] | Hin] & Hl).
      * destruct (decide (u = u')) as [-> | Hne].
        -- rewrite lookup_insert_eq in Hl. injection Hl as <-. right. auto.
        -- rewrite lookup_insert_ne in Hl by exact Hne.
           left. exists n, c. split; [left; reflexivity | exact Hl].
      * left. exists n', c'. split; [right; exact Hin | exact Hl].
    + intros (n' & c' & [[= <- <-] | Hin] & Hl).
      * left. exists n, c. split; [left; reflexivity | exact Hl].
      * destruct IH as [(n2 & c2 & Hin2 & Hl2) | Hnew]; [eauto | | right; exact Hnew].
        left. exists n2, c2. split; [right; exact Hin2 | exact Hl2].
Qed.

(** X26.  The fetch handler only ever adds to the cache the answers of
    the network with status 200 to GET requests outside [/api/]: after
    any sequence of fetch events, a cached response was either in the
    storage before or is such an answer, stored under the URL of its
    request. *)
Theorem cache_holds_only_successes (root : string)
    (events : list (Request * option Response)) :
  forall (storage : list (string * gmap string Response)) (u : string) (r : Response),
  Ref2.cached (Ref2.fetches root storage events) u r ->
  Ref2.cached storage u r
  \/ (status r = 200%Z /\ includes u "/api/" = false
      /\ exists request, In (request, Some r) events
                         /\ url request = u /\ method request = "GET").
Proof.
  unfold Ref2.fetches.
  induction events as [|[request network] events IH]; intros storage u r; cbn [foldl fst snd].
  - auto.
  - intros H. apply IH in H as [H | (Hs & Hu & request' & Hin & E & Hm)].
    2:{ right. repeat split; try assumption. exists request'. split; [right; exact Hin | auto]. }
    unfold handleFetch in H.
    destruct (String.eqb_spec (method request) "GET") as [Hm | Hm]; cbn [negb snd] in H;
      [|left; exact H].
    destruct (includes (url request) "/api/") eqn:Hu; cbn [snd] in H; [left; exact H|].
    destruct network as [response|]; cbn [snd] in H.
    + destruct (Z.eqb_spec (status response) 200) as [Hs | Hs]; [|left; exact H].
      apply cached_put in H as [H | [-> ->]]; [left; exact H|].
      right. repeat split; try assumption.
      exists request. split; [left; reflexivity | auto].
    + left. destruct (cachesMatch storage (url request)); cbn [snd] in H; [exact H|].
      destruct (String.eqb (mode request) "navigate"); exact H.
Qed.

Lemma cache_holds_only_successes_witness :
  ~ Ref2.cached
      (Ref2.fetches "/" []
         [({| method := "GET"; url := "/missing.js"; mode := "no-cors" |},
           Some {| status := 404; statusText := "Not Found"; body := "" |})])
      "/missing.js" {| status := 404; statusText := "Not Found"; body := "" |}.
Proof.
  intros H. apply cache_holds_only_successes in H as [(n & c & [] & _) | (Hs & _)].
  discriminate Hs.
Defined.

End OfflineCache.
